(** * OutlookDOMDiff: a shallow embedding of the snapshot analyzer

    The development follows [src/browser/outlook-diff-analyzer.js] (the
    browser variant, which carries the landmark catalog, the element
    correspondence matcher and the four candidate strategies) and the
    command-line variant of the same class ([analyzers/dom-diff.js]).

    Modelling conventions
    - a JavaScript string is a [string]; its code units are [ascii]
      characters, and [toLowerCase] lowers the ASCII letters only;
    - integer-valued JavaScript numbers (scores, lengths, positions) are [Z]
      or [nat]; the one quotient of the program, the attribute stability
      percentage, is a binary64 number, given by its exact rational value:
      module [Binary64] rounds the quotient and the product to the nearest
      binary64, ties to even, [toFixed] prints the rounded value and
      [parseFloat] reads a decimal literal as the binary64 nearest to it;
    - a plain object used as a dictionary ([_getAttributes]) is the list of
      its own properties in the order [Object.keys] lists them (array
      indices in ascending order, then the other names in creation order);
      a read of a name that is not an own property finds the member of
      [Object.prototype] of that name, if there is one;
    - a thrown exception is the [Throw] case of [Completion];
    - the DOM is a tree of [Node]s; an [Element] is a handle to an element
      node together with its sibling context; the selector engine
      ([querySelectorAll]) is a parameter of the analyzer, and module [Css]
      provides one concrete engine for the selector forms of the catalogs. *)

From Stdlib Require Import String Ascii List Bool Arith ZArith NArith QArith Qround Qpower Lia Lqa.
From Stdlib Require Import DecimalString DecimalNat Permutation Sorted.
Import ListNotations.

Set Warnings "-register-all".

Local Open Scope string_scope.
Local Open Scope list_scope.

(* ------------------------------------------------------------------------- *)
(** ** JavaScript strings, arrays and sets *)

Module JS.

(** [s.includes(t)] *)
Fixpoint includes (s t : string) : bool :=
  prefix t s ||
  match s with
  | EmptyString => false
  | String _ s' => includes s' t
  end.

(** [s.startsWith(t)] *)
Definition startsWith (s t : string) : bool := prefix t s.

Definition lowerChar (c : ascii) : ascii :=
  let n := nat_of_ascii c in
  if (65 <=? n)%nat && (n <=? 90)%nat then ascii_of_nat (n + 32) else c.

(** [s.toLowerCase()] *)
Fixpoint toLowerCase (s : string) : string :=
  match s with
  | EmptyString => EmptyString
  | String c s' => String (lowerChar c) (toLowerCase s')
  end.

(** Truthiness of a string value: every string but the empty one. *)
Definition truthy (s : string) : bool := negb (s =? "").

(** [s.split(' ')]: the pieces between single spaces, empty pieces kept. *)
Fixpoint splitSpace (s : string) : list string :=
  match s with
  | EmptyString => [EmptyString]
  | String c s' =>
      if Ascii.eqb c " "%char then EmptyString :: splitSpace s'
      else match splitSpace s' with
           | [] => [String c EmptyString]
           | piece :: rest => String c piece :: rest
           end
  end.

(** [xs.join('')] *)
Definition join (xs : list string) : string := fold_right append "" xs.

(** [String(n)] for a non-negative integer. *)
Definition numberToString (n : nat) : string :=
  NilZero.string_of_uint (Nat.to_uint n).

(** [xs.sort(cmp)]: the sort is stable, [x] goes after the elements that
    the comparator puts before it and before the first one it ties with
    or precedes. *)
Section Sort.
Context {A : Type} (cmp : A -> A -> Z).

Fixpoint insertSorted (x : A) (l : list A) : list A :=
  match l with
  | [] => [x]
  | y :: l' => if (cmp x y >? 0)%Z then y :: insertSorted x l' else x :: l
  end.

Definition sort (l : list A) : list A := fold_right insertSorted [] l.
End Sort.

(** [xs.slice(i, j)] *)
Definition slice {A} (i j : nat) (l : list A) : list A := firstn (j - i) (skipn i l).

(** [new Set(xs)], [set.has] and [set.size]; a set iterates in insertion
    order, so it is the list of first occurrences. *)
Section SetOf.
Context {A : Type} (eqb : A -> A -> bool).

Definition has (s : list A) (x : A) : bool := existsb (eqb x) s.

Definition add (s : list A) (x : A) : list A := if has s x then s else s ++ [x].

Definition newSet (xs : list A) : list A := fold_left add xs [].
End SetOf.

(** Strict equality on a value that is a string or [null]/[undefined]. *)
Definition strictEq (a b : option string) : bool :=
  match a, b with
  | Some x, Some y => x =? y
  | None, None => true
  | _, _ => false
  end.

(** [x.toFixed(2)] for a binary64 number of exact value 0 <= x < 1e21: [n]
    is the integer nearest to [x * 100], the larger one on a tie; the digits
    of [n] are printed with a point before the last two. *)
Definition hundredths (x : Q) : Z := Qfloor (x * 100 + (1 # 2))%Q.

Definition digit (d : nat) : ascii := ascii_of_nat (48 + d).

Definition formatHundredths (n : nat) : string :=
  (numberToString (n / 100)
     ++ "." ++ String (digit ((n mod 100) / 10)) (String (digit (n mod 10)) ""))%string.

Definition toFixed2 (x : Q) : string := formatHundredths (Z.to_nat (hundredths x)).

(** Plain objects as dictionaries whose values are strings.  An object is
    the list of its own properties in the order in which [Object.keys] and
    [Object.values] list them: the array indices in ascending order, then
    the other names in the order of their creation. *)
Definition Obj := list (string * string).

(** The value of a numeral; [None] when a character is not a digit. *)
Fixpoint numeralValue (s : string) (acc : N) : option N :=
  match s with
  | EmptyString => Some acc
  | String c s' =>
      let n := N_of_ascii c in
      if ((48 <=? n) && (n <=? 57))%N then numeralValue s' (acc * 10 + (n - 48))%N
      else None
  end.

(** An array index is the canonical numeral of an integer below 2^32 - 1:
    no sign, no leading zero. *)
Definition arrayIndex (k : string) : option N :=
  match k with
  | EmptyString => None
  | String c rest =>
      if Ascii.eqb c "0"%char && negb (rest =? "") then None
      else match numeralValue k 0 with
           | Some n => if (n <? 4294967295)%N then Some n else None
           | None => None
           end
  end.

(** The place of a new own property: an array index goes before the larger
    indices and before the names that are no index; another name goes
    last. *)
Definition keyPrecedes (k k' : string) : bool :=
  match arrayIndex k, arrayIndex k' with
  | Some i, Some j => (i <? j)%N
  | Some _, None => true
  | None, _ => false
  end.

Fixpoint create (o : Obj) (k v : string) : Obj :=
  match o with
  | [] => [(k, v)]
  | (k', v') :: o' => if keyPrecedes k k' then (k, v) :: o else (k', v') :: create o' k v
  end.

Fixpoint update (o : Obj) (k v : string) : Obj :=
  match o with
  | [] => []
  | (k', v') :: o' => if k' =? k then (k', v) :: o' else (k', v') :: update o' k v
  end.

Definition hasOwn (o : Obj) (k : string) : bool := existsb (fun entry => fst entry =? k) o.

(** The names of the members of [Object.prototype], which a plain object
    inherits: functions, and for [__proto__] an accessor that yields the
    prototype itself. *)
Definition objectPrototype : list string :=
  [ "constructor"; "__defineGetter__"; "__defineSetter__"; "hasOwnProperty";
    "__lookupGetter__"; "__lookupSetter__"; "isPrototypeOf"; "propertyIsEnumerable";
    "toString"; "valueOf"; "__proto__"; "toLocaleString" ].

Definition inherits (k : string) : bool := existsb (String.eqb k) objectPrototype.

(** [o[k] = v] for a string [v]: an own property keeps its place; the
    inherited setter of [__proto__] ignores a value that is not an object,
    so that no property is created; any other name becomes a new own
    property. *)
Definition set (o : Obj) (k v : string) : Obj :=
  if hasOwn o k then update o k v
  else if k =? "__proto__" then o
  else create o k v.

(** The own property [k], if there is one. *)
Fixpoint get (o : Obj) (k : string) : option string :=
  match o with
  | [] => None
  | (k', v') :: o' => if k' =? k then Some v' else get o' k
  end.

(** [o[k]]: the own property, or else the inherited member of that name,
    which is an object and no string, or else [undefined]. *)
Inductive Value :=
| undefined
| str (s : string)
| member.

Definition read (o : Obj) (k : string) : Value :=
  match get o k with
  | Some v => str v
  | None => if inherits k then member else undefined
  end.

(** [Object.keys(o)] and [Object.values(o)] *)
Definition keys (o : Obj) : list string := map fst o.
Definition values (o : Obj) : list string := map snd o.

End JS.

(* ------------------------------------------------------------------------- *)
(** ** Binary64 arithmetic

    A finite binary64 number is given by its exact value.  The operations
    of the program on such numbers are one division, one multiplication
    and the reading of a decimal literal; each yields the binary64 number
    nearest to the exact result, the one with an even last bit when two
    are equally near.  The operands of the arithmetic are counts and 100,
    and its results lie between 0 and 100, far from the overflow
    threshold; [Display.number] handles that threshold for the
    literals. *)

Module Binary64.

(** The integer nearest to [y], the even one when [y] is half-way. *)
Definition nearestEven (y : Q) : Z :=
  let f := Qfloor y in
  match Qcompare (y - inject_Z f) (1 # 2) with
  | Lt => f
  | Gt => (f + 1)%Z
  | Eq => if Z.even f then f else (f + 1)%Z
  end.

(** The exponent of the leading bit of a positive [q]. *)
Definition ilog2 (q : Q) : Z :=
  if Qle_bool 1 q then Z.log2 (Qfloor q) else (- Z.log2_up (Qceiling (/ q)))%Z.

(** The exponent of the last bit: 53 significant bits, and no bit below
    the one of weight 2^-1074. *)
Definition ulpExponent (q : Q) : Z := Z.max (ilog2 q - 52) (-1074).

(** The binary64 number nearest to [q], for [0 <= q]. *)
Definition round (q : Q) : Q :=
  let e := ulpExponent q in
  inject_Z (nearestEven (q * 2 ^ (- e))) * 2 ^ e.

Definition div (a b : Q) : Q := round (a / b).
Definition mul (a b : Q) : Q := round (a * b).

End Binary64.

(** Abrupt and normal completion of a call. *)
Inductive Exception :=
| SyntaxError (selector : string)
| TypeError.

Inductive Completion (A : Type) :=
| Normal (a : A)
| Throw (e : Exception).
Arguments Normal {A} a.
Arguments Throw {A} e.

Definition bind {A B} (c : Completion A) (k : A -> Completion B) : Completion B :=
  match c with
  | Normal a => k a
  | Throw e => Throw e
  end.

Notation "x <- c ;; k" := (bind c (fun x => k))
  (at level 61, c at next level, right associativity).

(** [xs.forEach(f)] where [f] may throw and threads an accumulator. *)
Fixpoint forEachM {A S} (f : S -> A -> Completion S) (xs : list A) (s : S) : Completion S :=
  match xs with
  | [] => Normal s
  | x :: xs' => s' <- f s x ;; forEachM f xs' s'
  end.

(** [try { xs.forEach(f) } catch (error) { }] where [f] pushes to an array
    that outlives the [try]: a throw ends the loop, and what was pushed
    before it stays. *)
Fixpoint forEachTry {A S} (f : S -> A -> Completion S) (xs : list A) (s : S) : S :=
  match xs with
  | [] => s
  | x :: xs' =>
      match f s x with
      | Normal s' => forEachTry f xs' s'
      | Throw _ => s
      end
  end.

(* ------------------------------------------------------------------------- *)
(** ** The DOM *)

Inductive Node :=
| TextNode (data : string)
| ElementNode (tag : string) (attrs : list (string * string)) (children : list Node).

(** A handle to an element: the element node's own data and its place among
    its siblings, the nearest previous sibling first. *)
Record Element := mkElement {
  tagName : string;
  attributes : list (string * string);
  childNodes : list Node;
  previousSiblings : list Node;
  nextSiblings : list Node;
  hasParentElement : bool
}.

Fixpoint nodeText (n : Node) : string :=
  match n with
  | TextNode data => data
  | ElementNode _ _ kids =>
      (fix go (l : list Node) : string :=
         match l with
         | [] => ""
         | k :: l' => (nodeText k ++ go l')%string
         end) kids
  end.

(** [element.textContent] *)
Definition textContent (el : Element) : string :=
  nodeText (ElementNode (tagName el) (attributes el) (childNodes el)).

(** [element.getAttribute(name)], [null] when the attribute is absent. *)
Fixpoint lookupAttr (attrs : list (string * string)) (name : string) : option string :=
  match attrs with
  | [] => None
  | (n, v) :: rest => if n =? name then Some v else lookupAttr rest name
  end.

Definition getAttribute (el : Element) (name : string) : option string :=
  lookupAttr (attributes el) name.

(** [element.id] and [element.className] reflect the attribute, and are the
    empty string without it. *)
Definition reflected (el : Element) (name : string) : string :=
  match getAttribute el name with Some v => v | None => "" end.

Definition isElementNode (n : Node) : bool :=
  match n with ElementNode _ _ _ => true | TextNode _ => false end.

Definition nodeTag (n : Node) : string :=
  match n with ElementNode t _ _ => t | TextNode _ => "" end.

(** The elements of a subtree in document order, each with its context. *)
Fixpoint elementsOfNode (parent : bool) (prev : list Node) (n : Node) (next : list Node)
  {struct n} : list Element :=
  match n with
  | TextNode _ => []
  | ElementNode t a kids =>
      mkElement t a kids prev next parent ::
      (fix siblings (before rest : list Node) {struct rest} : list Element :=
         match rest with
         | [] => []
         | k :: rest' => elementsOfNode true before k rest' ++ siblings (k :: before) rest'
         end) [] kids
  end.

Fixpoint elementsOfForest (parent : bool) (before rest : list Node) : list Element :=
  match rest with
  | [] => []
  | k :: rest' => elementsOfNode parent before k rest' ++ elementsOfForest parent (k :: before) rest'
  end.

Fixpoint countElementNodes (l : list Node) : nat :=
  match l with
  | [] => 0
  | ElementNode _ _ _ :: l' => S (countElementNodes l')
  | TextNode _ :: l' => countElementNodes l'
  end.

(** [parentElement.children] seen from one of the children: the element
    siblings before it (in document order) and after it. *)
Definition elementSiblingsBefore (el : Element) : list Node :=
  rev (filter isElementNode (previousSiblings el)).

Definition elementSiblingsAfter (el : Element) : list Node :=
  filter isElementNode (nextSiblings el).

(** The double quote, and a value between double quotes. *)
Definition dquote : string := String (ascii_of_nat 34) "".
Definition quoted (s : string) : string := (dquote ++ s ++ dquote)%string.

(* ------------------------------------------------------------------------- *)
(** ** Result records *)

Module AttributeStability.
Record t := mk {
  totalBefore : nat;
  totalAfter : nat;
  commonCount : nat;
  stabilityScore : string;
  stableValues : list (option string)
}.
End AttributeStability.

(** [_getElementMetadata]; the [path] field, which no analysis reads back, is
    left out. *)
Module ElementMetadata.
Record t := mk {
  tagName : string;
  attributes : JS.Obj;
  childrenCount : nat;
  textContentLength : nat
}.
End ElementMetadata.

(** The object returned by [_findElementMatchingSelectors]; [selector] and
    [element] are [undefined] on [{ found: false }]. *)
Module MatchOutcome.
Record t := mk {
  found : bool;
  selector : option string;
  element : option ElementMetadata.t
}.
End MatchOutcome.

Inductive Status := added | removed | changed.

Module Change.
Record t := mk {
  elementName : string;
  before : MatchOutcome.t;
  after : MatchOutcome.t;
  status : Status
}.
End Change.

Module Candidate.
Record t := mk {
  selector : string;
  stabilityScore : Z;
  type : string
}.
End Candidate.

Module Recommendation.
Record t := mk {
  primarySelector : option string;
  alternativeSelectors : list string;
  stabilityScore : Z;
  selectorType : option string;
  isReliable : bool
}.
End Recommendation.

Module Report.
Record t := mk {
  stableAttributes : list (string * AttributeStability.t);
  changedSelectors : list Change.t;
  recommendedAnchors : list (string * Recommendation.t)
}.
End Report.

(* ------------------------------------------------------------------------- *)
(** ** Element-level helpers of the browser variant *)

(** [_getAttributes] *)
Definition _getAttributes (element : Element) : JS.Obj :=
  fold_left (fun attributes attr => JS.set attributes (fst attr) (snd attr))
            (attributes element) [].

(** [_getElementMetadata] *)
Definition _getElementMetadata (element : Element) : ElementMetadata.t :=
  {| ElementMetadata.tagName := tagName element;
     ElementMetadata.attributes := _getAttributes element;
     ElementMetadata.childrenCount := countElementNodes (childNodes element);
     ElementMetadata.textContentLength := String.length (textContent element) |}.

(** [_hasDataAttribute] *)
Definition _hasDataAttribute (element : Element) : bool :=
  existsb (fun attr => JS.startsWith (fst attr) "data-") (attributes element).

(** [_calculateTermMatchScore] *)
Definition textTermStep (elementText : string) (score : Z) (term : string) : Z :=
  if JS.includes elementText (JS.toLowerCase term) then (score + 1)%Z else score.

Definition attrTermStep (attrValue : string) (score : Z) (term : string) : Z :=
  if JS.includes (JS.toLowerCase attrValue) (JS.toLowerCase term)
  then (score + 2)%Z else score.

Definition _calculateTermMatchScore (element : Element) (keyTerms : list string) : Z :=
  let score := 0%Z in
  let elementText := JS.toLowerCase (textContent element) in
  let attributes := _getAttributes element in
  let score := fold_left (textTermStep elementText) keyTerms score in
  let score :=
    fold_left (fun score attrValue => fold_left (attrTermStep attrValue) keyTerms score)
              (JS.values attributes) score in
  Z.min 5 score.

(** [_getRelativePosition]: one step of the loop per previous element
    sibling. *)
Fixpoint _getRelativePosition_loop (siblings : list Node) (position : nat) : nat :=
  match siblings with
  | [] => position
  | ElementNode _ _ _ :: rest => _getRelativePosition_loop rest (S position)
  | TextNode _ :: rest => _getRelativePosition_loop rest position
  end.

Definition _getRelativePosition (element : Element) : nat :=
  _getRelativePosition_loop (previousSiblings element) 0.

(** The body of the attribute loop of [_findMatchingElement].  [attrName]
    runs over the own keys of [beforeAttrs], so [beforeAttrs[attrName]] is
    the own value [beforeValue], a string.  [afterAttrs[attrName]] is read
    through the prototype chain: an inherited member is not [===] to a
    string, it is truthy, and it has no [includes] method, so the call
    [afterAttrs[attrName].includes(...)] throws a [TypeError] once the
    guard [beforeAttrs[attrName]] has let it be reached. *)
Definition attributeStep (afterAttrs : JS.Obj) (matchScore : Z) (entry : string * string)
  : Completion Z :=
  let '(attrName, beforeValue) := entry in
  match JS.read afterAttrs attrName with
  | JS.str afterValue =>
      if afterValue =? beforeValue then Normal (matchScore + 2)%Z
      else if JS.truthy afterValue && JS.truthy beforeValue
              && JS.includes afterValue beforeValue
      then Normal (matchScore + 1)%Z
      else Normal matchScore
  | JS.member => if JS.truthy beforeValue then Throw TypeError else Normal matchScore
  | JS.undefined => Normal matchScore
  end.

(** The score [_findMatchingElement] gives to one candidate. *)
Definition matchScoreOf (beforeEl afterEl : Element) : Completion Z :=
  let beforeAttrs := _getAttributes beforeEl in
  let afterAttrs := _getAttributes afterEl in
  let matchScore := 0%Z in
  matchScore <- forEachM (attributeStep afterAttrs) beforeAttrs matchScore ;;
  let matchScore :=
    if tagName beforeEl =? tagName afterEl then (matchScore + 1)%Z else matchScore in
  let matchScore :=
    if (_getRelativePosition beforeEl =? _getRelativePosition afterEl)%nat
    then (matchScore + 2)%Z else matchScore in
  Normal matchScore.

Definition matchStep (beforeEl : Element) (state : option Element * Z) (afterEl : Element)
  : Completion (option Element * Z) :=
  let '(bestMatch, highestScore) := state in
  matchScore <- matchScoreOf beforeEl afterEl ;;
  if (matchScore >? highestScore)%Z then Normal (Some afterEl, matchScore)
  else Normal (bestMatch, highestScore).

(** [_findMatchingElement] *)
Definition _findMatchingElement (beforeEl : Element) (afterElements : list Element)
  : Completion (option Element) :=
  state <- forEachM (matchStep beforeEl) afterElements (None, 0%Z) ;;
  Normal (fst state).

(** [className.split(' ').filter(c => c)] *)
Definition classTokens (className : string) : list string :=
  filter JS.truthy (JS.splitSpace className).

Definition byLengthDescending (a b : string) : Z :=
  (Z.of_nat (String.length b) - Z.of_nat (String.length a))%Z.

(** [_getBestAttributeSelector]; [None] is the [null] result.  The
    fallback reads [attrs[attrType]] only for one of the own keys. *)
Definition attributeFallback (element : Element) (attrType : string) : option string :=
  let attrs := _getAttributes element in
  match JS.get attrs attrType with
  | Some v => Some ("[" ++ attrType ++ "=" ++ quoted v ++ "]")%string
  | None => None
  end.

Definition dataSelector (element : Element) (attrType : string) : option string :=
  if attrType =? "data-" then
    match filter (fun attr => JS.startsWith (fst attr) "data-") (attributes element) with
    | attr :: _ => Some ("[" ++ fst attr ++ "=" ++ quoted (snd attr) ++ "]")%string
    | [] => attributeFallback element attrType
    end
  else attributeFallback element attrType.

Definition classSelector (element : Element) (attrType : string) : option string :=
  if (attrType =? "class") && JS.truthy (reflected element "class") then
    match JS.sort byLengthDescending (classTokens (reflected element "class")) with
    | longest :: _ => Some ("." ++ longest)%string
    | [] => dataSelector element attrType
    end
  else dataSelector element attrType.

Definition _getBestAttributeSelector (element : Element) (attrType : string)
  : option string :=
  if (attrType =? "id") && JS.truthy (reflected element "id")
  then Some ("#" ++ reflected element "id")%string
  else classSelector element attrType.

(** [_generateAdditionalSelectors]; [parentElement.children] is the element
    itself between its element siblings. *)
Definition _generateAdditionalSelectors (element : Element) : string :=
  let additionalSelectors := [JS.toLowerCase (tagName element)] in
  let additionalSelectors :=
    if JS.truthy (reflected element "class") then
      match classTokens (reflected element "class") with
      | first :: _ => additionalSelectors ++ [("." ++ first)%string]
      | [] => additionalSelectors
      end
    else additionalSelectors in
  let others := elementSiblingsBefore element ++ elementSiblingsAfter element in
  let additionalSelectors :=
    if hasParentElement element && (1 <? S (List.length others))%nat then
      let sameTagSiblings :=
        S (List.length (filter (fun n => nodeTag n =? tagName element) others)) in
      if (1 <? sameTagSiblings)%nat then
        let position := S (List.length (elementSiblingsBefore element)) in
        additionalSelectors ++ [(":nth-child(" ++ JS.numberToString position ++ ")")%string]
      else additionalSelectors
    else additionalSelectors in
  JS.join additionalSelectors.

(* ------------------------------------------------------------------------- *)
(** ** The browser variant of [OutlookDOMDiff] *)

Module Browser.

Section Analyzer.

(** The platform: parsed documents and their selector engine.
    [querySelectorAll] throws on a selector it cannot parse. *)
Context {Document : Type}.
Variable querySelectorAll : Document -> string -> Completion (list Element).

Definition querySelector (dom : Document) (selector : string)
  : Completion (option Element) :=
  elements <- querySelectorAll dom selector ;; Normal (hd_error elements).

(** *** Attribute stability *)

Definition attributesToCheck : list string :=
  ["id"; "class"; "data-testid"; "role"; "aria-label"; "name"].

(** [beforeValues.size > 0 ? (commonValues.length / beforeValues.size) * 100 : 0];
    the two counts are the lengths of arrays, exact as binary64 numbers. *)
Definition stabilityPercent (common before : nat) : Q :=
  if (0 <? before)%nat
  then Binary64.mul (Binary64.div (inject_Z (Z.of_nat common)) (inject_Z (Z.of_nat before))) 100
  else 0.

Definition valuesOf (attrType : string) (elements : list Element) : list (option string) :=
  JS.newSet JS.strictEq (map (fun el => getAttribute el attrType) elements).

(** The body of the loop of [findStableAttributes], after its two queries. *)
Definition attributeStability (attrType : string) (beforeElements afterElements : list Element)
  : AttributeStability.t :=
  let beforeValues := valuesOf attrType beforeElements in
  let afterValues := valuesOf attrType afterElements in
  let commonValues := filter (fun value => JS.has JS.strictEq afterValues value) beforeValues in
  let stabilityScore := stabilityPercent (List.length commonValues) (List.length beforeValues) in
  {| AttributeStability.totalBefore := List.length beforeValues;
     AttributeStability.totalAfter := List.length afterValues;
     AttributeStability.commonCount := List.length commonValues;
     AttributeStability.stabilityScore := JS.toFixed2 stabilityScore;
     AttributeStability.stableValues := commonValues |}.

Definition presenceSelector (attrType : string) : string := ("[" ++ attrType ++ "]")%string.

Definition stableAttributeStep (beforeDOM afterDOM : Document)
  (stableAttributes : list (string * AttributeStability.t)) (attrType : string)
  : Completion (list (string * AttributeStability.t)) :=
  beforeElements <- querySelectorAll beforeDOM (presenceSelector attrType) ;;
  afterElements <- querySelectorAll afterDOM (presenceSelector attrType) ;;
  Normal (stableAttributes ++ [(attrType, attributeStability attrType beforeElements afterElements)]).

(** [findStableAttributes]; the keys of the result are the six distinct
    names, in the order of the loop. *)
Definition findStableAttributes (beforeDOM afterDOM : Document)
  : Completion (list (string * AttributeStability.t)) :=
  forEachM (stableAttributeStep beforeDOM afterDOM) attributesToCheck [].

(** *** Landmark changes *)

Definition criticalElements : list (string * list string) :=
  [ ("MESSAGE_LIST",
      [".ms-List"; "[role=" ++ quoted "list" ++ "]"; "[data-list-type]"]);
    ("COMPOSE_BUTTON",
      ["[aria-label*=" ++ quoted "New mail" ++ "]";
       "[aria-label*=" ++ quoted "Compose" ++ "]"]);
    ("FOLDER_TREE",
      ["[role=" ++ quoted "tree" ++ "]"; ".folderPaneTree";
       "[aria-label*=" ++ quoted "folder pane" ++ "]"]);
    ("READING_PANE",
      ["[aria-label*=" ++ quoted "Reading Pane" ++ "]"; ".readingPane";
       "[data-app-section=" ++ quoted "ReadingPane" ++ "]"]);
    ("RIBBON",
      [".ms-CommandBar"; "[role=" ++ quoted "toolbar" ++ "]"; ".commandBarWrapper"])
  ]%string.

Definition notFound : MatchOutcome.t :=
  {| MatchOutcome.found := false; MatchOutcome.selector := None; MatchOutcome.element := None |}.

(** [_findElementMatchingSelectors]: the [catch] block is empty, so a
    selector that throws is passed over like one that matches nothing. *)
Fixpoint _findElementMatchingSelectors (dom : Document) (selectors : list string)
  : MatchOutcome.t :=
  match selectors with
  | [] => notFound
  | selector :: rest =>
      match querySelector dom selector with
      | Normal (Some element) =>
          {| MatchOutcome.found := true;
             MatchOutcome.selector := Some selector;
             MatchOutcome.element := Some (_getElementMetadata element) |}
      | Normal None => _findElementMatchingSelectors dom rest
      | Throw _ => _findElementMatchingSelectors dom rest
      end
  end.

Definition hasChanged (beforeResults afterResults : MatchOutcome.t) : bool :=
  negb (JS.strictEq (MatchOutcome.selector beforeResults) (MatchOutcome.selector afterResults))
  || negb (Bool.eqb (negb (MatchOutcome.found beforeResults))
                    (negb (MatchOutcome.found afterResults))).

Definition statusOf (beforeResults afterResults : MatchOutcome.t) : Status :=
  if negb (MatchOutcome.found beforeResults) then added
  else if negb (MatchOutcome.found afterResults) then removed
  else changed.

Definition changeStep (beforeDOM afterDOM : Document) (changedSelectors : list Change.t)
  (element : string * list string) : list Change.t :=
  let beforeResults := _findElementMatchingSelectors beforeDOM (snd element) in
  let afterResults := _findElementMatchingSelectors afterDOM (snd element) in
  if hasChanged beforeResults afterResults then
    changedSelectors ++
      [ {| Change.elementName := fst element;
           Change.before := beforeResults;
           Change.after := afterResults;
           Change.status := statusOf beforeResults afterResults |} ]
  else changedSelectors.

(** [identifyChangedSelectors] *)
Definition identifyChangedSelectors (beforeDOM afterDOM : Document) : list Change.t :=
  fold_left (changeStep beforeDOM afterDOM) criticalElements [].

(** *** Anchor recommendations *)

Definition roleSelector (role : string) : string := ("[role=" ++ quoted role ++ "]")%string.

Definition roleStep (role : string) (keyTerms : list string) (afterElements : list Element)
  (candidates : list Candidate.t) (beforeEl : Element) : Completion (list Candidate.t) :=
  let matchScore := _calculateTermMatchScore beforeEl keyTerms in
  if (matchScore >? 0)%Z then
    matchingAfterEl <- _findMatchingElement beforeEl afterElements ;;
    match matchingAfterEl with
    | Some matchingAfterEl =>
        Normal
          (candidates ++
             [ {| Candidate.selector :=
                    (roleSelector role ++ _generateAdditionalSelectors matchingAfterEl)%string;
                  Candidate.stabilityScore := (85 + matchScore * 5)%Z;
                  Candidate.type := "role-based" |} ])
    | None => Normal candidates
    end
  else Normal candidates.

(** [_addCandidatesWithRole]: neither its two queries nor its loop are
    guarded. *)
Definition _addCandidatesWithRole (beforeDOM afterDOM : Document) (role : string)
  (keyTerms : list string) (candidates : list Candidate.t) : Completion (list Candidate.t) :=
  beforeElements <- querySelectorAll beforeDOM (roleSelector role) ;;
  afterElements <- querySelectorAll afterDOM (roleSelector role) ;;
  forEachM (roleStep role keyTerms afterElements) beforeElements candidates.

Definition attributeCandidateStep (attrType : string) (keyTerms : list string) (baseScore : Z)
  (afterElements : list Element) (candidates : list Candidate.t) (beforeEl : Element)
  : Completion (list Candidate.t) :=
  let matchScore := _calculateTermMatchScore beforeEl keyTerms in
  if (matchScore >? 0)%Z then
    matchingAfterEl <- _findMatchingElement beforeEl afterElements ;;
    match matchingAfterEl with
    | Some matchingAfterEl =>
        match _getBestAttributeSelector matchingAfterEl attrType with
        | Some attrSelector =>
            Normal
              (candidates ++
                 [ {| Candidate.selector := attrSelector;
                      Candidate.stabilityScore := (baseScore + matchScore * 3)%Z;
                      Candidate.type := (attrType ++ "-based")%string |} ])
        | None => Normal candidates
        end
    | None => Normal candidates
    end
  else Normal candidates.

(** The two pools of [_addCandidatesWithAttribute]. *)
Definition attributePools (beforeDOM afterDOM : Document) (attrType : string)
  : Completion (list Element * list Element) :=
  if attrType =? "data-" then
    beforeAll <- querySelectorAll beforeDOM "*" ;;
    afterAll <- querySelectorAll afterDOM "*" ;;
    Normal (filter _hasDataAttribute beforeAll, filter _hasDataAttribute afterAll)
  else
    beforeElements <- querySelectorAll beforeDOM (presenceSelector attrType) ;;
    afterElements <- querySelectorAll afterDOM (presenceSelector attrType) ;;
    Normal (beforeElements, afterElements).

(** [_addCandidatesWithAttribute]: the whole body is in a [try] whose
    [catch] is empty.  A query that throws does so before any [push]; a
    throw of the matcher ends the loop and leaves in [candidates] what was
    pushed before it. *)
Definition _addCandidatesWithAttribute (beforeDOM afterDOM : Document) (attrType : string)
  (keyTerms : list string) (candidates : list Candidate.t) (baseScore : Z)
  : list Candidate.t :=
  match attributePools beforeDOM afterDOM attrType with
  | Normal (beforeElements, afterElements) =>
      forEachTry (attributeCandidateStep attrType keyTerms baseScore afterElements)
                 beforeElements candidates
  | Throw _ => candidates
  end.

(** [_findStableElementsMatchingFeature] *)
Definition _findStableElementsMatchingFeature (beforeDOM afterDOM : Document)
  (role : string) (keyTerms : list string) : Completion (list Candidate.t) :=
  let candidates := [] in
  candidates <-
    (if JS.truthy role
     then _addCandidatesWithRole beforeDOM afterDOM role keyTerms candidates
     else Normal candidates) ;;
  let candidates := _addCandidatesWithAttribute beforeDOM afterDOM "id" keyTerms candidates 90 in
  let candidates := _addCandidatesWithAttribute beforeDOM afterDOM "data-" keyTerms candidates 85 in
  let candidates := _addCandidatesWithAttribute beforeDOM afterDOM "class" keyTerms candidates 75 in
  Normal candidates.

Record Feature := mkFeature {
  name : string;
  role : string;
  keyTerms : list string
}.

Definition criticalFeatures : list Feature :=
  [ mkFeature "MessageList" "list" ["message"; "inbox"; "mail"];
    mkFeature "ComposeButton" "button" ["compose"; "new"; "create"; "mail"];
    mkFeature "FolderPane" "tree" ["folder"; "navigation"; "tree"];
    mkFeature "ReadingPane" "region" ["reading"; "content"; "message"];
    mkFeature "CommandBar" "toolbar" ["command"; "action"; "toolbar"] ].

Definition byScoreDescending (a b : Candidate.t) : Z :=
  (Candidate.stabilityScore b - Candidate.stabilityScore a)%Z.

(** The record built from the candidates of one feature. *)
Definition recommend (candidates : list Candidate.t) : Recommendation.t :=
  match JS.sort byScoreDescending candidates with
  | (best :: _) as sorted =>
      {| Recommendation.primarySelector := Some (Candidate.selector best);
         Recommendation.alternativeSelectors :=
           map Candidate.selector (JS.slice 1 4 sorted);
         Recommendation.stabilityScore := Candidate.stabilityScore best;
         Recommendation.selectorType := Some (Candidate.type best);
         Recommendation.isReliable := (Candidate.stabilityScore best >? 85)%Z |}
  | [] =>
      {| Recommendation.primarySelector := None;
         Recommendation.alternativeSelectors := [];
         Recommendation.stabilityScore := 0;
         Recommendation.selectorType := None;
         Recommendation.isReliable := false |}
  end.

Definition recommendationStep (beforeDOM afterDOM : Document)
  (recommendations : list (string * Recommendation.t)) (feature : Feature)
  : Completion (list (string * Recommendation.t)) :=
  candidates <-
    _findStableElementsMatchingFeature beforeDOM afterDOM (role feature) (keyTerms feature) ;;
  Normal (recommendations ++ [(name feature, recommend candidates)]).

(** [generateAnchorRecommendations] *)
Definition generateAnchorRecommendations (beforeDOM afterDOM : Document)
  : Completion (list (string * Recommendation.t)) :=
  forEachM (recommendationStep beforeDOM afterDOM) criticalFeatures [].

(** [analyzeChanges], from the two parsed documents on; the fields of the
    result are evaluated in the order they are written. *)
Definition analyzeChanges (beforeDOM afterDOM : Document) : Completion Report.t :=
  stableAttributes <- findStableAttributes beforeDOM afterDOM ;;
  let changedSelectors := identifyChangedSelectors beforeDOM afterDOM in
  recommendedAnchors <- generateAnchorRecommendations beforeDOM afterDOM ;;
  Normal {| Report.stableAttributes := stableAttributes;
            Report.changedSelectors := changedSelectors;
            Report.recommendedAnchors := recommendedAnchors |}.

End Analyzer.

End Browser.

(* ------------------------------------------------------------------------- *)
(** ** The command-line variant ([analyzers/dom-diff.js]) *)

Module Cli.

Inductive Trend := increased | decreased.

Module CountChange.
Record t := mk {
    selector : string;
    beforeCount : nat;
    afterCount : nat;
    change : Trend
  }.
End CountChange.

Section Analyzer.

Context {Document : Type}.
Variable querySelectorAll : Document -> string -> Completion (list Element).

(** [findStableAttributes] is the same text in both variants. *)
Definition findStableAttributes (beforeDOM afterDOM : Document)
  : Completion (list (string * AttributeStability.t)) :=
  Browser.findStableAttributes querySelectorAll beforeDOM afterDOM.

Definition selectorsToCheck : list string :=
  [ ".ms-FocusZone"; ".ms-List-cell"; ".ms-DetailsList"; ".owa-border-list-item";
    "[role=" ++ quoted "listitem" ++ "]"; "[role=" ++ quoted "option" ++ "]" ]%string.

Definition countStep (beforeDOM afterDOM : Document) (changedSelectors : list CountChange.t)
  (selector : string) : list CountChange.t :=
  match querySelectorAll beforeDOM selector, querySelectorAll afterDOM selector with
  | Normal beforeElements, Normal afterElements =>
      let beforeCount := List.length beforeElements in
      let afterCount := List.length afterElements in
      if negb (beforeCount =? afterCount)%nat then
        changedSelectors ++
          [ {| CountChange.selector := selector;
               CountChange.beforeCount := beforeCount;
               CountChange.afterCount := afterCount;
               CountChange.change :=
                 if (beforeCount <? afterCount)%nat then increased else decreased |} ]
      else changedSelectors
  | _, _ => changedSelectors
  end.

(** [identifyChangedSelectors] *)
Definition identifyChangedSelectors (beforeDOM afterDOM : Document) : list CountChange.t :=
  fold_left (countStep beforeDOM afterDOM) selectorsToCheck [].

Record Feature := mkFeature {
  name : string;
  selector : string;
  alternativeSelector : string
}.

Definition features : list Feature :=
  [ mkFeature "MessageList" ("[role=" ++ quoted "list" ++ "]") ".ms-List";
    mkFeature "ComposeButton" ("[aria-label*=" ++ quoted "New message" ++ "]")
              ("[aria-label*=" ++ quoted "Compose" ++ "]");
    mkFeature "FolderTree" ("[role=" ++ quoted "tree" ++ "]") ".folderPaneTree";
    mkFeature "ReadingPane" ("[aria-label*=" ++ quoted "Reading Pane" ++ "]") ".readingPane"
  ]%string.

(** [beforeDOM.querySelector(s) && afterDOM.querySelector(s)] inside its
    [try], read as a condition. *)
Definition existsInBoth (beforeDOM afterDOM : Document) (selector : string) : bool :=
  match Browser.querySelector querySelectorAll beforeDOM selector with
  | Normal (Some _) =>
      match Browser.querySelector querySelectorAll afterDOM selector with
      | Normal (Some _) => true
      | _ => false
      end
  | _ => false
  end.

Definition recommendFeature (beforeDOM afterDOM : Document) (feature : Feature)
  : Recommendation.t :=
  let primaryExists := existsInBoth beforeDOM afterDOM (selector feature) in
  let alternativeExists := existsInBoth beforeDOM afterDOM (alternativeSelector feature) in
  let stabilityScore := (if primaryExists then 90 else if alternativeExists then 70 else 0)%Z in
  {| Recommendation.primarySelector :=
       if primaryExists then Some (selector feature)
       else if alternativeExists then Some (alternativeSelector feature)
       else None;
     Recommendation.alternativeSelectors := [alternativeSelector feature];
     Recommendation.stabilityScore := stabilityScore;
     Recommendation.isReliable := (stabilityScore >? 60)%Z;
     Recommendation.selectorType :=
       Some (if primaryExists then "primary"
             else if alternativeExists then "alternative" else "none") |}.

(** [generateAnchorRecommendations] *)
Definition generateAnchorRecommendations (beforeDOM afterDOM : Document)
  : list (string * Recommendation.t) :=
  fold_left (fun recommendations feature =>
               recommendations ++ [(name feature, recommendFeature beforeDOM afterDOM feature)])
            features [].

End Analyzer.

End Cli.

(* ------------------------------------------------------------------------- *)
(** ** A concrete platform

    Documents are forests of nodes.  The engine understands the simple
    selectors the catalogs and the strategies are written in: [*], [.class],
    [#id], [[name]], [[name="value"]] and [[name*="value"]].  Every other
    string is reported as a syntax error; among them are the strings that no
    engine accepts, such as an attribute selector whose value contains a
    double quote.  It is the engine of a document in no-quirks mode (one
    that starts with a doctype): class names and ids are compared as they
    are written, where a document in quirks mode ignores the case of ASCII
    letters.  The properties of the analyzer are proved for every engine;
    this one evaluates them on samples. *)

Module Css.

Inductive Selector :=
  | Universal
  | ByClass (token : string)
  | ById (id : string)
  | HasAttribute (name : string)
  | AttributeEquals (name value : string)
  | AttributeContains (name value : string).

Definition isNameChar (c : ascii) : bool :=
  let n := nat_of_ascii c in
  ((97 <=? n) && (n <=? 122) || (65 <=? n) && (n <=? 90)
   || (48 <=? n) && (n <=? 57) || (n =? 45) || (n =? 95))%nat.

Fixpoint allNameChars (s : string) : bool :=
  match s with
  | EmptyString => true
  | String c s' => isNameChar c && allNameChars s'
  end.

Definition isIdent (s : string) : bool := JS.truthy s && allNameChars s.

(** The longest prefix of name characters, and what follows it. *)
Fixpoint spanName (s : string) : string * string :=
  match s with
  | EmptyString => (EmptyString, EmptyString)
  | String c s' =>
      if isNameChar c then let '(n, r) := spanName s' in (String c n, r)
      else (EmptyString, s)
  end.

(** The characters up to the next double quote, and what follows it. *)
Fixpoint spanValue (s : string) : option (string * string) :=
  match s with
  | EmptyString => None
  | String c s' =>
      if Ascii.eqb c (ascii_of_nat 34) then Some (EmptyString, s')
      else match spanValue s' with
           | Some (v, r) => Some (String c v, r)
           | None => None
           end
  end.

Definition parseQuotedValue (s : string) : option string :=
  match s with
  | String c s' =>
      if Ascii.eqb c (ascii_of_nat 34) then
        match spanValue s' with
        | Some (v, r) => if r =? "]" then Some v else None
        | None => None
        end
      else None
  | EmptyString => None
  end.

Definition parseAttribute (s : string) : option Selector :=
  let '(n, r) := spanName s in
  if negb (JS.truthy n) then None
  else if r =? "]" then Some (HasAttribute n)
  else match r with
       | String "=" r' => option_map (AttributeEquals n) (parseQuotedValue r')
       | String "*" (String "=" r') => option_map (AttributeContains n) (parseQuotedValue r')
       | _ => None
       end.

Definition parse (s : string) : option Selector :=
  match s with
  | String "*" EmptyString => Some Universal
  | String "." r => if isIdent r then Some (ByClass r) else None
  | String "#" r => if isIdent r then Some (ById r) else None
  | String "[" r => parseAttribute r
  | _ => None
  end.

Definition isSpace (c : ascii) : bool :=
  let n := nat_of_ascii c in
  ((n =? 32) || (n =? 9) || (n =? 10) || (n =? 12) || (n =? 13))%nat.

(** The whitespace-separated tokens of a [class] attribute. *)
Fixpoint tokensFrom (current : string) (s : string) : list string :=
  match s with
  | EmptyString => if JS.truthy current then [current] else []
  | String c s' =>
      if isSpace c
      then (if JS.truthy current then [current] else []) ++ tokensFrom EmptyString s'
      else tokensFrom (current ++ String c EmptyString)%string s'
  end.

Definition matches (sel : Selector) (el : Element) : bool :=
  match sel with
  | Universal => true
  | ByClass token => existsb (String.eqb token) (tokensFrom "" (reflected el "class"))
  | ById id => JS.strictEq (getAttribute el "id") (Some id)
  | HasAttribute name => match getAttribute el name with Some _ => true | None => false end
  | AttributeEquals name value => JS.strictEq (getAttribute el name) (Some value)
  | AttributeContains name value =>
      match getAttribute el name with
      | Some v => JS.truthy value && JS.includes v value
      | None => false
      end
  end.

Definition Document := list Node.

Definition elements (dom : Document) : list Element := elementsOfForest false [] dom.

Definition querySelectorAll (dom : Document) (selector : string)
  : Completion (list Element) :=
  match parse selector with
  | Some sel => Normal (filter (matches sel) (elements dom))
  | None => Throw (SyntaxError selector)
  end.

End Css.

(* ------------------------------------------------------------------------- *)
(** ** The scores as the specification words them

    These two definitions are written from the specification, to be
    compared with [matchScoreOf] and [_calculateTermMatchScore]. *)

Module Claimed.

(** "+2 for every attribute name present on the before-element whose value
    is byte-identical on the candidate; +1 for every attribute name
    present on both where the candidate's value contains the before-value
    as a substring". *)
Definition attributeScore (beforeAttrs afterAttrs : JS.Obj) (attrName : string) : Z :=
  match JS.get beforeAttrs attrName, JS.get afterAttrs attrName with
  | Some b, Some a => if a =? b then 2 else if JS.includes a b then 1 else 0
  | _, _ => 0
  end.

Definition sumZ (l : list Z) : Z := fold_right Z.add 0%Z l.

Definition matchScore (beforeEl afterEl : Element) : Z :=
  (sumZ (map (attributeScore (_getAttributes beforeEl) (_getAttributes afterEl))
             (JS.keys (_getAttributes beforeEl)))
   + (if String.eqb (tagName beforeEl) (tagName afterEl) then 1 else 0)
   + (if Nat.eqb (_getRelativePosition beforeEl) (_getRelativePosition afterEl) then 2 else 0))%Z.

(** "+1 per key term found as a case-insensitive substring of the element's
    text content, +2 per key term found as a substring of any attribute
    value, capped at 5". *)
Definition termInText (element : Element) (term : string) : bool :=
  JS.includes (JS.toLowerCase (textContent element)) (JS.toLowerCase term).

Definition termInSomeAttribute (element : Element) (term : string) : bool :=
  existsb (fun attrValue => JS.includes (JS.toLowerCase attrValue) (JS.toLowerCase term))
          (JS.values (_getAttributes element)).

Definition termMatchScore (element : Element) (keyTerms : list string) : Z :=
  Z.min 5 (Z.of_nat (List.length (filter (termInText element) keyTerms))
           + 2 * Z.of_nat (List.length (filter (termInSomeAttribute element) keyTerms)))%Z.

End Claimed.

(* ------------------------------------------------------------------------- *)
(** ** Counting functions used to state the scores in closed form *)

(** The candidate carries the attribute with the very same value. *)
Definition sameValue (beforeAttrs afterAttrs : JS.Obj) (attrName : string) : bool :=
  JS.strictEq (JS.get afterAttrs attrName) (JS.get beforeAttrs attrName).

(** Both values are non-empty, they differ, and the candidate's contains the
    before-element's. *)
Definition extendedValue (beforeAttrs afterAttrs : JS.Obj) (attrName : string) : bool :=
  negb (sameValue beforeAttrs afterAttrs attrName) &&
  match JS.get afterAttrs attrName, JS.get beforeAttrs attrName with
  | Some a, Some b => JS.truthy a && JS.truthy b && JS.includes a b
  | _, _ => false
  end.

Definition count {A} (p : A -> bool) (l : list A) : Z := Z.of_nat (List.length (filter p l)).

(** The candidate lacks an attribute that the before-element has with a
    non-empty value under the name of a member of [Object.prototype]: the
    read of that name from the candidate's attributes finds the member. *)
Definition collides (beforeAttrs afterAttrs : JS.Obj) (attrName : string) : bool :=
  JS.inherits attrName
  && match JS.get afterAttrs attrName with Some _ => false | None => true end
  && match JS.get beforeAttrs attrName with Some b => JS.truthy b | None => false end.

Definition clash (beforeEl afterEl : Element) : bool :=
  existsb (collides (_getAttributes beforeEl) (_getAttributes afterEl))
          (JS.keys (_getAttributes beforeEl)).

(** The score of a candidate that does not clash, in closed form. *)
Definition matchPoints (beforeEl afterEl : Element) : Z :=
  (2 * count (sameValue (_getAttributes beforeEl) (_getAttributes afterEl))
             (JS.keys (_getAttributes beforeEl))
   + count (extendedValue (_getAttributes beforeEl) (_getAttributes afterEl))
           (JS.keys (_getAttributes beforeEl))
   + (if String.eqb (tagName beforeEl) (tagName afterEl) then 1 else 0)
   + (if Nat.eqb (countElementNodes (previousSiblings beforeEl))
                 (countElementNodes (previousSiblings afterEl)) then 2 else 0))%Z.

(** The number of (attribute value, key term) pairs in which the lowered
    value contains the lowered term. *)
Definition attributeTermPairs (element : Element) (keyTerms : list string) : Z :=
  Claimed.sumZ
    (map (fun attrValue =>
            count (fun term => JS.includes (JS.toLowerCase attrValue) (JS.toLowerCase term))
                  keyTerms)
         (JS.values (_getAttributes element))).

(** A candidate as the spec describes it: produced from a term-match score
    between 1 and 5 by [base + score * weight]. *)
Definition scoredAs (base weight : Z) (c : Candidate.t) : Prop :=
  exists termMatch, (1 <= termMatch <= 5)%Z /\
                    Candidate.stabilityScore c = (base + termMatch * weight)%Z.

Definition isDigit (c : ascii) : bool :=
  let n := nat_of_ascii c in ((48 <=? n) && (n <=? 57))%nat.

Fixpoint allDigits (s : string) : bool :=
  match s with
  | EmptyString => true
  | String c s' => isDigit c && allDigits s'
  end.

(** A decimal numeral with exactly two digits after the point. *)
Definition twoFractionDigits (s : string) : Prop :=
  exists whole d1 d2,
    s = (whole ++ "." ++ String d1 (String d2 ""))%string /\
    whole <> "" /\ allDigits whole = true /\ isDigit d1 = true /\ isDigit d2 = true.

(* ------------------------------------------------------------------------- *)
(** ** Sample documents *)

Module Samples.

Definition element (tag : string) (attrs : list (string * string)) : Element :=
  mkElement tag attrs [] [] [] false.

(** [<div id="list" role="list">Inbox</div>] and the same element with a
    [data-testid] added. *)
Definition listBefore : Css.Document :=
  [ElementNode "DIV" [("id", "list"); ("role", "list")] [TextNode "Inbox"]].

Definition listAfter : Css.Document :=
  [ElementNode "DIV" [("id", "list"); ("role", "list"); ("data-testid", "list")]
               [TextNode "Inbox"]].

(** [<div role="toolbar"></div>] and the empty document. *)
Definition toolbar : Css.Document := [ElementNode "DIV" [("role", "toolbar")] []].
Definition empty : Css.Document := [].


(** [<div role="list" aria-label="Inbox mail messages"></div>] *)
Definition labelledList : Css.Document :=
  [ElementNode "DIV" [("role", "list"); ("aria-label", "Inbox mail messages")] []].

(** [<input hidden="">] and, second among its siblings,
    [<span hidden="until-found">]. *)
Definition hiddenBefore : Element := element "INPUT" [("hidden", "")].

(** [<div id="mail" class="mail"></div>] *)
Definition mailTwice : Element := element "DIV" [("id", "mail"); ("class", "mail")].

(** What the analyses return on these documents. *)
Definition listStability : list (string * AttributeStability.t) :=
  Eval vm_compute in
    match Browser.findStableAttributes Css.querySelectorAll listBefore listAfter with
    | Normal result => result
    | Throw _ => []
    end.

Definition listSelfReport : Report.t :=
  Eval vm_compute in
    match Browser.analyzeChanges Css.querySelectorAll listBefore listBefore with
    | Normal report => report
    | Throw _ => Report.mk [] [] []
    end.


Definition labelledListReport : Report.t :=
  Eval vm_compute in
    match Browser.analyzeChanges Css.querySelectorAll labelledList labelledList with
    | Normal report => report
    | Throw _ => Report.mk [] [] []
    end.

End Samples.

(* ------------------------------------------------------------------------- *)
(** ** Notions used to state the landmark and recommendation properties *)

Definition noLowerThan (a b : Candidate.t) : Prop :=
  (Candidate.stabilityScore b <= Candidate.stabilityScore a)%Z.

(** A selector matches in a document when the query returns an element; a
    query that throws matches nothing. *)
Definition matchesIn {Document : Type}
  (querySelectorAll : Document -> string -> Completion (list Element))
  (dom : Document) (selector : string) : bool :=
  match Browser.querySelector querySelectorAll dom selector with
  | Normal (Some _) => true
  | _ => false
  end.

(** A landmark is found when one of its selectors matches, and the selector
    used is the first that does. *)
Definition landmarkFound {Document : Type}
  (querySelectorAll : Document -> string -> Completion (list Element))
  (dom : Document) (selectors : list string) : bool :=
  existsb (matchesIn querySelectorAll dom) selectors.

Definition selectorUsed {Document : Type}
  (querySelectorAll : Document -> string -> Completion (list Element))
  (dom : Document) (selectors : list string) : option string :=
  find (matchesIn querySelectorAll dom) selectors.

(** The kind of change the specification assigns to a landmark. *)
Definition kindHolds {Document : Type}
  (querySelectorAll : Document -> string -> Completion (list Element))
  (beforeDOM afterDOM : Document) (selectors : list string) (kind : Status) : Prop :=
  match kind with
  | added =>
      landmarkFound querySelectorAll beforeDOM selectors = false /\
      landmarkFound querySelectorAll afterDOM selectors = true
  | removed =>
      landmarkFound querySelectorAll beforeDOM selectors = true /\
      landmarkFound querySelectorAll afterDOM selectors = false
  | changed =>
      landmarkFound querySelectorAll beforeDOM selectors = true /\
      landmarkFound querySelectorAll afterDOM selectors = true /\
      selectorUsed querySelectorAll beforeDOM selectors
        <> selectorUsed querySelectorAll afterDOM selectors
  end.

(** A record of the given status is emitted for the landmark. *)
Definition emitted (records : list Change.t) (name : string) (kind : Status) : Prop :=
  exists record, In record records /\
                 Change.elementName record = name /\ Change.status record = kind.

(* ------------------------------------------------------------------------- *)
(** ** The structural path of an element ([_getElementPath])

    The loop climbs from the element through [parentNode] until it leaves
    the elements, so the element comes with the chain of its ancestors, the
    parent first; the empty chain stands for the [null] argument. *)

Module PathModel.

(** The inner loop: [siblingIndex] counts the previous element siblings of
    the same lower-cased node name. *)
Fixpoint siblingIndex_loop (selector : string) (siblings : list Node) (siblingIndex : nat)
  : nat :=
  match siblings with
  | [] => siblingIndex
  | ElementNode t _ _ :: rest =>
      siblingIndex_loop selector rest
        (if JS.toLowerCase t =? selector then S siblingIndex else siblingIndex)
  | TextNode _ :: rest => siblingIndex_loop selector rest siblingIndex
  end.

(** The [selector] of one turn of the outer loop. *)
Definition pathSelector (element : Element) : string :=
  let selector := JS.toLowerCase (tagName element) in
  if JS.truthy (reflected element "id") then
    (selector ++ "#" ++ reflected element "id")%string
  else
    let siblingIndex := siblingIndex_loop selector (previousSiblings element) 1 in
    if existsb isElementNode (previousSiblings element)
       || existsb isElementNode (nextSiblings element)
    then (selector ++ ":nth-of-type(" ++ JS.numberToString siblingIndex ++ ")")%string
    else selector.

Fixpoint _getElementPath_loop (chain : list Element) (path : string) : string :=
  match chain with
  | [] => path
  | element :: ancestors =>
      _getElementPath_loop ancestors
        (pathSelector element ++ (if JS.truthy path then " > " ++ path else ""))%string
  end.

Definition _getElementPath (chain : list Element) : string := _getElementPath_loop chain "".

(** [segments.join(' > ')] *)
Fixpoint joinWith (separator : string) (segments : list string) : string :=
  match segments with
  | [] => ""
  | [segment] => segment
  | segment :: rest => (segment ++ separator ++ joinWith separator rest)%string
  end.

(** The chains of the elements of a subtree, in document order. *)
Fixpoint chainsOfNode (ancestors : list Element) (prev : list Node) (n : Node)
  (next : list Node) {struct n} : list (list Element) :=
  match n with
  | TextNode _ => []
  | ElementNode t a kids =>
      let self :=
        mkElement t a kids prev next (match ancestors with [] => false | _ :: _ => true end) in
      (self :: ancestors) ::
      (fix siblings (before rest : list Node) {struct rest} : list (list Element) :=
         match rest with
         | [] => []
         | k :: rest' =>
             chainsOfNode (self :: ancestors) before k rest' ++ siblings (k :: before) rest'
         end) [] kids
  end.

Fixpoint chainsOfForest (before rest : list Node) : list (list Element) :=
  match rest with
  | [] => []
  | k :: rest' => chainsOfNode [] before k rest' ++ chainsOfForest (k :: before) rest'
  end.

(** [<html><body><div id="app"><p>a</p><span>b</span><p>c</p></div></body></html>] *)
Definition page : list Node :=
  [ElementNode "HTML" []
     [ElementNode "BODY" []
        [ElementNode "DIV" [("id", "app")]
           [ElementNode "P" [] [TextNode "a"];
            ElementNode "SPAN" [] [TextNode "b"];
            ElementNode "P" [] [TextNode "c"]]]]].

(** The chain of the second [p] of the page. *)
Definition secondParagraph : list Element :=
  Eval vm_compute in nth 5 (chainsOfForest [] page) [].

End PathModel.

(* ------------------------------------------------------------------------- *)
(** ** The score classes of the reports ([getScoreClass])

    [parseFloat] reads the longest prefix of the trimmed string that is a
    decimal literal: an optional sign, then [Infinity] or digits with an
    optional fraction and an optional exponent.  Its value is the binary64
    number nearest to the literal. *)

Module Display.

Inductive Number :=
| NaN
| Finite (value : Q)
| Infinite (negative : bool).

Definition isWhiteSpace (c : ascii) : bool :=
  let n := nat_of_ascii c in
  ((n =? 9) || (n =? 10) || (n =? 11) || (n =? 12) || (n =? 13) || (n =? 32) || (n =? 160))%nat.

Fixpoint trimStart (s : string) : string :=
  match s with
  | EmptyString => EmptyString
  | String c s' => if isWhiteSpace c then trimStart s' else s
  end.

(** The longest prefix of digits, and what follows it. *)
Fixpoint spanDigits (s : string) : string * string :=
  match s with
  | EmptyString => (EmptyString, EmptyString)
  | String c s' =>
      if isDigit c then let '(digits, rest) := spanDigits s' in (String c digits, rest)
      else (EmptyString, s)
  end.

Fixpoint digitsValue_acc (digits : string) (acc : nat) : nat :=
  match digits with
  | EmptyString => acc
  | String c digits' => digitsValue_acc digits' (10 * acc + (nat_of_ascii c - 48))
  end.

Definition digitsValue (digits : string) : nat := digitsValue_acc digits 0.

(** The exponent part, which counts only with at least one digit. *)
Definition exponentOf (s : string) : Z :=
  match s with
  | String c r =>
      if Ascii.eqb c "e" || Ascii.eqb c "E" then
        let '(sign, r') :=
          match r with
          | String "+" r'' => (1%Z, r'')
          | String "-" r'' => ((-1)%Z, r'')
          | _ => (1%Z, r)
          end in
        let '(digits, _) := spanDigits r' in
        if digits =? "" then 0%Z else (sign * Z.of_nat (digitsValue digits))%Z
      else 0%Z
  | EmptyString => 0%Z
  end.

Definition mantissa (whole fraction : string) : Q :=
  inject_Z (Z.of_nat (digitsValue whole))
  + inject_Z (Z.of_nat (digitsValue fraction)) / 10 ^ Z.of_nat (String.length fraction).

(** The Number value of a decimal literal: the binary64 number nearest to
    it, and [Infinity] when that rounding reaches 2^1024. *)
Definition number (value : Q) : Number :=
  let rounded := Binary64.round value in
  if Qle_bool (2 ^ 1024) rounded then Infinite false else Finite rounded.

Definition parseUnsigned (s : string) : Number :=
  if prefix "Infinity" s then Infinite false
  else
    let '(whole, r1) := spanDigits s in
    match r1 with
    | String "." r2 =>
        let '(fraction, r3) := spanDigits r2 in
        if (whole =? "") && (fraction =? "") then NaN
        else number (mantissa whole fraction * 10 ^ exponentOf r3)
    | _ =>
        if whole =? "" then NaN
        else number (mantissa whole "" * 10 ^ exponentOf r1)
    end.

Definition negate (x : Number) : Number :=
  match x with
  | NaN => NaN
  | Finite value => Finite (- value)
  | Infinite negative => Infinite (negb negative)
  end.

(** [parseFloat(s)] *)
Definition parseFloat (s : string) : Number :=
  match trimStart s with
  | String "+" r => parseUnsigned r
  | String "-" r => negate (parseUnsigned r)
  | trimmed => parseUnsigned trimmed
  end.

(** [x >= bound]; every comparison with [NaN] is false. *)
Definition atLeast (x : Number) (bound : Q) : bool :=
  match x with
  | NaN => false
  | Finite value => Qle_bool bound value
  | Infinite negative => negb negative
  end.

(** [getScoreClass], on the string it is given or on the string its numeric
    argument is converted to. *)
Definition getScoreClass (score : string) : string :=
  let score := parseFloat score in
  if atLeast score 80 then "score-high"
  else if atLeast score 50 then "score-medium"
  else "score-low".

End Display.

(* ------------------------------------------------------------------------- *)
(** ** The command line of [analyze-snapshots.js] ([parseArgs])

    [args] is [process.argv.slice(2)].  A path that was set from a missing
    argument is [undefined], on which [path.resolve] throws a [TypeError];
    [--help] ends the process with status 0. *)

Module Args.

Inductive Outcome (A : Type) :=
| Returned (a : A)
| Exited (status : Z)
| ThrownTypeError.
Arguments Returned {A} a.
Arguments Exited {A} status.
Arguments ThrownTypeError {A}.

Record Paths := mkPaths {
  beforePath : option string;
  afterPath : option string;
  outputJsonPath : option string;
  outputHtmlPath : option string
}.

Module Resolved.
Record t := mk {
  beforePath : string;
  afterPath : string;
  outputJsonPath : string;
  outputHtmlPath : string
}.
End Resolved.

Definition setBefore (paths : Paths) (v : option string) : Paths :=
  mkPaths v (afterPath paths) (outputJsonPath paths) (outputHtmlPath paths).
Definition setAfter (paths : Paths) (v : option string) : Paths :=
  mkPaths (beforePath paths) v (outputJsonPath paths) (outputHtmlPath paths).
Definition setOutputJson (paths : Paths) (v : option string) : Paths :=
  mkPaths (beforePath paths) (afterPath paths) v (outputHtmlPath paths).
Definition setOutputHtml (paths : Paths) (v : option string) : Paths :=
  mkPaths (beforePath paths) (afterPath paths) (outputJsonPath paths) v.

(** The four flags that take a value. *)
Inductive Flag := Before | After | OutputJson | OutputHtml.

Definition flagName (flag : Flag) : string :=
  match flag with
  | Before => "--before"
  | After => "--after"
  | OutputJson => "--output-json"
  | OutputHtml => "--output-html"
  end.

Definition setFlag (flag : Flag) (paths : Paths) (v : option string) : Paths :=
  match flag with
  | Before => setBefore paths v
  | After => setAfter paths v
  | OutputJson => setOutputJson paths v
  | OutputHtml => setOutputHtml paths v
  end.

Definition flagOf (arg : string) : option Flag :=
  if arg =? "--before" then Some Before
  else if arg =? "--after" then Some After
  else if arg =? "--output-json" then Some OutputJson
  else if arg =? "--output-html" then Some OutputHtml
  else None.

Section ParseArgs.

(** [path.resolve] on string arguments, and [__dirname]. *)
Variable resolve : list string -> string.
Variable __dirname : string.

Definition defaults : Paths :=
  {| beforePath := Some (resolve [__dirname; "html/inboxA.html"]);
     afterPath := Some (resolve [__dirname; "html/inboxB.html"]);
     outputJsonPath := Some (resolve [__dirname; "output/analysis-results.json"]);
     outputHtmlPath := Some (resolve [__dirname; "output/analysis-report.html"]) |}.

(** The [for] loop with its [switch]; [i] is the index of the first of
    [args].  The four flag cases differ only in the variable they assign. *)
Fixpoint parseLoop (i : nat) (args : list string) (paths : Paths) : Outcome Paths :=
  match args with
  | [] => Returned paths
  | arg :: rest =>
      match flagOf arg with
      | Some flag =>
          match rest with
          | value :: rest' => parseLoop (i + 2) rest' (setFlag flag paths (Some value))
          | [] => Returned (setFlag flag paths None)
          end
      | None =>
          if arg =? "--help" then Exited 0
          else
            parseLoop (S i) rest
              (if (i =? 0)%nat && negb (JS.startsWith arg "--") then setBefore paths (Some arg)
               else if (i =? 1)%nat && negb (JS.startsWith arg "--")
                    then setAfter paths (Some arg)
                    else paths)
      end
  end.

(** [parseArgs] *)
Definition parseArgs (args : list string) : Outcome Resolved.t :=
  match parseLoop 0 args defaults with
  | Returned paths =>
      match beforePath paths, afterPath paths, outputJsonPath paths, outputHtmlPath paths with
      | Some b, Some a, Some j, Some h =>
          Returned {| Resolved.beforePath := resolve [b];
                      Resolved.afterPath := resolve [a];
                      Resolved.outputJsonPath := resolve [j];
                      Resolved.outputHtmlPath := resolve [h] |}
      | _, _, _, _ => ThrownTypeError
      end
  | Exited status => Exited status
  | ThrownTypeError => ThrownTypeError
  end.

End ParseArgs.

(** The variable a flag assigns. *)
Definition field (flag : Flag) (paths : Paths) : option string :=
  match flag with
  | Before => beforePath paths
  | After => afterPath paths
  | OutputJson => outputJsonPath paths
  | OutputHtml => outputHtmlPath paths
  end.

(** The assignments made by a run of flags with their values. *)
Definition assign (pairs : list (Flag * string)) (paths : Paths) : Paths :=
  fold_left (fun paths entry => setFlag (fst entry) paths (Some (snd entry))) pairs paths.

(** A command line made of flags with their values. *)
Definition flatten (pairs : list (Flag * string)) : list string :=
  flat_map (fun entry => [flagName (fst entry); snd entry]) pairs.

Definition sameFlag (a b : Flag) : bool :=
  match a, b with
  | Before, Before | After, After | OutputJson, OutputJson | OutputHtml, OutputHtml => true
  | _, _ => false
  end.

(** The value of the last pair with the given flag, or the fallback. *)
Definition lastValue (flag : Flag) (pairs : list (Flag * string)) (fallback : string) : string :=
  match find (fun entry => sameFlag (fst entry) flag) (rev pairs) with
  | Some entry => snd entry
  | None => fallback
  end.

(** Up to two leading arguments that do not start with two hyphens. *)
Definition positionalOk (positional : list string) : Prop :=
  (List.length positional <= 2)%nat /\
  Forall (fun arg => JS.startsWith arg "--" = false) positional.

End Args.

(* ------------------------------------------------------------------------- *)
(** ** Further sample data *)

Module Examples.

(** [<div class="ms-List inbox-list wide" data-testid="list" data-app="mail">] *)
Definition tagged : Element :=
  Samples.element "DIV"
    [("class", "ms-List inbox-list wide"); ("data-testid", "list"); ("data-app", "mail")].

Definition pool : list Element := [Samples.hiddenBefore; Samples.mailTwice].

Definition candidates : list Candidate.t :=
  [ Candidate.mk ".inbox" 78 "class-based";
    Candidate.mk "#inbox" 96 "id-based";
    Candidate.mk "[role=list]div" 96 "role-based" ].

Definition listTerms : list string := ["message"; "inbox"; "mail"].

(** The candidates of the message list on the labelled list sample. *)
Definition roleCandidates : list Candidate.t :=
  Eval vm_compute in
    match Browser._addCandidatesWithRole Css.querySelectorAll Samples.labelledList
            Samples.labelledList "list" listTerms [] with
    | Normal result => result
    | Throw _ => []
    end.

Definition listCandidates : list Candidate.t :=
  Eval vm_compute in
    match Browser._findStableElementsMatchingFeature Css.querySelectorAll Samples.listBefore
            Samples.listBefore "list" listTerms with
    | Normal result => result
    | Throw _ => []
    end.


Definition listStabilityBackward : list (string * AttributeStability.t) :=
  Eval vm_compute in
    match Browser.findStableAttributes Css.querySelectorAll Samples.listAfter
            Samples.listBefore with
    | Normal result => result
    | Throw _ => []
    end.

Definition cliRecommendations : list (string * Recommendation.t) :=
  Eval vm_compute in
    Cli.generateAnchorRecommendations Css.querySelectorAll Samples.labelledList
      Samples.labelledList.

(** A stand-in for [path.resolve]: the segments joined by slashes. *)
Definition resolve (segments : list string) : string := String.concat "/" segments.

(** Three elements with the ids a, b and c, and the same with d for c. *)
Definition idsBefore : Css.Document :=
  [ElementNode "DIV" [("id", "a")] []; ElementNode "DIV" [("id", "b")] [];
   ElementNode "DIV" [("id", "c")] []].

Definition idsAfter : Css.Document :=
  [ElementNode "DIV" [("id", "a")] []; ElementNode "DIV" [("id", "b")] [];
   ElementNode "DIV" [("id", "d")] []].

Definition idsStability : list (string * AttributeStability.t) :=
  Eval vm_compute in
    match Browser.findStableAttributes Css.querySelectorAll idsBefore idsAfter with
    | Normal result => result
    | Throw _ => []
    end.

(** [<div role="list" constructor="x">Inbox</div><div role="list">Inbox</div>] *)
Definition shadowed : Css.Document :=
  [ElementNode "DIV" [("role", "list"); ("constructor", "x")] [TextNode "Inbox"];
   ElementNode "DIV" [("role", "list")] [TextNode "Inbox"]].

Definition commandLine : list (Args.Flag * string) :=
  [(Args.OutputJson, "out.json"); (Args.Before, "new.html"); (Args.OutputJson, "--help")]%string.


(** [<div id="x" 2="b" __proto__="p" 1="a">], as the HTML parser reads
    it. *)
Definition numbered : Element :=
  Samples.element "DIV" [("id", "x"); ("2", "b"); ("__proto__", "p"); ("1", "a")].


End Examples.

(* ========================================================================= *)
(** * Properties *)

(* ------------------------------------------------------------------------- *)
(** ** Strings, objects and sets *)

Lemma strictEq_true_iff (a b : option string) : JS.strictEq a b = true <-> a = b.
Proof.
  destruct a as [x|], b as [y|]; simpl; split; intros H; try congruence.
  - apply String.eqb_eq in H. now subst.
  - injection H as ->. apply String.eqb_refl.
Qed.

Lemma strictEq_refl (a : option string) : JS.strictEq a a = true.
Proof. now apply strictEq_true_iff. Qed.

Lemma strictEq_sym (a b : option string) : JS.strictEq a b = JS.strictEq b a.
Proof.
  destruct (JS.strictEq a b) eqn:E.
  - apply strictEq_true_iff in E. subst. now rewrite strictEq_refl.
  - destruct (JS.strictEq b a) eqn:E'; auto.
    apply strictEq_true_iff in E'. subst. now rewrite strictEq_refl in E.
Qed.

Lemma prefix_refl (s : string) : prefix s s = true.
Proof.
  induction s as [|c s IH]; simpl; [reflexivity|].
  destruct (ascii_dec c c); [assumption | congruence].
Qed.

Lemma prefix_spec (t s : string) :
  prefix t s = true <-> exists post, s = (t ++ post)%string.
Proof.
  revert s. induction t as [|a t IH]; intros s.
  - destruct s; cbn; split; eauto.
  - destruct s as [|b s]; cbn.
    + split; [discriminate | intros (post & H); discriminate].
    + destruct (ascii_dec a b) as [->|N].
      * rewrite IH. split; intros (post & H); exists post; congruence.
      * split; [discriminate | intros (post & H); congruence].
Qed.

(** [s.includes(t)] holds when [t] occurs somewhere in [s]. *)
Lemma includes_spec (s t : string) :
  JS.includes s t = true <-> exists pre post, s = (pre ++ t ++ post)%string.
Proof.
  induction s as [|c s IH].
  - cbn [JS.includes]. rewrite orb_false_r, prefix_spec. split.
    + intros (post & H). now exists ""%string, post.
    + intros ([|? ?] & post & H); [now exists post | discriminate].
  - cbn [JS.includes]. rewrite orb_true_iff, prefix_spec, IH. split.
    + intros [(post & H)|(pre & post & H)].
      * now exists ""%string, post.
      * exists (String c pre), post. cbn. congruence.
    + intros ([|c' pre] & post & H).
      * left. now exists post.
      * right. exists pre, post. cbn in H. congruence.
Qed.

Lemma includes_refl (s : string) : JS.includes s s = true.
Proof.
  destruct s as [|c s]; [reflexivity|].
  change (prefix (String c s) (String c s) || JS.includes s (String c s) = true).
  now rewrite prefix_refl.
Qed.

Lemma hasOwn_true_iff (o : JS.Obj) (k : string) : JS.hasOwn o k = true <-> In k (JS.keys o).
Proof.
  unfold JS.hasOwn, JS.keys. rewrite existsb_exists, in_map_iff. split.
  - intros ([k' v] & I & E). apply String.eqb_eq in E. exists (k', v). auto.
  - intros ([k' v] & E & I). exists (k', v). split; [exact I | now apply String.eqb_eq].
Qed.

Lemma in_keys_get (o : JS.Obj) (k : string) : In k (JS.keys o) <-> JS.get o k <> None.
Proof.
  unfold JS.keys. induction o as [|[k0 v0] o IH]; simpl.
  - intuition congruence.
  - destruct (k0 =? k) eqn:E.
    + apply String.eqb_eq in E. intuition congruence.
    + apply String.eqb_neq in E. rewrite <- IH. intuition congruence.
Qed.

Lemma get_none (o : JS.Obj) (k : string) : ~ In k (JS.keys o) -> JS.get o k = None.
Proof.
  intros H. destruct (JS.get o k) eqn:G; [|reflexivity].
  exfalso. apply H, in_keys_get. congruence.
Qed.

Lemma keys_update (o : JS.Obj) (k v : string) : JS.keys (JS.update o k v) = JS.keys o.
Proof.
  unfold JS.keys. induction o as [|[k0 v0] o IH]; simpl; [reflexivity|].
  destruct (k0 =? k); simpl; congruence.
Qed.

Lemma get_update (o : JS.Obj) (k v k' : string) :
  In k (JS.keys o) ->
  JS.get (JS.update o k v) k' = if k =? k' then Some v else JS.get o k'.
Proof.
  unfold JS.keys. induction o as [|[k0 v0] o IH]; simpl; [intros []|].
  intros H. destruct (k0 =? k) eqn:E; simpl.
  - apply String.eqb_eq in E. subst k0. now destruct (k =? k').
  - apply String.eqb_neq in E. destruct H as [H|H]; [contradiction|].
    rewrite (IH H). destruct (k0 =? k') eqn:E'; [|reflexivity].
    apply String.eqb_eq in E'. subst k0.
    destruct (k =? k') eqn:E''; [|reflexivity].
    apply String.eqb_eq in E''. congruence.
Qed.

Lemma in_keys_create (o : JS.Obj) (k v n : string) :
  In n (JS.keys (JS.create o k v)) <-> n = k \/ In n (JS.keys o).
Proof.
  unfold JS.keys. induction o as [|[k0 v0] o IH]; simpl.
  - intuition.
  - destruct (JS.keyPrecedes k k0); simpl; [intuition|]. rewrite IH. intuition.
Qed.

Lemma NoDup_keys_create (o : JS.Obj) (k v : string) :
  ~ In k (JS.keys o) -> NoDup (JS.keys o) -> NoDup (JS.keys (JS.create o k v)).
Proof.
  unfold JS.keys. induction o as [|[k0 v0] o IH]; simpl; intros N D.
  - constructor; [intros []|constructor].
  - destruct (JS.keyPrecedes k k0); simpl.
    + constructor; [exact N | exact D].
    + inversion D as [|? ? D1 D2]; subst. constructor.
      * intros H. apply (in_keys_create o k v k0) in H. intuition.
      * apply IH; intuition.
Qed.

Lemma get_create (o : JS.Obj) (k v k' : string) :
  ~ In k (JS.keys o) ->
  JS.get (JS.create o k v) k' = if k =? k' then Some v else JS.get o k'.
Proof.
  unfold JS.keys. induction o as [|[k0 v0] o IH]; simpl; intros N.
  - reflexivity.
  - destruct (JS.keyPrecedes k k0); simpl; [reflexivity|].
    rewrite IH by intuition.
    destruct (k0 =? k') eqn:E'; [|reflexivity].
    apply String.eqb_eq in E'. subst k0.
    destruct (k =? k') eqn:E''; [|reflexivity].
    apply String.eqb_eq in E''. subst k. intuition.
Qed.

(** Writing a property: every name but [__proto__] reads back the value
    written, and the other names are not touched. *)
Lemma get_set (o : JS.Obj) (k v k' : string) :
  ~ In "__proto__"%string (JS.keys o) ->
  JS.get (JS.set o k v) k' =
  if (k =? k') && negb (k =? "__proto__") then Some v else JS.get o k'.
Proof.
  intros P. unfold JS.set. destruct (JS.hasOwn o k) eqn:H.
  - apply hasOwn_true_iff in H. rewrite get_update by exact H.
    destruct (k =? "__proto__") eqn:E; [|now rewrite andb_true_r].
    apply String.eqb_eq in E. subst k. contradiction.
  - destruct (k =? "__proto__") eqn:E; [now rewrite andb_false_r|].
    rewrite andb_true_r. apply get_create. rewrite <- hasOwn_true_iff. congruence.
Qed.

Lemma in_keys_set (o : JS.Obj) (k v n : string) :
  In n (JS.keys (JS.set o k v)) <-> In n (JS.keys o) \/ (n = k /\ k <> "__proto__"%string).
Proof.
  unfold JS.set. destruct (JS.hasOwn o k) eqn:H.
  - apply hasOwn_true_iff in H. rewrite keys_update. intuition (subst; auto).
  - destruct (String.eqb_spec k "__proto__") as [->|N].
    + intuition.
    + rewrite in_keys_create. intuition.
Qed.

Lemma NoDup_keys_set (o : JS.Obj) (k v : string) :
  NoDup (JS.keys o) -> NoDup (JS.keys (JS.set o k v)).
Proof.
  intros D. unfold JS.set. destruct (JS.hasOwn o k) eqn:H.
  - now rewrite keys_update.
  - destruct (k =? "__proto__"); [exact D|].
    apply NoDup_keys_create; [|exact D]. rewrite <- hasOwn_true_iff. congruence.
Qed.

(** The object built by [_getAttributes] has one key for every attribute
    name of the element but [__proto__], and no key twice. *)
Lemma keys_getAttributes (el : Element) :
  NoDup (JS.keys (_getAttributes el)) /\
  forall n, In n (JS.keys (_getAttributes el)) <->
            In n (map fst (attributes el)) /\ n <> "__proto__"%string.
Proof.
  unfold _getAttributes.
  assert (G : forall attrs o, NoDup (JS.keys o) ->
            NoDup (JS.keys (fold_left (fun a attr => JS.set a (fst attr) (snd attr)) attrs o)) /\
            forall n, In n (JS.keys (fold_left (fun a attr => JS.set a (fst attr) (snd attr)) attrs o))
                      <-> In n (JS.keys o) \/ (In n (map fst attrs) /\ n <> "__proto__"%string)).
  { induction attrs as [|[k v] attrs IH]; intros o Ho; simpl.
    - split; [assumption | intuition].
    - destruct (IH (JS.set o k v) (NoDup_keys_set o k v Ho)) as [N I].
      split; [assumption|]. intros n. rewrite I, in_keys_set. intuition (subst; auto). }
  destruct (G (attributes el) [] (NoDup_nil _)) as [N I].
  split; [assumption|]. intros n. rewrite I. simpl. intuition.
Qed.

Lemma lookupAttr_none (attrs : list (string * string)) (name : string) :
  lookupAttr attrs name = None <-> ~ In name (map fst attrs).
Proof.
  induction attrs as [|[k v] attrs IH]; simpl.
  - intuition.
  - destruct (String.eqb_spec k name) as [->|N].
    + intuition discriminate.
    + rewrite IH. intuition.
Qed.

(** On an element whose attribute names are distinct, as the DOM keeps
    them, reading an own property of the object is reading the attribute,
    except for [__proto__], which the object does not hold. *)
Lemma get_getAttributes (el : Element) (n : string) :
  NoDup (map fst (attributes el)) ->
  JS.get (_getAttributes el) n = if n =? "__proto__" then None else getAttribute el n.
Proof.
  unfold _getAttributes, getAttribute.
  assert (G : forall attrs o, NoDup (map fst attrs) ->
            ~ In "__proto__"%string (JS.keys o) ->
            JS.get (fold_left (fun a attr => JS.set a (fst attr) (snd attr)) attrs o) n =
            if n =? "__proto__" then JS.get o n
            else match lookupAttr attrs n with Some v => Some v | None => JS.get o n end).
  { induction attrs as [|[k v] attrs IH]; intros o Hn P; simpl.
    - now destruct (n =? "__proto__").
    - inversion Hn as [|? ? Hk Hn']; subst.
      assert (P' : ~ In "__proto__"%string (JS.keys (JS.set o k v))).
      { rewrite in_keys_set. intuition congruence. }
      rewrite (IH _ Hn' P'), (get_set o k v n P).
      destruct (String.eqb_spec n "__proto__") as [->|N].
      + destruct (String.eqb_spec k "__proto__") as [->|N']; cbn [andb negb];
          rewrite ?andb_false_r; reflexivity.
      + destruct (String.eqb_spec k n) as [->|N']; cbn [andb].
        * destruct (String.eqb_spec n "__proto__"); [contradiction|]. cbn [negb].
          now rewrite (proj2 (lookupAttr_none attrs n) Hk).
        * reflexivity. }
  intros H. rewrite (G _ [] H) by (intros []). simpl.
  destruct (n =? "__proto__"); [reflexivity|]. now destruct (lookupAttr (attributes el) n).
Qed.

(** The keys and the own values of the object, whatever the attribute
    names. *)
Lemma entries_get (o : JS.Obj) (n v : string) :
  NoDup (JS.keys o) -> In (n, v) o -> JS.get o n = Some v.
Proof.
  unfold JS.keys. induction o as [|[k0 v0] o IH]; simpl; intros D H; [destruct H|].
  destruct H as [H|H].
  - injection H as -> ->. now rewrite String.eqb_refl.
  - inversion D as [|? ? D1 D2]; subst.
    destruct (String.eqb_spec k0 n) as [->|N].
    + exfalso. apply D1. apply in_map_iff. exists (n, v). auto.
    + now apply IH.
Qed.

(* ------------------------------------------------------------------------- *)
(** ** The correspondence matcher *)

Lemma count_nil {A} (p : A -> bool) : count p [] = 0%Z.
Proof. reflexivity. Qed.

Lemma count_cons {A} (p : A -> bool) (x : A) (l : list A) :
  count p (x :: l) = ((if p x then 1 else 0) + count p l)%Z.
Proof. unfold count. cbn [filter]. destruct (p x); cbn [List.length]; lia. Qed.

Lemma count_nonneg {A} (p : A -> bool) (l : list A) : (0 <= count p l)%Z.
Proof. unfold count. lia. Qed.

(** One turn of the attribute loop, on an own property of the
    before-attributes: it throws on a collision and scores otherwise. *)
Lemma attributeStep_closed (beforeAttrs afterAttrs : JS.Obj) (m : Z) (n v : string) :
  JS.get beforeAttrs n = Some v ->
  attributeStep afterAttrs m (n, v) =
  if collides beforeAttrs afterAttrs n then Throw TypeError
  else Normal (m + 2 * (if sameValue beforeAttrs afterAttrs n then 1 else 0)
                 + (if extendedValue beforeAttrs afterAttrs n then 1 else 0))%Z.
Proof.
  intros B. unfold attributeStep, collides, extendedValue, sameValue, JS.read. rewrite B.
  destruct (JS.get afterAttrs n) as [a|]; cbn [JS.strictEq].
  - rewrite andb_false_r. cbn [andb].
    destruct (a =? v); cbn [negb andb]; [f_equal; lia|].
    destruct (JS.truthy a && JS.truthy v && JS.includes a v); f_equal; lia.
  - rewrite andb_true_r. destruct (JS.inherits n); cbn [andb negb].
    + destruct (JS.truthy v); [reflexivity | f_equal; lia].
    + f_equal. lia.
Qed.

Lemma forEach_attributeStep (beforeAttrs afterAttrs : JS.Obj) (entries : list (string * string))
  (m : Z) :
  (forall n v, In (n, v) entries -> JS.get beforeAttrs n = Some v) ->
  forEachM (attributeStep afterAttrs) entries m =
  if existsb (collides beforeAttrs afterAttrs) (map fst entries) then Throw TypeError
  else Normal (m + 2 * count (sameValue beforeAttrs afterAttrs) (map fst entries)
                 + count (extendedValue beforeAttrs afterAttrs) (map fst entries))%Z.
Proof.
  revert m. induction entries as [|[n v] entries IH]; intros m H; cbn [forEachM map existsb fst].
  - rewrite !count_nil. f_equal. lia.
  - rewrite (attributeStep_closed beforeAttrs) by (apply H; now left).
    destruct (collides beforeAttrs afterAttrs n); cbn [bind orb]; [reflexivity|].
    rewrite IH by (intros n' v' I; apply H; now right).
    destruct (existsb _ _); [reflexivity|]. rewrite !count_cons. f_equal. lia.
Qed.

(** The loop of [_getRelativePosition] counts the previous element siblings. *)
Lemma _getRelativePosition_count (el : Element) :
  _getRelativePosition el = countElementNodes (previousSiblings el).
Proof.
  unfold _getRelativePosition.
  assert (G : forall l p, _getRelativePosition_loop l p = (p + countElementNodes l)%nat).
  { induction l as [|[d|t a k] l IH]; intros p; simpl; [lia | apply IH | rewrite IH; lia]. }
  now rewrite G.
Qed.

(** The score of one candidate: a [TypeError] when the two elements clash,
    and the closed form otherwise. *)
Lemma matchScoreOf_closed (beforeEl afterEl : Element) :
  matchScoreOf beforeEl afterEl =
  if clash beforeEl afterEl then Throw TypeError else Normal (matchPoints beforeEl afterEl).
Proof.
  unfold matchScoreOf, clash, matchPoints. cbv zeta.
  rewrite (forEach_attributeStep (_getAttributes beforeEl))
    by (intros n v I; apply entries_get; [apply keys_getAttributes | exact I]).
  fold (JS.keys (_getAttributes beforeEl)).
  destruct (existsb _ _); cbn [bind]; [reflexivity|].
  rewrite !_getRelativePosition_count. f_equal.
  destruct (tagName beforeEl =? tagName afterEl);
    destruct (countElementNodes (previousSiblings beforeEl)
              =? countElementNodes (previousSiblings afterEl))%nat; lia.
Qed.

Lemma matchPoints_nonneg (beforeEl afterEl : Element) : (0 <= matchPoints beforeEl afterEl)%Z.
Proof.
  unfold matchPoints.
  pose proof (count_nonneg (sameValue (_getAttributes beforeEl) (_getAttributes afterEl))
                           (JS.keys (_getAttributes beforeEl))).
  pose proof (count_nonneg (extendedValue (_getAttributes beforeEl) (_getAttributes afterEl))
                           (JS.keys (_getAttributes beforeEl))).
  destruct (String.eqb (tagName beforeEl) (tagName afterEl));
    destruct (Nat.eqb (countElementNodes (previousSiblings beforeEl))
                      (countElementNodes (previousSiblings afterEl))); lia.
Qed.

Lemma matchStep_eq (beforeEl : Element) (start : option Element) (high : Z) (a : Element) :
  matchStep beforeEl (start, high) a =
  if clash beforeEl a then Throw TypeError
  else if (matchPoints beforeEl a >? high)%Z then Normal (Some a, matchPoints beforeEl a)
  else Normal (start, high).
Proof.
  unfold matchStep. rewrite matchScoreOf_closed. now destruct (clash beforeEl a).
Qed.

(** The loop of [_findMatchingElement] throws as soon as it meets a
    candidate that clashes with the before-element. *)
Lemma matchLoop_throws (beforeEl : Element) (pool : list Element)
  (start : option Element) (high : Z) :
  existsb (clash beforeEl) pool = true ->
  forEachM (matchStep beforeEl) pool (start, high) = Throw TypeError.
Proof.
  revert start high. induction pool as [|a pool IH]; intros start high; cbn [existsb forEachM].
  - discriminate.
  - rewrite matchStep_eq. destruct (clash beforeEl a); cbn [orb bind]; [reflexivity|].
    intros H. destruct (matchPoints beforeEl a >? high)%Z; cbn [bind]; now apply IH.
Qed.

(** What the loop leaves in its two variables when no candidate clashes:
    either nothing in the pool beat the score it started with, or the pool
    splits around the first element of greatest score. *)
Lemma matchLoop_invariant (beforeEl : Element) (pool : list Element)
  (start : option Element) (high : Z) :
  existsb (clash beforeEl) pool = false ->
  (forEachM (matchStep beforeEl) pool (start, high) = Normal (start, high) /\
   Forall (fun a => (matchPoints beforeEl a <= high)%Z) pool)
  \/ exists earlier best later,
       pool = earlier ++ best :: later /\
       forEachM (matchStep beforeEl) pool (start, high)
         = Normal (Some best, matchPoints beforeEl best) /\
       (high < matchPoints beforeEl best)%Z /\
       Forall (fun a => (matchPoints beforeEl a < matchPoints beforeEl best)%Z) earlier /\
       Forall (fun a => (matchPoints beforeEl a <= matchPoints beforeEl best)%Z) later.
Proof.
  revert start high. induction pool as [|a pool IH]; intros start high; cbn [existsb forEachM].
  - left. split; [reflexivity | constructor].
  - rewrite matchStep_eq. destruct (clash beforeEl a); cbn [orb]; [discriminate|].
    intros C. destruct (matchPoints beforeEl a >? high)%Z eqn:E; cbn [bind].
    + apply Z.gtb_lt in E. right.
      destruct (IH (Some a) (matchPoints beforeEl a) C)
        as [[F A]|(earlier & best & later & P & F & H & B & L)].
      * exists [], a, pool. repeat split; auto.
      * exists (a :: earlier), best, later. subst pool.
        repeat split; auto; try lia; constructor; auto; lia.
    + assert (matchPoints beforeEl a <= high)%Z
        by (rewrite Z.gtb_ltb in E; apply Z.ltb_ge in E; lia).
      destruct (IH start high C) as [[F A]|(earlier & best & later & P & F & H' & B & L)].
      * left. split; auto.
      * right. exists (a :: earlier), best, later. subst pool.
        repeat split; auto; constructor; auto; lia.
Qed.

(** The three outcomes of [_findMatchingElement]. *)
Lemma findMatchingElement_throws (beforeEl : Element) (pool : list Element) :
  _findMatchingElement beforeEl pool = Throw TypeError <->
  existsb (clash beforeEl) pool = true.
Proof.
  unfold _findMatchingElement. destruct (existsb (clash beforeEl) pool) eqn:C.
  - rewrite (matchLoop_throws _ _ _ _ C). intuition.
  - destruct (matchLoop_invariant beforeEl pool None 0 C)
      as [[F _]|(? & ? & ? & _ & F & _)]; rewrite F; cbn [bind]; intuition discriminate.
Qed.

Lemma findMatchingElement_none (beforeEl : Element) (pool : list Element) :
  _findMatchingElement beforeEl pool = Normal None <->
  existsb (clash beforeEl) pool = false /\
  Forall (fun a => matchPoints beforeEl a = 0%Z) pool.
Proof.
  unfold _findMatchingElement. destruct (existsb (clash beforeEl) pool) eqn:C.
  - rewrite (matchLoop_throws _ _ _ _ C). cbn [bind]. intuition discriminate.
  - destruct (matchLoop_invariant beforeEl pool None 0 C)
      as [[F A]|(earlier & best & later & P & F & H & B & L)]; rewrite F; cbn [bind fst].
    + split; [intros _|reflexivity]. split; [reflexivity|].
      eapply Forall_impl; [|exact A]. cbv beta. intros a Ha.
      pose proof (matchPoints_nonneg beforeEl a). lia.
    + split; [discriminate|]. intros [_ Z0]. exfalso.
      subst pool. apply Forall_app in Z0 as [_ Z0]. inversion Z0; subst. lia.
Qed.

Lemma findMatchingElement_some (beforeEl best : Element) (pool : list Element) :
  _findMatchingElement beforeEl pool = Normal (Some best) ->
  existsb (clash beforeEl) pool = false /\
  exists earlier later,
    pool = earlier ++ best :: later /\
    (0 < matchPoints beforeEl best)%Z /\
    Forall (fun a => (matchPoints beforeEl a < matchPoints beforeEl best)%Z) earlier /\
    Forall (fun a => (matchPoints beforeEl a <= matchPoints beforeEl best)%Z) later.
Proof.
  unfold _findMatchingElement. destruct (existsb (clash beforeEl) pool) eqn:C.
  - rewrite (matchLoop_throws _ _ _ _ C). discriminate.
  - destruct (matchLoop_invariant beforeEl pool None 0 C)
      as [[F A]|(earlier & best' & later & P & F & H & B & L)]; rewrite F; cbn [bind fst].
    + discriminate.
    + intros E. injection E as <-. split; [reflexivity|]. exists earlier, later. auto.
Qed.

(** A throw of the matcher is a [TypeError]. *)
Lemma findMatchingElement_error (beforeEl : Element) (pool : list Element) (e : Exception) :
  _findMatchingElement beforeEl pool = Throw e -> e = TypeError.
Proof.
  unfold _findMatchingElement. destruct (existsb (clash beforeEl) pool) eqn:C.
  - rewrite (matchLoop_throws _ _ _ _ C). cbn [bind]. congruence.
  - destruct (matchLoop_invariant beforeEl pool None 0 C)
      as [[F _]|(? & ? & ? & _ & F & _)]; rewrite F; discriminate.
Qed.



(* ------------------------------------------------------------------------- *)
(** ** The term-match score *)

Lemma fold_textTermStep (elementText : string) (keyTerms : list string) (score : Z) :
  fold_left (textTermStep elementText) keyTerms score =
  (score + count (fun term => JS.includes elementText (JS.toLowerCase term)) keyTerms)%Z.
Proof.
  revert score. induction keyTerms as [|t ts IH]; intros score; cbn [fold_left].
  - rewrite count_nil. lia.
  - rewrite IH, count_cons. unfold textTermStep.
    destruct (JS.includes elementText (JS.toLowerCase t)); lia.
Qed.

Lemma fold_attrTermStep (attrValue : string) (keyTerms : list string) (score : Z) :
  fold_left (attrTermStep attrValue) keyTerms score =
  (score + 2 * count (fun term => JS.includes (JS.toLowerCase attrValue) (JS.toLowerCase term))
                     keyTerms)%Z.
Proof.
  revert score. induction keyTerms as [|t ts IH]; intros score; cbn [fold_left].
  - rewrite count_nil. lia.
  - rewrite IH, count_cons. unfold attrTermStep.
    destruct (JS.includes (JS.toLowerCase attrValue) (JS.toLowerCase t)); lia.
Qed.

Lemma fold_attributeValues (keyTerms values : list string) (score : Z) :
  fold_left (fun score attrValue => fold_left (attrTermStep attrValue) keyTerms score)
            values score =
  (score + 2 * Claimed.sumZ
                 (map (fun attrValue =>
                         count (fun term => JS.includes (JS.toLowerCase attrValue)
                                                        (JS.toLowerCase term)) keyTerms)
                      values))%Z.
Proof.
  revert score. induction values as [|v vs IH]; intros score; cbn [fold_left map].
  - unfold Claimed.sumZ. cbn [fold_right]. lia.
  - rewrite IH, fold_attrTermStep. unfold Claimed.sumZ. cbn [fold_right]. lia.
Qed.

Lemma sumZ_nonneg (l : list Z) : Forall (fun z => (0 <= z)%Z) l -> (0 <= Claimed.sumZ l)%Z.
Proof.
  induction 1 as [|z l Hz Hl IH]; unfold Claimed.sumZ in *; cbn [fold_right]; lia.
Qed.

Lemma attributeTermPairs_nonneg (element : Element) (keyTerms : list string) :
  (0 <= attributeTermPairs element keyTerms)%Z.
Proof.
  unfold attributeTermPairs. apply sumZ_nonneg, Forall_forall.
  intros z Hz. apply in_map_iff in Hz as (v & <- & _). apply count_nonneg.
Qed.

(** C6 (as amended).  The term-match score is the number of key terms that
    the lowered text content contains, plus 2 for every pair of an attribute
    value and a key term in which the lowered value contains the lowered
    term (a term found in two attribute values counts twice), the total
    capped at 5; it is never negative and never above 5. *)
Theorem C6_term_match_score (element : Element) (keyTerms : list string) :
  _calculateTermMatchScore element keyTerms =
    Z.min 5 (count (Claimed.termInText element) keyTerms
             + 2 * attributeTermPairs element keyTerms)%Z
  /\ (0 <= _calculateTermMatchScore element keyTerms <= 5)%Z.
Proof.
  assert (E : _calculateTermMatchScore element keyTerms =
              Z.min 5 (count (Claimed.termInText element) keyTerms
                       + 2 * attributeTermPairs element keyTerms)%Z).
  { unfold _calculateTermMatchScore. cbv zeta.
    rewrite fold_attributeValues, fold_textTermStep. reflexivity. }
  split; [exact E|]. rewrite E.
  pose proof (count_nonneg (Claimed.termInText element) keyTerms).
  pose proof (attributeTermPairs_nonneg element keyTerms). lia.
Qed.

(** C6, the claim as worded: with +2 per key term found in any attribute
    value, the one term of this element, found in both of its attribute
    values, would give 2; the program gives 4. *)
Lemma C6_repeated_term_counterexample :
  Claimed.termMatchScore Samples.mailTwice ["mail"] = 2%Z /\
  _calculateTermMatchScore Samples.mailTwice ["mail"] = 4%Z.
Proof. split; vm_compute; reflexivity. Qed.

(* ------------------------------------------------------------------------- *)
(** ** Candidate scores *)

Lemma termMatch_bounds (element : Element) (keyTerms : list string) :
  (0 <= _calculateTermMatchScore element keyTerms <= 5)%Z.
Proof.
  unfold _calculateTermMatchScore. cbv zeta.
  rewrite fold_attributeValues, fold_textTermStep.
  pose proof (count_nonneg
                (fun term => JS.includes (JS.toLowerCase (textContent element))
                                         (JS.toLowerCase term)) keyTerms).
  pose proof (attributeTermPairs_nonneg element keyTerms).
  unfold attributeTermPairs in *. lia.
Qed.

Lemma roleStep_candidates (role : string) (keyTerms : list string)
  (afterElements beforeElements : list Element) (candidates result : list Candidate.t)
  (c : Candidate.t) :
  forEachM (Browser.roleStep role keyTerms afterElements) beforeElements candidates
    = Normal result ->
  In c result ->
  In c candidates \/ (Candidate.type c = "role-based" /\ scoredAs 85 5 c).
Proof.
  revert candidates. induction beforeElements as [|b bs IH]; intros candidates; cbn [forEachM].
  - intros E. injection E as <-. auto.
  - unfold Browser.roleStep at 1.
    pose proof (termMatch_bounds b keyTerms).
    destruct (_calculateTermMatchScore b keyTerms >? 0)%Z eqn:E; cbn [bind]; [|apply IH].
    apply Z.gtb_lt in E.
    destruct (_findMatchingElement b afterElements) as [[m|]|e]; cbn [bind];
      [|apply IH|discriminate].
    intros F Hc. destruct (IH _ F Hc) as [I|I]; [|auto].
    apply in_app_iff in I as [I|[<-|[]]]; [auto|]. right. split; [reflexivity|].
    exists (_calculateTermMatchScore b keyTerms). cbn. split; lia.
Qed.

Lemma attributeStep_candidates (attrType : string) (keyTerms : list string) (baseScore : Z)
  (afterElements beforeElements : list Element) (candidates : list Candidate.t) (c : Candidate.t) :
  In c (forEachTry (Browser.attributeCandidateStep attrType keyTerms baseScore afterElements)
                   beforeElements candidates) ->
  In c candidates \/
  (Candidate.type c = (attrType ++ "-based")%string /\ scoredAs baseScore 3 c).
Proof.
  revert candidates. induction beforeElements as [|b bs IH]; intros candidates; cbn [forEachTry].
  - auto.
  - unfold Browser.attributeCandidateStep at 1.
    pose proof (termMatch_bounds b keyTerms).
    destruct (_calculateTermMatchScore b keyTerms >? 0)%Z eqn:E; cbn [bind]; [|apply IH].
    apply Z.gtb_lt in E.
    destruct (_findMatchingElement b afterElements) as [[m|]|e]; cbn [bind];
      [|apply IH|auto].
    destruct (_getBestAttributeSelector m attrType); [|apply IH].
    intros Hc. destruct (IH _ Hc) as [I|I]; [|auto].
    apply in_app_iff in I as [I|[<-|[]]]; [auto|]. right. split; [reflexivity|].
    exists (_calculateTermMatchScore b keyTerms). cbn. split; lia.
Qed.

(** What a strategy loop was given stays in its array. *)
Lemma forEachTry_keeps (attrType : string) (keyTerms : list string) (baseScore : Z)
  (afterElements beforeElements : list Element) (candidates : list Candidate.t) (c : Candidate.t) :
  In c candidates ->
  In c (forEachTry (Browser.attributeCandidateStep attrType keyTerms baseScore afterElements)
                   beforeElements candidates).
Proof.
  revert candidates. induction beforeElements as [|b bs IH]; intros candidates H; cbn [forEachTry].
  - exact H.
  - unfold Browser.attributeCandidateStep at 1.
    destruct (_calculateTermMatchScore b keyTerms >? 0)%Z; cbn [bind]; [|now apply IH].
    destruct (_findMatchingElement b afterElements) as [[m|]|e]; cbn [bind];
      [|now apply IH|exact H].
    destruct (_getBestAttributeSelector m attrType); [|now apply IH].
    apply IH, in_or_app. now left.
Qed.

Lemma insertSorted_perm {A} (cmp : A -> A -> Z) (x : A) (l : list A) :
  Permutation (JS.insertSorted cmp x l) (x :: l).
Proof.
  induction l as [|y l IH]; cbn [JS.insertSorted].
  - apply Permutation_refl.
  - destruct (cmp x y >? 0)%Z.
    + eapply perm_trans; [apply perm_skip, IH | apply perm_swap].
    + apply Permutation_refl.
Qed.

(** Sorting rearranges and loses nothing. *)
Lemma sort_perm {A} (cmp : A -> A -> Z) (l : list A) : Permutation (JS.sort cmp l) l.
Proof.
  induction l as [|x l IH]; unfold JS.sort in *; cbn [fold_right].
  - apply perm_nil.
  - eapply perm_trans; [apply insertSorted_perm | apply perm_skip, IH].
Qed.

Lemma insertSorted_descending (x : Candidate.t) (l : list Candidate.t) :
  StronglySorted noLowerThan l ->
  StronglySorted noLowerThan (JS.insertSorted Browser.byScoreDescending x l).
Proof.
  induction 1 as [|y l Hs IH Hy]; cbn [JS.insertSorted].
  - constructor; constructor.
  - unfold Browser.byScoreDescending at 1.
    destruct (Candidate.stabilityScore y - Candidate.stabilityScore x >? 0)%Z eqn:E.
    + apply Z.gtb_lt in E. constructor; [assumption|].
      apply Forall_forall. intros z Hz.
      apply (Permutation_in _ (insertSorted_perm _ x l)) in Hz as [<-|Hz].
      * unfold noLowerThan. lia.
      * rewrite Forall_forall in Hy. auto.
    + rewrite Z.gtb_ltb in E. apply Z.ltb_ge in E.
      constructor; [constructor; assumption|].
      constructor; [unfold noLowerThan; lia|].
      eapply Forall_impl; [|exact Hy]. unfold noLowerThan. intros; lia.
Qed.

Lemma sort_descending (l : list Candidate.t) :
  StronglySorted noLowerThan (JS.sort Browser.byScoreDescending l).
Proof.
  induction l as [|x l IH]; unfold JS.sort in *; cbn [fold_right].
  - constructor.
  - now apply insertSorted_descending.
Qed.

(** The first candidate after sorting is one of the candidates and no
    candidate scores higher. *)
Lemma sort_head (l : list Candidate.t) (best : Candidate.t) (rest : list Candidate.t) :
  JS.sort Browser.byScoreDescending l = best :: rest ->
  In best l /\ forall c, In c l -> (Candidate.stabilityScore c <= Candidate.stabilityScore best)%Z.
Proof.
  intros E. pose proof (sort_perm Browser.byScoreDescending l) as P.
  pose proof (sort_descending l) as S. rewrite E in P, S.
  split.
  - apply (Permutation_in _ P). now left.
  - intros c Hc. apply (Permutation_in _ (Permutation_sym P)) in Hc as [<-|Hc]; [lia|].
    inversion S as [|? ? _ F]; subst. rewrite Forall_forall in F. now apply F.
Qed.


Lemma recommend_primary (candidates : list Candidate.t) :
  Recommendation.primarySelector (Browser.recommend candidates) = None <-> candidates = [].
Proof.
  unfold Browser.recommend.
  destruct (JS.sort Browser.byScoreDescending candidates) as [|best rest] eqn:E.
  - cbn. split; [intros _|reflexivity].
    pose proof (sort_perm Browser.byScoreDescending candidates) as P. rewrite E in P.
    now apply Permutation_nil in P.
  - cbn. split; [discriminate|]. intros ->. discriminate.
Qed.

(* ------------------------------------------------------------------------- *)
(** ** Loops that may throw *)

Lemma forEachM_append {A B} (f : list B -> A -> Completion (list B)) (g : A -> Completion B) :
  (forall s x, f s x = (y <- g x ;; Normal (s ++ [y]))) ->
  forall xs s r,
    forEachM f xs s = Normal r <->
    exists ys, r = s ++ ys /\ Forall2 (fun x y => g x = Normal y) xs ys.
Proof.
  intros Hf. induction xs as [|x xs IH]; intros s r; cbn [forEachM].
  - split.
    + intros [= <-]. exists []. now rewrite app_nil_r.
    + intros (ys & -> & F). inversion F. now rewrite app_nil_r.
  - rewrite Hf. destruct (g x) as [y|e] eqn:G; cbn [bind].
    + rewrite IH. split.
      * intros (ys & -> & F). exists (y :: ys). rewrite <- app_assoc. split; auto.
      * intros (ys & -> & F). inversion F as [|? y' ? ys' G' F']; subst.
        rewrite G in G'. injection G' as <-. exists ys'. rewrite <- app_assoc. split; auto.
    + split; [discriminate|]. intros (ys & _ & F).
      inversion F as [|? y' ? ys' G' F']; subst. congruence.
Qed.

(** A loop stops at the first step that throws. *)
Lemma forEachM_throws {A S} (f : S -> A -> Completion S) (xs : list A) (x : A) :
  In x xs -> (forall s, exists e, f s x = Throw e) ->
  forall s, exists e, forEachM f xs s = Throw e.
Proof.
  intros Hin Hx. induction xs as [|x' xs IH]; [destruct Hin|].
  intros s. cbn [forEachM]. destruct Hin as [->|Hin].
  - destruct (Hx s) as [e ->]. now exists e.
  - destruct (f s x') as [s'|e]; cbn [bind]; [now apply IH | now exists e].
Qed.

(* ------------------------------------------------------------------------- *)
(** ** Sets of attribute values *)

Lemma has_In (s : list (option string)) (x : option string) :
  JS.has JS.strictEq s x = true <-> In x s.
Proof.
  unfold JS.has. rewrite existsb_exists. split.
  - intros (y & Hy & E). apply strictEq_true_iff in E. now subst.
  - intros H. exists x. split; [assumption | apply strictEq_refl].
Qed.

Lemma newSet_spec (xs : list (option string)) :
  NoDup (JS.newSet JS.strictEq xs) /\
  forall x, In x (JS.newSet JS.strictEq xs) <-> In x xs.
Proof.
  unfold JS.newSet.
  assert (G : forall xs s, NoDup s ->
            NoDup (fold_left (JS.add JS.strictEq) xs s) /\
            forall x, In x (fold_left (JS.add JS.strictEq) xs s) <-> In x s \/ In x xs).
  { clear xs. induction xs as [|y xs IH]; intros s Hs; cbn [fold_left].
    - split; [assumption|]. intros x. simpl. intuition.
    - assert (Hadd : NoDup (JS.add JS.strictEq s y) /\
                     forall x, In x (JS.add JS.strictEq s y) <-> In x s \/ x = y).
      { unfold JS.add. destruct (JS.has JS.strictEq s y) eqn:E.
        - apply has_In in E. split; [assumption|]. intros x. intuition (subst; auto).
        - assert (~ In y s) by (rewrite <- has_In; congruence).
          split.
          + apply NoDup_app; auto.
            * constructor; [intros []|constructor].
            * intros x Hx [<-|[]]. contradiction.
          + intros x. rewrite in_app_iff. simpl. intuition. }
      destruct Hadd as [N I]. destruct (IH _ N) as [N' I'].
      split; [assumption|]. intros x. rewrite I', I. simpl. intuition. }
  destruct (G xs [] (NoDup_nil _)) as [N I]. split; [assumption|].
  intros x. rewrite I. simpl. intuition.
Qed.

(** The distinct values the queried elements carry. *)
Lemma valuesOf_spec (attrType : string) (elements : list Element) :
  NoDup (Browser.valuesOf attrType elements) /\
  forall v, In v (Browser.valuesOf attrType elements) <->
            exists el, In el elements /\ getAttribute el attrType = v.
Proof.
  unfold Browser.valuesOf.
  destruct (newSet_spec (map (fun el => getAttribute el attrType) elements)) as [N I].
  split; [assumption|]. intros v. rewrite I, in_map_iff.
  split; intros (el & H1 & H2); exists el; auto.
Qed.

Lemma filter_length_le {A} (p : A -> bool) (l : list A) :
  (List.length (filter p l) <= List.length l)%nat.
Proof. induction l as [|x l IH]; simpl; [lia|]. destruct (p x); simpl; lia. Qed.

(** The record of one attribute: its counts are those of the two sets and
    of their intersection. *)
Lemma attributeStability_counts (attrType : string) (beforeElements afterElements : list Element) :
  let r := Browser.attributeStability attrType beforeElements afterElements in
  AttributeStability.totalBefore r = List.length (Browser.valuesOf attrType beforeElements) /\
  AttributeStability.totalAfter r = List.length (Browser.valuesOf attrType afterElements) /\
  AttributeStability.commonCount r = List.length (AttributeStability.stableValues r) /\
  NoDup (AttributeStability.stableValues r) /\
  (forall v, In v (AttributeStability.stableValues r) <->
             In v (Browser.valuesOf attrType beforeElements) /\
             In v (Browser.valuesOf attrType afterElements)) /\
  (AttributeStability.commonCount r <= AttributeStability.totalBefore r)%nat /\
  (AttributeStability.commonCount r <= AttributeStability.totalAfter r)%nat.
Proof.
  cbn. destruct (valuesOf_spec attrType beforeElements) as [Nb _].
  destruct (valuesOf_spec attrType afterElements) as [Na _].
  assert (I : forall v,
            In v (filter (fun value => JS.has JS.strictEq (Browser.valuesOf attrType afterElements) value)
                         (Browser.valuesOf attrType beforeElements)) <->
            In v (Browser.valuesOf attrType beforeElements) /\
            In v (Browser.valuesOf attrType afterElements)).
  { intros v. rewrite filter_In, has_In. reflexivity. }
  do 3 (split; [reflexivity|]).
  split; [now apply NoDup_filter|]. split; [exact I|].
  split; [apply filter_length_le|].
  apply NoDup_incl_length; [now apply NoDup_filter|].
  intros v Hv. now apply I in Hv.
Qed.

(* ------------------------------------------------------------------------- *)
(** ** The stability percentage and its rendering *)

(** *** Rounding to binary64 *)

Lemma nearestEven_bounds (y : Q) :
  (Qfloor y <= Binary64.nearestEven y <= Qfloor y + 1)%Z.
Proof.
  unfold Binary64.nearestEven. cbv zeta.
  destruct (Qcompare _ _); [destruct (Z.even _)| |]; lia.
Qed.

(** Rounding to an integer does not pass an integer. *)
Lemma nearestEven_le (y : Q) (k : Z) : y <= inject_Z k -> (Binary64.nearestEven y <= k)%Z.
Proof.
  intros H.
  assert (F : (Qfloor y <= k)%Z).
  { rewrite <- (Qfloor_Z k). now apply Qfloor_resp_le. }
  destruct (Z.eq_dec (Qfloor y) k) as [E|N].
  - assert (Y : y == inject_Z k).
    { apply Qle_antisym; [exact H|]. rewrite <- E. apply Qfloor_le. }
    unfold Binary64.nearestEven. cbv zeta. rewrite E.
    assert (C : Qcompare (y - inject_Z k) (1 # 2) = Lt).
    { apply (proj1 (Qlt_alt _ _)). lra. }
    rewrite C. lia.
  - pose proof (nearestEven_bounds y). lia.
Qed.

Lemma nearestEven_ge (y : Q) (k : Z) : inject_Z k <= y -> (k <= Binary64.nearestEven y)%Z.
Proof.
  intros H.
  assert (F : (k <= Qfloor y)%Z).
  { rewrite <- (Qfloor_Z k). now apply Qfloor_resp_le. }
  pose proof (nearestEven_bounds y). lia.
Qed.

Lemma nearestEven_error (y : Q) :
  - (1 # 2) <= inject_Z (Binary64.nearestEven y) - y <= 1 # 2.
Proof.
  pose proof (Qfloor_le y) as L. pose proof (Qlt_floor y) as U.
  rewrite inject_Z_plus in U. change (inject_Z 1) with 1 in U.
  unfold Binary64.nearestEven. cbv zeta.
  destruct (Qcompare (y - inject_Z (Qfloor y)) (1 # 2)) eqn:C.
  - apply Qeq_alt in C.
    destruct (Z.even (Qfloor y)); rewrite ?inject_Z_plus; change (inject_Z 1) with 1; lra.
  - apply Qlt_alt in C. lra.
  - apply Qgt_alt in C. rewrite inject_Z_plus. change (inject_Z 1) with 1. lra.
Qed.

Lemma nearestEven_comp (y y' : Q) : y == y' -> Binary64.nearestEven y = Binary64.nearestEven y'.
Proof.
  intros E. unfold Binary64.nearestEven. cbv zeta.
  rewrite (Qfloor_comp _ _ E).
  assert (C : Qcompare (y - inject_Z (Qfloor y')) (1 # 2)
              = Qcompare (y' - inject_Z (Qfloor y')) (1 # 2)).
  { apply Qcompare_comp; [rewrite E|]; reflexivity. }
  now rewrite C.
Qed.

Lemma Qle_bool_comp (a b b' : Q) : b == b' -> Qle_bool a b = Qle_bool a b'.
Proof.
  intros E. destruct (Qle_bool a b) eqn:A; destruct (Qle_bool a b') eqn:B; auto.
  - apply Qle_bool_iff in A. rewrite E in A. apply Qle_bool_iff in A. congruence.
  - apply Qle_bool_iff in B. rewrite <- E in B. apply Qle_bool_iff in B. congruence.
Qed.

Lemma ilog2_comp (q q' : Q) : q == q' -> Binary64.ilog2 q = Binary64.ilog2 q'.
Proof.
  intros E. unfold Binary64.ilog2.
  rewrite (Qle_bool_comp 1 q q' E), (Qfloor_comp _ _ E).
  assert (I : / q == / q') by now rewrite E.
  now rewrite (Qceiling_comp _ _ I).
Qed.

(** Rounding depends on the value of the rational only. *)
Lemma round_comp (q q' : Q) : q == q' -> Binary64.round q == Binary64.round q'.
Proof.
  intros E. unfold Binary64.round, Binary64.ulpExponent. cbv zeta.
  rewrite (ilog2_comp q q' E).
  assert (M : q * 2 ^ (- Z.max (Binary64.ilog2 q' - 52) (-1074))
              == q' * 2 ^ (- Z.max (Binary64.ilog2 q' - 52) (-1074))) by now rewrite E.
  rewrite (nearestEven_comp _ _ M). reflexivity.
Qed.

Lemma ilog2_le (q : Q) (n : Z) : (1 <= n)%Z -> q <= inject_Z n -> (Binary64.ilog2 q <= Z.log2 n)%Z.
Proof.
  intros N H. unfold Binary64.ilog2. destruct (Qle_bool 1 q) eqn:B.
  - apply Z.log2_le_mono. rewrite <- (Qfloor_Z n). now apply Qfloor_resp_le.
  - pose proof (Z.log2_up_nonneg (Qceiling (/ q))). pose proof (Z.log2_nonneg n). lia.
Qed.

Lemma pow2_pos (e : Z) : 0 < 2 ^ e.
Proof. now apply Qpower_0_lt. Qed.

Lemma pow2_cancel (e : Z) : 2 ^ (- e) * 2 ^ e == 1.
Proof.
  rewrite <- Qpower_plus by discriminate. replace (- e + e)%Z with 0%Z by lia. reflexivity.
Qed.

(** An integer multiple of a power of two is an integer multiple of every
    smaller power of two. *)
Lemma dyadic_multiple (m j e : Z) :
  (e <= j)%Z -> inject_Z m * 2 ^ j * 2 ^ (- e) == inject_Z (m * 2 ^ (j - e)).
Proof.
  intros H. rewrite inject_Z_mult, Zpower_Qpower by lia.
  change (inject_Z 2) with 2.
  rewrite <- Qmult_assoc, <- Qpower_plus by discriminate.
  replace (j + - e)%Z with (j - e)%Z by lia. reflexivity.
Qed.

(** Rounding is monotone with respect to the numbers it leaves fixed: it
    does not pass a multiple of the last place. *)
Lemma round_le (q r : Q) (k : Z) :
  q <= r -> r * 2 ^ (- Binary64.ulpExponent q) == inject_Z k -> Binary64.round q <= r.
Proof.
  intros H K. unfold Binary64.round. cbv zeta.
  set (e := Binary64.ulpExponent q) in *.
  assert (L : (Binary64.nearestEven (q * 2 ^ (- e)) <= k)%Z).
  { apply nearestEven_le. rewrite <- K.
    apply Qmult_le_compat_r; [exact H | apply Qlt_le_weak, pow2_pos]. }
  rewrite Zle_Qle in L.
  assert (R : r == inject_Z k * 2 ^ e).
  { rewrite <- K, <- Qmult_assoc, pow2_cancel. ring. }
  rewrite R. apply Qmult_le_compat_r; [exact L | apply Qlt_le_weak, pow2_pos].
Qed.

Lemma round_ge (q r : Q) (k : Z) :
  r <= q -> r * 2 ^ (- Binary64.ulpExponent q) == inject_Z k -> r <= Binary64.round q.
Proof.
  intros H K. unfold Binary64.round. cbv zeta.
  set (e := Binary64.ulpExponent q) in *.
  assert (L : (k <= Binary64.nearestEven (q * 2 ^ (- e)))%Z).
  { apply nearestEven_ge. rewrite <- K.
    apply Qmult_le_compat_r; [exact H | apply Qlt_le_weak, pow2_pos]. }
  rewrite Zle_Qle in L.
  assert (R : r == inject_Z k * 2 ^ e).
  { rewrite <- K, <- Qmult_assoc, pow2_cancel. ring. }
  rewrite R. apply Qmult_le_compat_r; [exact L | apply Qlt_le_weak, pow2_pos].
Qed.

Lemma round_nonneg (q : Q) : 0 <= q -> 0 <= Binary64.round q.
Proof. intros H. apply (round_ge q 0 0 H). ring. Qed.

(** A number at most the integer [m], itself at most [n], rounds to at most
    [m] when the last place of the numbers up to [n] is a unit or less. *)
Lemma round_le_integer (q : Q) (m n : Z) :
  (1 <= n)%Z -> (Z.log2 n <= 52)%Z -> (m <= n)%Z ->
  q <= inject_Z m -> Binary64.round q <= inject_Z m.
Proof.
  intros N J B H.
  assert (E : (Binary64.ulpExponent q <= 0)%Z).
  { unfold Binary64.ulpExponent.
    assert (H' : q <= inject_Z n).
    { apply Qle_trans with (inject_Z m); [exact H | now rewrite <- Zle_Qle]. }
    pose proof (ilog2_le q n N H'). lia. }
  apply (round_le q _ (m * 2 ^ (0 - Binary64.ulpExponent q)) H).
  rewrite <- (dyadic_multiple m 0 _ E). change (2 ^ 0) with 1. ring.
Qed.



Lemma round_zero (q : Q) : q == 0 -> Binary64.round q == 0.
Proof.
  intros E. apply Qle_antisym.
  - apply (round_le_integer q 0 1); try lia; [now cbv | rewrite E; apply Qle_refl].
  - apply round_nonneg. rewrite E. apply Qle_refl.
Qed.

(** The error of one rounding of a number that is at most [n]: half a unit
    of the last place of [n]. *)
Lemma round_error (q : Q) (n : Z) :
  (1 <= n)%Z -> q <= inject_Z n ->
  - 2 ^ (Z.log2 n - 53) <= Binary64.round q - q <= 2 ^ (Z.log2 n - 53).
Proof.
  intros N H. unfold Binary64.round. cbv zeta.
  set (e := Binary64.ulpExponent q).
  assert (E : (e <= Z.log2 n - 52)%Z).
  { unfold e, Binary64.ulpExponent. pose proof (ilog2_le q n N H).
    pose proof (Z.log2_nonneg n). lia. }
  pose proof (nearestEven_error (q * 2 ^ (- e))) as [L U].
  pose proof (pow2_pos e) as P.
  assert (Q0 : q == q * 2 ^ (- e) * 2 ^ e).
  { rewrite <- Qmult_assoc, pow2_cancel. ring. }
  assert (M : 2 ^ e <= 2 * 2 ^ (Z.log2 n - 53)).
  { apply Qle_trans with (2 ^ (Z.log2 n - 52)).
    - apply Qpower_le_compat_l; [exact E | discriminate].
    - replace (Z.log2 n - 52)%Z with (1 + (Z.log2 n - 53))%Z by lia.
      rewrite Qpower_plus by discriminate. apply Qle_refl. }
  set (y := q * 2 ^ (- e)) in *. set (k := inject_Z (Binary64.nearestEven y)) in *.
  set (u := 2 ^ e) in *. set (b := 2 ^ (Z.log2 n - 53)) in *.
  assert (D : k * u - q == (k - y) * u) by (rewrite Q0 at 1; ring).
  rewrite D. split.
  - apply Qle_trans with (- (1 # 2) * u); [lra|].
    apply Qmult_le_compat_r; [exact L | lra].
  - apply Qle_trans with ((1 # 2) * u); [|lra].
    apply Qmult_le_compat_r; [exact U | lra].
Qed.

(** *** The percentage *)

Lemma inject_nat_pos (n : nat) : (0 < n)%nat -> 0 < inject_Z (Z.of_nat n).
Proof. intros H. unfold Qlt. simpl. lia. Qed.

Lemma stabilityPercent_positive (common before : nat) :
  (0 < before)%nat ->
  Browser.stabilityPercent common before =
  Binary64.mul (Binary64.div (inject_Z (Z.of_nat common)) (inject_Z (Z.of_nat before))) 100.
Proof.
  intros H. unfold Browser.stabilityPercent.
  destruct (0 <? before)%nat eqn:E; [reflexivity|].
  apply Nat.ltb_ge in E. lia.
Qed.

Lemma stabilityPercent_zero (common : nat) : Browser.stabilityPercent common 0 = 0.
Proof. reflexivity. Qed.

Lemma quotient_bounds (common before : nat) :
  (0 < before)%nat -> (common <= before)%nat ->
  0 <= inject_Z (Z.of_nat common) / inject_Z (Z.of_nat before) <= 1.
Proof.
  intros P H. pose proof (inject_nat_pos before P) as Pb. split.
  - apply Qle_shift_div_l; [assumption|]. rewrite Qmult_0_l. unfold Qle. simpl. lia.
  - apply Qle_shift_div_r; [assumption|]. rewrite Qmult_1_l. unfold Qle. simpl. lia.
Qed.

Lemma rounded_quotient_bounds (common before : nat) :
  (0 < before)%nat -> (common <= before)%nat ->
  0 <= Binary64.div (inject_Z (Z.of_nat common)) (inject_Z (Z.of_nat before)) <= 1.
Proof.
  intros P H. destruct (quotient_bounds common before P H) as [L U]. unfold Binary64.div. split.
  - now apply round_nonneg.
  - apply (round_le_integer _ 1 1); try lia; [now cbv | exact U].
Qed.

Lemma stabilityPercent_bounds (common before : nat) :
  (common <= before)%nat ->
  0 <= Browser.stabilityPercent common before <= 100.
Proof.
  intros H. unfold Browser.stabilityPercent.
  destruct (0 <? before)%nat eqn:E; [|split; discriminate].
  apply Nat.ltb_lt in E. destruct (rounded_quotient_bounds common before E H) as [L U].
  unfold Binary64.mul. split.
  - apply round_nonneg. apply Qmult_le_0_compat; [exact L | discriminate].
  - apply (round_le_integer _ 100 100); try lia; [now cbv|]. change (inject_Z 100) with 100. lra.
Qed.


Lemma stabilityPercent_none (before : nat) : Browser.stabilityPercent 0 before == 0.
Proof.
  unfold Browser.stabilityPercent. destruct (0 <? before)%nat; [|reflexivity].
  unfold Binary64.mul, Binary64.div. apply round_zero.
  rewrite (round_zero (inject_Z (Z.of_nat 0) / inject_Z (Z.of_nat before))); reflexivity.
Qed.

(** The binary64 percentage is the exact one up to the two roundings. *)
Lemma stabilityPercent_error (common before : nat) :
  (0 < before)%nat -> (common <= before)%nat ->
  - (1 # 35184372088832)
  <= Browser.stabilityPercent common before
     - inject_Z (Z.of_nat common) / inject_Z (Z.of_nat before) * 100
  <= 1 # 35184372088832.
Proof.
  intros P H. rewrite stabilityPercent_positive by assumption.
  destruct (quotient_bounds common before P H) as [L U].
  destruct (rounded_quotient_bounds common before P H) as [L' U'].
  unfold Binary64.mul, Binary64.div in *.
  set (q := inject_Z (Z.of_nat common) / inject_Z (Z.of_nat before)) in *.
  pose proof (round_error q 1 (Z.le_refl 1) U) as [E1 E1'].
  assert (U2 : Binary64.round q * 100 <= inject_Z 100).
  { change (inject_Z 100) with 100. lra. }
  pose proof (round_error (Binary64.round q * 100) 100 ltac:(lia) U2) as [E2 E2'].
  assert (P53 : 2 ^ (Z.log2 1 - 53) == 1 # 9007199254740992) by reflexivity.
  assert (P47 : 2 ^ (Z.log2 100 - 53) == 1 # 140737488355328) by reflexivity.
  rewrite P53 in E1, E1'. rewrite P47 in E2, E2'.
  set (r := Binary64.round q) in *. set (p := Binary64.round (r * 100)) in *.
  split; lra.
Qed.

(** A percentage between 0 and 100 is printed from a number of hundredths
    between 0 and 10000. *)
Lemma hundredths_bounds (x : Q) :
  0 <= x <= 100 -> (0 <= JS.hundredths x <= 10000)%Z.
Proof.
  intros [L U]. unfold JS.hundredths. split.
  - change 0%Z with (Qfloor (1 # 2)). apply Qfloor_resp_le. lra.
  - change 10000%Z with (Qfloor (100 * 100 + (1 # 2))). apply Qfloor_resp_le. lra.
Qed.



Lemma isDigit_digit (d : nat) : (d < 10)%nat -> isDigit (JS.digit d) = true.
Proof.
  intros H. do 10 (destruct d as [|d]; [reflexivity|]). lia.
Qed.

Lemma allDigits_uint (d : Decimal.uint) : allDigits (NilEmpty.string_of_uint d) = true.
Proof. induction d; simpl; auto. Qed.

Lemma numberToString_digits (n : nat) :
  JS.numberToString n <> ""%string /\ allDigits (JS.numberToString n) = true.
Proof.
  unfold JS.numberToString, NilZero.string_of_uint.
  destruct (Nat.to_uint n) eqn:E; try (split; [discriminate | apply allDigits_uint]).
  split; [discriminate | reflexivity].
Qed.

(** Whatever the number, [toFixed(2)] prints a numeral with two digits
    after the point. *)
Lemma toFixed2_format (x : Q) : twoFractionDigits (JS.toFixed2 x).
Proof.
  unfold JS.toFixed2, JS.formatHundredths. set (n := Z.to_nat (JS.hundredths x)).
  exists (JS.numberToString (n / 100)), (JS.digit ((n mod 100) / 10)), (JS.digit (n mod 10)).
  destruct (numberToString_digits (n / 100)) as [N D].
  split; [reflexivity|]. split; [assumption|]. split; [assumption|].
  split; apply isDigit_digit.
  - apply Nat.Div0.div_lt_upper_bound. pose proof (Nat.mod_upper_bound n 100). lia.
  - apply Nat.mod_upper_bound. lia.
Qed.

Lemma Forall2_In_l {A B} (P : A -> B -> Prop) (xs : list A) (ys : list B) (x : A) :
  Forall2 P xs ys -> In x xs -> exists y, In y ys /\ P x y.
Proof.
  induction 1 as [|x' y' xs ys H F IH]; intros Hin; [destruct Hin|].
  destruct Hin as [->|Hin].
  - exists y'. split; [now left | assumption].
  - destruct (IH Hin) as (y & Hy & Hp). exists y. split; [now right | assumption].
Qed.

Lemma Forall2_In_r {A B} (P : A -> B -> Prop) (xs : list A) (ys : list B) (y : B) :
  Forall2 P xs ys -> In y ys -> exists x, In x xs /\ P x y.
Proof.
  induction 1 as [|x' y' xs ys H F IH]; intros Hin; [destruct Hin|].
  destruct Hin as [->|Hin].
  - exists x'. split; [now left | assumption].
  - destruct (IH Hin) as (x & Hx & Hp). exists x. split; [now right | assumption].
Qed.

(* ------------------------------------------------------------------------- *)
(** ** The attribute stability analyzer *)

Section AttributeStabilityProperties.

Context {Document : Type}.
Variable querySelectorAll : Document -> string -> Completion (list Element).

(** The record that [findStableAttributes] stores under one name. *)
Lemma findStableAttributes_spec (beforeDOM afterDOM : Document)
  (result : list (string * AttributeStability.t)) :
  Browser.findStableAttributes querySelectorAll beforeDOM afterDOM = Normal result <->
  Forall2 (fun attrType entry =>
             exists beforeElements afterElements,
               querySelectorAll beforeDOM (Browser.presenceSelector attrType) = Normal beforeElements /\
               querySelectorAll afterDOM (Browser.presenceSelector attrType) = Normal afterElements /\
               entry = (attrType, Browser.attributeStability attrType beforeElements afterElements))
          Browser.attributesToCheck result.
Proof.
  unfold Browser.findStableAttributes.
  rewrite (forEachM_append (Browser.stableAttributeStep querySelectorAll beforeDOM afterDOM)
             (fun attrType =>
                beforeElements <- querySelectorAll beforeDOM (Browser.presenceSelector attrType) ;;
                afterElements <- querySelectorAll afterDOM (Browser.presenceSelector attrType) ;;
                Normal (attrType, Browser.attributeStability attrType beforeElements afterElements))).
  - cbn [app]. split.
    + intros (ys & -> & F). eapply Forall2_impl; [|exact F]. cbn beta.
      intros attrType entry H.
      destruct (querySelectorAll beforeDOM _) as [bs|] eqn:B; [|discriminate].
      destruct (querySelectorAll afterDOM _) as [ys'|] eqn:A; [|discriminate].
      cbn in H. injection H as <-. now exists bs, ys'.
    + intros F. exists result. split; [reflexivity|].
      eapply Forall2_impl; [|exact F]. cbn beta.
      intros attrType entry (bs & ys' & B & A & ->). now rewrite B, A.
  - intros s attrType. unfold Browser.stableAttributeStep.
    destruct (querySelectorAll beforeDOM _); [|reflexivity].
    destruct (querySelectorAll afterDOM _); reflexivity.
Qed.

Lemma stableAttributes_entry (beforeDOM afterDOM : Document)
  (result : list (string * AttributeStability.t)) (attrType : string) (r : AttributeStability.t) :
  Browser.findStableAttributes querySelectorAll beforeDOM afterDOM = Normal result ->
  In (attrType, r) result ->
  In attrType Browser.attributesToCheck /\
  exists beforeElements afterElements,
    querySelectorAll beforeDOM (Browser.presenceSelector attrType) = Normal beforeElements /\
    querySelectorAll afterDOM (Browser.presenceSelector attrType) = Normal afterElements /\
    r = Browser.attributeStability attrType beforeElements afterElements.
Proof.
  intros H Hin. apply findStableAttributes_spec in H.
  destruct (Forall2_In_r _ _ _ _ H Hin) as (a & Ha & bs & ys & B & A & E).
  injection E as -> ->. split; [assumption|]. now exists bs, ys.
Qed.

Lemma stableAttributes_covers (beforeDOM afterDOM : Document)
  (result : list (string * AttributeStability.t)) (attrType : string) :
  Browser.findStableAttributes querySelectorAll beforeDOM afterDOM = Normal result ->
  In attrType Browser.attributesToCheck ->
  exists r, In (attrType, r) result.
Proof.
  intros H Hin. apply findStableAttributes_spec in H.
  destruct (Forall2_In_l _ _ _ _ H Hin) as (y & Hy & bs & ys & B & A & ->). eauto.
Qed.

(** C3.  For each of the six names the analyzer stores one record.  Its two
    totals are the numbers of distinct values that the elements selected by
    [[name]] carry for that attribute in the before- and in the after-tree,
    its stable values are the values found in both, and its score is the
    rendering by [toFixed(2)] of [commonCount / totalBefore * 100] when the
    before-tree has a value: of the binary64 product by 100 of the binary64
    quotient, which is within 2^-45 of the exact percentage.  The score is
    the rendering of 0, that is ["0.00"], when the attribute is absent from
    the before-tree. *)
Theorem C3_stability_record (beforeDOM afterDOM : Document)
  (result : list (string * AttributeStability.t)) (attrType : string) :
  Browser.findStableAttributes querySelectorAll beforeDOM afterDOM = Normal result ->
  In attrType Browser.attributesToCheck ->
  exists beforeElements afterElements r,
    querySelectorAll beforeDOM (Browser.presenceSelector attrType) = Normal beforeElements /\
    querySelectorAll afterDOM (Browser.presenceSelector attrType) = Normal afterElements /\
    In (attrType, r) result /\
    (forall r', In (attrType, r') result -> r' = r) /\
    (exists beforeValues afterValues,
       NoDup beforeValues /\ NoDup afterValues /\
       (forall v, In v beforeValues <->
                  exists el, In el beforeElements /\ getAttribute el attrType = v) /\
       (forall v, In v afterValues <->
                  exists el, In el afterElements /\ getAttribute el attrType = v) /\
       AttributeStability.totalBefore r = List.length beforeValues /\
       AttributeStability.totalAfter r = List.length afterValues /\
       (forall v, In v (AttributeStability.stableValues r) <->
                  In v beforeValues /\ In v afterValues)) /\
    NoDup (AttributeStability.stableValues r) /\
    AttributeStability.commonCount r = List.length (AttributeStability.stableValues r) /\
    ((0 < AttributeStability.totalBefore r)%nat ->
     exists quotient percent,
       quotient = Binary64.div (inject_Z (Z.of_nat (AttributeStability.commonCount r)))
                               (inject_Z (Z.of_nat (AttributeStability.totalBefore r))) /\
       percent = Binary64.mul quotient 100 /\
       AttributeStability.stabilityScore r = JS.toFixed2 percent /\
       - (1 # 35184372088832)
       <= percent - inject_Z (Z.of_nat (AttributeStability.commonCount r))
                    / inject_Z (Z.of_nat (AttributeStability.totalBefore r)) * 100
       <= 1 # 35184372088832) /\
    (beforeElements = [] ->
     AttributeStability.totalBefore r = 0%nat /\
     AttributeStability.stabilityScore r = JS.toFixed2 0 /\
     AttributeStability.stabilityScore r = "0.00"%string).
Proof.
  intros H Hin.
  destruct (stableAttributes_covers _ _ _ _ H Hin) as (r & Hr).
  destruct (stableAttributes_entry _ _ _ _ _ H Hr) as (_ & bs & ys & B & A & E).
  exists bs, ys, r. do 3 (split; [assumption|]).
  split.
  { intros r' Hr'.
    destruct (stableAttributes_entry _ _ _ _ _ H Hr') as (_ & bs' & ys' & B' & A' & E').
    congruence. }
  destruct (attributeStability_counts attrType bs ys) as (Tb & Ta & Cc & Nd & Sv & Le & _).
  cbv zeta in *. rewrite <- E in *.
  destruct (valuesOf_spec attrType bs) as [Nb Ib].
  destruct (valuesOf_spec attrType ys) as [Na Ia].
  split.
  { exists (Browser.valuesOf attrType bs), (Browser.valuesOf attrType ys).
    repeat (split; [assumption|]). assumption. }
  do 2 (split; [assumption|]).
  split.
  - intros P.
    pose proof (stabilityPercent_error _ _ P Le) as Err.
    rewrite (stabilityPercent_positive _ _ P) in Err.
    eexists. eexists. split; [reflexivity|]. split; [reflexivity|].
    split; [|exact Err].
    rewrite <- (stabilityPercent_positive _ _ P). now subst r.
  - intros ->. subst r. cbn. repeat split; reflexivity.
Qed.

(** C8.  Every record satisfies [commonCount <= min(totalBefore, totalAfter)],
    and its score is the rendering of a number between 0 and 100, printed
    from a number of hundredths between 0 and 10000. *)
Theorem C8_record_bounds (beforeDOM afterDOM : Document)
  (result : list (string * AttributeStability.t)) (attrType : string) (r : AttributeStability.t) :
  Browser.findStableAttributes querySelectorAll beforeDOM afterDOM = Normal result ->
  In (attrType, r) result ->
  (AttributeStability.commonCount r
   <= Nat.min (AttributeStability.totalBefore r) (AttributeStability.totalAfter r))%nat /\
  exists stabilityScorePercent,
    stabilityScorePercent ==
      Browser.stabilityPercent (AttributeStability.commonCount r)
                               (AttributeStability.totalBefore r) /\
    0 <= stabilityScorePercent <= 100 /\
    (0 <= JS.hundredths stabilityScorePercent <= 10000)%Z /\
    AttributeStability.stabilityScore r = JS.toFixed2 stabilityScorePercent.
Proof.
  intros H Hr.
  destruct (stableAttributes_entry _ _ _ _ _ H Hr) as (_ & bs & ys & B & A & E).
  destruct (attributeStability_counts attrType bs ys) as (_ & _ & _ & _ & _ & Lb & La).
  cbv zeta in *. rewrite <- E in *.
  split; [apply Nat.min_glb; assumption|].
  exists (Browser.stabilityPercent (AttributeStability.commonCount r)
                                   (AttributeStability.totalBefore r)).
  split; [reflexivity|]. split; [now apply stabilityPercent_bounds|].
  split; [now apply hundredths_bounds, stabilityPercent_bounds | now subst r].
Qed.

(** C10.  The [stabilityScore] field of every record is not the number but
    the string [toFixed(2)] makes of it: a decimal numeral with exactly two
    digits after the point. *)
Theorem C10_score_is_formatted_string (beforeDOM afterDOM : Document)
  (result : list (string * AttributeStability.t)) (attrType : string) (r : AttributeStability.t) :
  Browser.findStableAttributes querySelectorAll beforeDOM afterDOM = Normal result ->
  In (attrType, r) result ->
  AttributeStability.stabilityScore r =
    JS.toFixed2 (Browser.stabilityPercent (AttributeStability.commonCount r)
                                          (AttributeStability.totalBefore r)) /\
  twoFractionDigits (AttributeStability.stabilityScore r).
Proof.
  intros H Hr.
  destruct (stableAttributes_entry _ _ _ _ _ H Hr) as (_ & bs & ys & B & A & E).
  assert (S : AttributeStability.stabilityScore r =
              JS.toFixed2 (Browser.stabilityPercent (AttributeStability.commonCount r)
                                                    (AttributeStability.totalBefore r)))
    by now subst r.
  split; [assumption|]. rewrite S. apply toFixed2_format.
Qed.

End AttributeStabilityProperties.

(* ------------------------------------------------------------------------- *)
(** ** The landmark change detector *)

Section LandmarkProperties.

Context {Document : Type}.
Variable querySelectorAll : Document -> string -> Completion (list Element).

Local Abbreviation findIn := (Browser._findElementMatchingSelectors querySelectorAll).

(** The outcome of the lookup, in the terms of the specification: the
    landmark is found when some selector matches, through the first selector
    that matches; a selector on which the query throws is passed over. *)
Lemma outcome_spec (dom : Document) (selectors : list string) :
  MatchOutcome.found (findIn dom selectors) = landmarkFound querySelectorAll dom selectors /\
  MatchOutcome.selector (findIn dom selectors) = selectorUsed querySelectorAll dom selectors.
Proof.
  unfold landmarkFound, selectorUsed.
  induction selectors as [|s rest [IHf IHs]]; [split; reflexivity|].
  cbn [Browser._findElementMatchingSelectors existsb find]. unfold matchesIn at 1 3.
  destruct (Browser.querySelector querySelectorAll dom s) as [[el|]|e]; cbn; auto.
Qed.

Lemma selectorUsed_found (dom : Document) (selectors : list string) :
  landmarkFound querySelectorAll dom selectors = true <->
  selectorUsed querySelectorAll dom selectors <> None.
Proof.
  unfold landmarkFound, selectorUsed.
  induction selectors as [|s rest IH]; cbn [existsb find].
  - split; [discriminate | congruence].
  - destruct (matchesIn querySelectorAll dom s); cbn; [split; [discriminate | reflexivity] | exact IH].
Qed.



Lemma changeStep_append (beforeDOM afterDOM : Document) (acc : list Change.t)
  (element : string * list string) :
  Browser.changeStep querySelectorAll beforeDOM afterDOM acc element =
  acc ++ Browser.changeStep querySelectorAll beforeDOM afterDOM [] element.
Proof.
  unfold Browser.changeStep. destruct (Browser.hasChanged _ _); [reflexivity|].
  now rewrite app_nil_r.
Qed.

Lemma identify_flat_map (beforeDOM afterDOM : Document) (entries : list (string * list string))
  (acc : list Change.t) :
  fold_left (Browser.changeStep querySelectorAll beforeDOM afterDOM) entries acc =
  acc ++ flat_map (Browser.changeStep querySelectorAll beforeDOM afterDOM []) entries.
Proof.
  revert acc. induction entries as [|e entries IH]; intros acc; cbn [fold_left flat_map].
  - now rewrite app_nil_r.
  - rewrite IH, changeStep_append, app_assoc. reflexivity.
Qed.

(** When a record is written and what status it carries. *)
Lemma classification (beforeDOM afterDOM : Document) (selectors : list string) (kind : Status) :
  (Browser.hasChanged (findIn beforeDOM selectors) (findIn afterDOM selectors) = true /\
   Browser.statusOf (findIn beforeDOM selectors) (findIn afterDOM selectors) = kind) <->
  kindHolds querySelectorAll beforeDOM afterDOM selectors kind.
Proof.
  unfold Browser.hasChanged, Browser.statusOf, kindHolds.
  destruct (outcome_spec beforeDOM selectors) as [-> ->].
  destruct (outcome_spec afterDOM selectors) as [-> ->].
  pose proof (selectorUsed_found beforeDOM selectors) as Fb.
  pose proof (selectorUsed_found afterDOM selectors) as Fa.
  destruct (landmarkFound querySelectorAll beforeDOM selectors),
           (landmarkFound querySelectorAll afterDOM selectors);
    destruct (selectorUsed querySelectorAll beforeDOM selectors) as [sb|] eqn:Sb;
    destruct (selectorUsed querySelectorAll afterDOM selectors) as [sa|] eqn:Sa;
    try (exfalso; (apply (proj1 Fb); [reflexivity | reflexivity])
                  || (apply (proj1 Fa); [reflexivity | reflexivity]));
    try (assert (true = false) by (apply Fb; discriminate); discriminate);
    try (assert (true = false) by (apply Fa; discriminate); discriminate);
    try (assert (false = true) by (apply Fb; discriminate); discriminate);
    try (assert (false = true) by (apply Fa; discriminate); discriminate);
    destruct kind; cbn;
    try (destruct (String.eqb_spec sb sa) as [->|N]; cbn);
    intuition (try discriminate; try congruence).
Qed.

Lemma emitted_iff (beforeDOM afterDOM : Document) (name : string) (kind : Status) :
  emitted (Browser.identifyChangedSelectors querySelectorAll beforeDOM afterDOM) name kind <->
  exists selectors,
    In (name, selectors) Browser.criticalElements /\
    kindHolds querySelectorAll beforeDOM afterDOM selectors kind.
Proof.
  unfold emitted, Browser.identifyChangedSelectors.
  rewrite identify_flat_map. cbn [app]. split.
  - intros (record & Hin & Hn & Hs). apply in_flat_map in Hin as ([n sels] & He & Hr).
    unfold Browser.changeStep in Hr. cbn [fst snd] in Hr.
    destruct (Browser.hasChanged _ _) eqn:Hc; [|destruct Hr].
    destruct Hr as [<-|[]]. cbn in Hn, Hs. subst n.
    exists sels. split; [assumption|]. apply classification. auto.
  - intros (sels & He & Hk). apply classification in Hk as [Hc Hs].
    eexists. split.
    + apply in_flat_map. exists (name, sels). split; [assumption|].
      unfold Browser.changeStep. cbn [fst snd]. rewrite Hc. left. reflexivity.
    + cbn. auto.
Qed.

(** Every record carries the two outcomes of its landmark. *)
Lemma emitted_record_outcomes (beforeDOM afterDOM : Document) (record : Change.t) :
  In record (Browser.identifyChangedSelectors querySelectorAll beforeDOM afterDOM) ->
  exists selectors,
    In (Change.elementName record, selectors) Browser.criticalElements /\
    Change.before record = findIn beforeDOM selectors /\
    Change.after record = findIn afterDOM selectors /\
    Change.status record = Browser.statusOf (Change.before record) (Change.after record).
Proof.
  unfold Browser.identifyChangedSelectors. rewrite identify_flat_map. cbn [app].
  intros Hin. apply in_flat_map in Hin as ([n sels] & He & Hr).
  unfold Browser.changeStep in Hr. cbn [fst snd] in Hr.
  destruct (Browser.hasChanged _ _); [|destruct Hr].
  destruct Hr as [<-|[]]. cbn. exists sels. auto.
Qed.

Lemma criticalElements_names :
  forall name s1 s2,
    In (name, s1) Browser.criticalElements -> In (name, s2) Browser.criticalElements -> s1 = s2.
Proof.
  assert (N : NoDup (map fst Browser.criticalElements)).
  { cbn. repeat constructor; cbn; intuition discriminate. }
  revert N. generalize Browser.criticalElements as l.
  induction l as [|[n s] l IH]; intros N name s1 s2 H1 H2; [destruct H1|].
  inversion N as [|? ? Hn N']; subst.
  destruct H1 as [E1|H1], H2 as [E2|H2].
  - congruence.
  - injection E1 as -> ->. exfalso. apply Hn. apply in_map_iff. now exists (name, s2).
  - injection E2 as -> ->. exfalso. apply Hn. apply in_map_iff. now exists (name, s1).
  - eauto.
Qed.

(** C4.  For a landmark of the catalog, a record of kind [added] is emitted
    exactly when the landmark is not found before and found after, of kind
    [removed] exactly when it is found before and not after, of kind
    [changed] exactly when it is found in both trees through different
    selectors; so none is emitted when it is found in both through the same
    selector or in neither.  No landmark gets two records. *)
Theorem C4_change_kind (beforeDOM afterDOM : Document) (name : string)
  (selectors : list string) :
  In (name, selectors) Browser.criticalElements ->
  (forall kind,
     emitted (Browser.identifyChangedSelectors querySelectorAll beforeDOM afterDOM) name kind <->
     kindHolds querySelectorAll beforeDOM afterDOM selectors kind) /\
  ((forall kind,
      ~ emitted (Browser.identifyChangedSelectors querySelectorAll beforeDOM afterDOM) name kind) <->
   (landmarkFound querySelectorAll beforeDOM selectors = false /\
    landmarkFound querySelectorAll afterDOM selectors = false) \/
   (landmarkFound querySelectorAll beforeDOM selectors = true /\
    landmarkFound querySelectorAll afterDOM selectors = true /\
    selectorUsed querySelectorAll beforeDOM selectors
      = selectorUsed querySelectorAll afterDOM selectors)).
Proof.
  intros Hin.
  assert (K : forall kind,
            emitted (Browser.identifyChangedSelectors querySelectorAll beforeDOM afterDOM) name kind <->
            kindHolds querySelectorAll beforeDOM afterDOM selectors kind).
  { intros kind. rewrite emitted_iff. split.
    - intros (sels & He & Hk). now rewrite (criticalElements_names _ _ _ Hin He).
    - intros Hk. now exists selectors. }
  split; [exact K|].
  split.
  - intros None.
    assert (Na : ~ kindHolds querySelectorAll beforeDOM afterDOM selectors added)
      by (intros X; apply (None added), K, X).
    assert (Nr : ~ kindHolds querySelectorAll beforeDOM afterDOM selectors removed)
      by (intros X; apply (None removed), K, X).
    assert (Nc : ~ kindHolds querySelectorAll beforeDOM afterDOM selectors changed)
      by (intros X; apply (None changed), K, X).
    unfold kindHolds in Na, Nr, Nc.
    destruct (landmarkFound querySelectorAll beforeDOM selectors),
             (landmarkFound querySelectorAll afterDOM selectors); auto.
    + right. repeat split.
      destruct (JS.strictEq (selectorUsed querySelectorAll beforeDOM selectors)
                            (selectorUsed querySelectorAll afterDOM selectors)) eqn:E.
      * now apply strictEq_true_iff.
      * exfalso. apply Nc. repeat split. intros E'. apply strictEq_true_iff in E'. congruence.
    + exfalso. apply Nr. auto.
    + exfalso. apply Na. auto.
  - intros H kind Hem. apply K in Hem. unfold kindHolds in Hem.
    destruct kind; intuition congruence.
Qed.

(** C9.  The classification is symmetric in the two snapshots: a landmark
    is [added] from A to B exactly when it is [removed] from B to A, and
    [changed] from A to B exactly when it is [changed] from B to A. *)
Theorem C9_direction_symmetry (domA domB : Document) (name : string) :
  (emitted (Browser.identifyChangedSelectors querySelectorAll domA domB) name added <->
   emitted (Browser.identifyChangedSelectors querySelectorAll domB domA) name removed) /\
  (emitted (Browser.identifyChangedSelectors querySelectorAll domA domB) name removed <->
   emitted (Browser.identifyChangedSelectors querySelectorAll domB domA) name added) /\
  (emitted (Browser.identifyChangedSelectors querySelectorAll domA domB) name changed <->
   emitted (Browser.identifyChangedSelectors querySelectorAll domB domA) name changed).
Proof.
  rewrite !emitted_iff. unfold kindHolds.
  repeat split; intros (sels & He & H); exists sels; (split; [assumption|]);
    intuition congruence.
Qed.


End LandmarkProperties.

(* ------------------------------------------------------------------------- *)
(** ** The anchor recommender *)

Section RecommenderProperties.

Context {Document : Type}.
Variable querySelectorAll : Document -> string -> Completion (list Element).

Lemma addCandidatesWithRole_candidates (beforeDOM afterDOM : Document) (role : string)
  (keyTerms : list string) (candidates result : list Candidate.t) (c : Candidate.t) :
  Browser._addCandidatesWithRole querySelectorAll beforeDOM afterDOM role keyTerms candidates
    = Normal result ->
  In c result ->
  In c candidates \/ (Candidate.type c = "role-based"%string /\ scoredAs 85 5 c).
Proof.
  unfold Browser._addCandidatesWithRole.
  destruct (querySelectorAll beforeDOM _) as [bs|]; [|discriminate].
  destruct (querySelectorAll afterDOM _) as [ys|]; [|discriminate].
  cbn [bind]. apply roleStep_candidates.
Qed.

Lemma addCandidatesWithAttribute_candidates (beforeDOM afterDOM : Document) (attrType : string)
  (keyTerms : list string) (candidates : list Candidate.t) (baseScore : Z) (c : Candidate.t) :
  In c (Browser._addCandidatesWithAttribute querySelectorAll beforeDOM afterDOM attrType
          keyTerms candidates baseScore) ->
  In c candidates \/
  (Candidate.type c = (attrType ++ "-based")%string /\ scoredAs baseScore 3 c).
Proof.
  unfold Browser._addCandidatesWithAttribute.
  destruct (Browser.attributePools querySelectorAll beforeDOM afterDOM attrType)
    as [[bs ys]|]; [apply attributeStep_candidates | auto].
Qed.

(** The pushes of a strategy keep what was pushed before. *)
Lemma addCandidatesWithAttribute_keeps (beforeDOM afterDOM : Document) (attrType : string)
  (keyTerms : list string) (candidates : list Candidate.t) (baseScore : Z) (c : Candidate.t) :
  In c candidates ->
  In c (Browser._addCandidatesWithAttribute querySelectorAll beforeDOM afterDOM attrType
          keyTerms candidates baseScore).
Proof.
  unfold Browser._addCandidatesWithAttribute.
  destruct (Browser.attributePools querySelectorAll beforeDOM afterDOM attrType)
    as [[bs ys]|]; [apply forEachTry_keeps | auto].
Qed.

(** The scores of the retained candidates: [base + termMatch * weight] with
    a term-match score between 1 and 5, base 85 and weight 5 for the role
    strategy, bases 90, 85 and 75 and weight 3 for the attribute strategies.
    Nothing in it caps the sum at 100. *)
Lemma candidate_score_formula (beforeDOM afterDOM : Document) (role : string)
  (keyTerms : list string) (candidates : list Candidate.t) (c : Candidate.t) :
  Browser._findStableElementsMatchingFeature querySelectorAll beforeDOM afterDOM role keyTerms
    = Normal candidates ->
  In c candidates ->
  (Candidate.type c = "role-based"%string /\ scoredAs 85 5 c) \/
  (Candidate.type c = "id-based"%string /\ scoredAs 90 3 c) \/
  (Candidate.type c = "data--based"%string /\ scoredAs 85 3 c) \/
  (Candidate.type c = "class-based"%string /\ scoredAs 75 3 c).
Proof.
  unfold Browser._findStableElementsMatchingFeature. cbv zeta.
  destruct (if JS.truthy role
            then Browser._addCandidatesWithRole querySelectorAll beforeDOM afterDOM role keyTerms []
            else Normal []) as [c0|] eqn:R; [|discriminate].
  cbn [bind]. intros [= <-] Hc.
  apply addCandidatesWithAttribute_candidates in Hc as [Hc|Hc]; [|auto].
  apply addCandidatesWithAttribute_candidates in Hc as [Hc|Hc]; [|auto].
  apply addCandidatesWithAttribute_candidates in Hc as [Hc|Hc]; [|auto].
  destruct (JS.truthy role).
  - eapply addCandidatesWithRole_candidates in R; [|exact Hc]. destruct R as [[]|R]; auto.
  - injection R as <-. destruct Hc.
Qed.

Lemma scoredAs_bounds (base weight : Z) (c : Candidate.t) :
  (0 <= weight)%Z -> scoredAs base weight c ->
  (base + weight <= Candidate.stabilityScore c <= base + 5 * weight)%Z.
Proof. intros W (t & T & ->). nia. Qed.


Lemma generateAnchorRecommendations_spec (beforeDOM afterDOM : Document)
  (result : list (string * Recommendation.t)) :
  Browser.generateAnchorRecommendations querySelectorAll beforeDOM afterDOM = Normal result <->
  Forall2 (fun feature entry =>
             exists candidates,
               Browser._findStableElementsMatchingFeature querySelectorAll beforeDOM afterDOM
                 (Browser.role feature) (Browser.keyTerms feature) = Normal candidates /\
               entry = (Browser.name feature, Browser.recommend candidates))
          Browser.criticalFeatures result.
Proof.
  unfold Browser.generateAnchorRecommendations.
  rewrite (forEachM_append (Browser.recommendationStep querySelectorAll beforeDOM afterDOM)
             (fun feature =>
                candidates <- Browser._findStableElementsMatchingFeature querySelectorAll
                                beforeDOM afterDOM (Browser.role feature) (Browser.keyTerms feature) ;;
                Normal (Browser.name feature, Browser.recommend candidates))).
  - cbn [app]. split.
    + intros (ys & -> & F). eapply Forall2_impl; [|exact F]. cbn beta.
      intros feature entry H.
      destruct (Browser._findStableElementsMatchingFeature _ _ _ _ _) as [cs|]; [|discriminate].
      cbn in H. injection H as <-. now exists cs.
    + intros F. exists result. split; [reflexivity|].
      eapply Forall2_impl; [|exact F]. cbn beta.
      intros feature entry (cs & C & ->). now rewrite C.
  - intros s feature. unfold Browser.recommendationStep.
    destruct (Browser._findStableElementsMatchingFeature _ _ _ _ _); reflexivity.
Qed.

(** An unguarded role query that throws ends the feature, the loop over the
    features and the analysis. *)
Lemma role_query_throws_feature (beforeDOM afterDOM : Document) (role : string)
  (keyTerms : list string) :
  JS.truthy role = true ->
  (exists e, querySelectorAll beforeDOM (Browser.roleSelector role) = Throw e) \/
  (exists e, querySelectorAll afterDOM (Browser.roleSelector role) = Throw e) ->
  exists e, Browser._findStableElementsMatchingFeature querySelectorAll beforeDOM afterDOM
              role keyTerms = Throw e.
Proof.
  intros T H. unfold Browser._findStableElementsMatchingFeature. cbv zeta. rewrite T.
  unfold Browser._addCandidatesWithRole.
  destruct H as [[e H]|[e H]].
  - rewrite H. now exists e.
  - destruct (querySelectorAll beforeDOM _) as [bs|e']; cbn [bind]; [|now exists e'].
    rewrite H. now exists e.
Qed.

Lemma role_query_throws_analysis (beforeDOM afterDOM : Document) (feature : Browser.Feature) :
  In feature Browser.criticalFeatures ->
  (exists e, querySelectorAll beforeDOM (Browser.roleSelector (Browser.role feature)) = Throw e) \/
  (exists e, querySelectorAll afterDOM (Browser.roleSelector (Browser.role feature)) = Throw e) ->
  exists e, Browser.analyzeChanges querySelectorAll beforeDOM afterDOM = Throw e.
Proof.
  intros Hin H.
  assert (T : JS.truthy (Browser.role feature) = true).
  { cbn in Hin. repeat (destruct Hin as [<-|Hin]; [reflexivity|]). destruct Hin. }
  assert (G : exists e, Browser.generateAnchorRecommendations querySelectorAll beforeDOM afterDOM
                        = Throw e).
  { unfold Browser.generateAnchorRecommendations.
    apply (forEachM_throws _ _ feature Hin). intros s. unfold Browser.recommendationStep.
    destruct (role_query_throws_feature beforeDOM afterDOM _ (Browser.keyTerms feature) T H)
      as [e ->]. now exists e. }
  unfold Browser.analyzeChanges.
  destruct (Browser.findStableAttributes querySelectorAll beforeDOM afterDOM) as [sa|e];
    cbn [bind]; [|now exists e].
  destruct G as [e ->]. now exists e.
Qed.


(** The loop of the role strategy throws exactly when a before-element
    that matches a key term meets a candidate it clashes with, and the
    throw is a [TypeError]. *)
Lemma roleLoop_outcome (role : string) (keyTerms : list string)
  (afterElements beforeElements : list Element) (candidates : list Candidate.t) :
  ((exists b, In b beforeElements /\ (0 < _calculateTermMatchScore b keyTerms)%Z /\
              existsb (clash b) afterElements = true) /\
   forEachM (Browser.roleStep role keyTerms afterElements) beforeElements candidates
     = Throw TypeError)
  \/ ((forall b, In b beforeElements -> (0 < _calculateTermMatchScore b keyTerms)%Z ->
                  existsb (clash b) afterElements = false) /\
       exists result,
         forEachM (Browser.roleStep role keyTerms afterElements) beforeElements candidates
           = Normal result).
Proof.
  revert candidates.
  induction beforeElements as [|b bs IH]; intros candidates; cbn [forEachM].
  - right. split; [intros b []|]. now exists candidates.
  - assert (K : forall cs,
              (forall b', In b' [b] -> (0 < _calculateTermMatchScore b' keyTerms)%Z ->
                          existsb (clash b') afterElements = false) ->
              ((exists b', In b' (b :: bs) /\ (0 < _calculateTermMatchScore b' keyTerms)%Z /\
                           existsb (clash b') afterElements = true) /\
               forEachM (Browser.roleStep role keyTerms afterElements) bs cs = Throw TypeError)
              \/ ((forall b', In b' (b :: bs) -> (0 < _calculateTermMatchScore b' keyTerms)%Z ->
                               existsb (clash b') afterElements = false) /\
                   exists result,
                     forEachM (Browser.roleStep role keyTerms afterElements) bs cs
                       = Normal result)).
    { intros cs Hb. destruct (IH cs) as [[(b' & I & T & C) F]|[N F]].
      - left. split; [|exact F]. exists b'. split; [now right | auto].
      - right. split; [|exact F]. intros b' [<-|I]; [apply Hb; now left | now apply N]. }
    unfold Browser.roleStep at 1 3.
    destruct (_calculateTermMatchScore b keyTerms >? 0)%Z eqn:E; cbn [bind].
    + apply Z.gtb_lt in E.
      destruct (existsb (clash b) afterElements) eqn:C.
      * left. rewrite (proj2 (findMatchingElement_throws b afterElements) C). cbn [bind].
        split; [|reflexivity]. exists b. split; [now left | auto].
      * assert (Hb : forall b', In b' [b] -> (0 < _calculateTermMatchScore b' keyTerms)%Z ->
                                existsb (clash b') afterElements = false)
          by (intros b' [<-|[]] _; exact C).
        destruct (_findMatchingElement b afterElements) as [[m|]|e] eqn:F; cbn [bind].
        -- now apply K.
        -- now apply K.
        -- pose proof (findMatchingElement_error _ _ _ F). subst e.
           apply findMatchingElement_throws in F. congruence.
    + apply K. intros b' [<-|[]] T. rewrite Z.gtb_ltb in E. apply Z.ltb_ge in E. lia.
Qed.

(** An element does not clash with itself and scores at least 3. *)
Lemma clash_self (el : Element) : clash el el = false.
Proof.
  unfold clash. destruct (existsb _ _) eqn:E; [|reflexivity].
  apply existsb_exists in E as (n & I & C). unfold collides in C.
  apply in_keys_get in I. destruct (JS.get (_getAttributes el) n); [|contradiction].
  now rewrite andb_false_r in C.
Qed.

Lemma matchPoints_self (el : Element) : (3 <= matchPoints el el)%Z.
Proof.
  unfold matchPoints. rewrite String.eqb_refl, Nat.eqb_refl.
  pose proof (count_nonneg (sameValue (_getAttributes el) (_getAttributes el))
                           (JS.keys (_getAttributes el))).
  pose proof (count_nonneg (extendedValue (_getAttributes el) (_getAttributes el))
                           (JS.keys (_getAttributes el))).
  lia.
Qed.

(** In a pool that contains it and holds no candidate it clashes with,
    every element finds a counterpart. *)
Lemma self_match_found (el : Element) (pool : list Element) :
  In el pool -> existsb (clash el) pool = false ->
  exists best, _findMatchingElement el pool = Normal (Some best).
Proof.
  intros Hin C.
  destruct (_findMatchingElement el pool) as [[best|]|e] eqn:F.
  - now exists best.
  - apply findMatchingElement_none in F as [_ Z0].
    rewrite Forall_forall in Z0. specialize (Z0 el Hin).
    pose proof (matchPoints_self el). lia.
  - pose proof (findMatchingElement_error _ _ _ F). subst e.
    apply findMatchingElement_throws in F. congruence.
Qed.





End RecommenderProperties.

(* ------------------------------------------------------------------------- *)
(** ** The analyzer on the concrete platform *)

(** The presence queries of the six attribute names select the elements
    that carry the attribute. *)
Lemma css_presence_query (dom : Css.Document) (attrType : string) :
  In attrType Browser.attributesToCheck ->
  Css.querySelectorAll dom (Browser.presenceSelector attrType) =
  Normal (filter (fun el => match getAttribute el attrType with Some _ => true | None => false end)
                 (Css.elements dom)).
Proof.
  intros H. cbn in H.
  repeat (destruct H as [<-|H]; [reflexivity|]). destruct H.
Qed.

(** So the values counted for a name are the distinct values the attribute
    takes in the tree. *)
Lemma css_values_of_tree (dom : Css.Document) (attrType : string) (elements : list Element)
  (v : option string) :
  In attrType Browser.attributesToCheck ->
  Css.querySelectorAll dom (Browser.presenceSelector attrType) = Normal elements ->
  (In v (Browser.valuesOf attrType elements) <->
   exists el value, In el (Css.elements dom) /\ getAttribute el attrType = Some value /\
                    v = Some value).
Proof.
  intros H Q. rewrite (css_presence_query dom attrType H) in Q. injection Q as <-.
  destruct (valuesOf_spec attrType
              (filter (fun el => match getAttribute el attrType with
                                 | Some _ => true | None => false end) (Css.elements dom)))
    as [_ I].
  rewrite I. split.
  - intros (el & Hel & G). apply filter_In in Hel as [Hel P].
    destruct (getAttribute el attrType) as [value|] eqn:E; [|discriminate].
    exists el, value. subst v. auto.
  - intros (el & value & Hel & G & ->). exists el. split; [|assumption].
    apply filter_In. split; [assumption|]. now rewrite G.
Qed.

(** This engine accepts the selectors of the unguarded queries: the
    presence selectors of the six attribute names and the role selectors of
    the five features. *)
Lemma css_findStableAttributes_total (beforeDOM afterDOM : Css.Document) :
  exists result, Browser.findStableAttributes Css.querySelectorAll beforeDOM afterDOM = Normal result.
Proof. eexists. reflexivity. Qed.

Lemma css_role_query (dom : Css.Document) (feature : Browser.Feature) :
  In feature Browser.criticalFeatures ->
  exists pool,
    Css.querySelectorAll dom (Browser.roleSelector (Browser.role feature)) = Normal pool.
Proof.
  intros H. cbn in H.
  repeat (destruct H as [<-|H]; [eexists; reflexivity|]). destruct H.
Qed.

(** A document compared with itself on which the analysis throws: the
    first list element carries an attribute named [constructor], the second
    one does not, and both match a key term. *)
Example self_comparison_throws :
  Browser.analyzeChanges Css.querySelectorAll Examples.shadowed Examples.shadowed
  = Throw TypeError.
Proof. vm_compute. reflexivity. Qed.

(** The percentage of 23 values out of 160 is printed from the binary64
    number below 14.375, and that of 9999 out of 20000 from the one below
    49.995. *)
Example percentages_below_the_tie :
  JS.toFixed2 (Browser.stabilityPercent 23 160) = "14.37"%string /\
  JS.toFixed2 (Browser.stabilityPercent (Z.to_nat 9999) (Z.to_nat 20000)) = "49.99"%string.
Proof. split; vm_compute; reflexivity. Qed.

(** C2.  The retained role candidate of
    [<div role="list" aria-label="Inbox mail messages">], compared with
    itself, has the term-match score 5 and therefore the stability score
    85 + 5 * 5 = 110: the sum is not capped at the 100 that the comment on
    that line and the specification announce. *)
Theorem C2_role_score_exceeds_100 :
  Browser._findStableElementsMatchingFeature Css.querySelectorAll
    Samples.labelledList Samples.labelledList "list" ["message"; "inbox"; "mail"]%string
  = Normal [ {| Candidate.selector := (Browser.roleSelector "list" ++ "div")%string;
                Candidate.stabilityScore := 110;
                Candidate.type := "role-based" |} ]
  /\ Browser.analyzeChanges Css.querySelectorAll Samples.labelledList Samples.labelledList
     = Normal Samples.labelledListReport
  /\ exists r, In ("MessageList"%string, r) (Report.recommendedAnchors Samples.labelledListReport) /\
               Recommendation.stabilityScore r = 110%Z /\
               Recommendation.selectorType r = Some "role-based"%string.
Proof.
  split; [vm_compute; reflexivity|]. split; [vm_compute; reflexivity|].
  eexists. split; [left; reflexivity|]. split; reflexivity.
Qed.


(* ------------------------------------------------------------------------- *)
(** ** The theorems at concrete inputs *)

(** A toolbar that disappears is [removed]; read the other way it is
    [added]. *)
Example ribbon_removed_then_added :
  emitted (Browser.identifyChangedSelectors Css.querySelectorAll Samples.toolbar Samples.empty)
          "RIBBON" removed /\
  emitted (Browser.identifyChangedSelectors Css.querySelectorAll Samples.empty Samples.toolbar)
          "RIBBON" added.
Proof. split; eexists; (split; [left; reflexivity|]); split; reflexivity. Qed.

(** The record of [id] when two of three values are kept. *)
Lemma C3_stability_record_witness :
  Browser.findStableAttributes Css.querySelectorAll Examples.idsBefore Examples.idsAfter
    = Normal Examples.idsStability /\
  In "id"%string Browser.attributesToCheck /\
  In ("id"%string,
      AttributeStability.mk 3 3 2 "66.67" [Some "a"%string; Some "b"%string])
     Examples.idsStability /\
  exists percent,
    JS.toFixed2 percent = "66.67"%string /\
    - (1 # 35184372088832) <= percent - inject_Z 2 / inject_Z 3 * 100 <= 1 # 35184372088832.
Proof.
  assert (H1 : Browser.findStableAttributes Css.querySelectorAll Examples.idsBefore
                 Examples.idsAfter = Normal Examples.idsStability) by reflexivity.
  assert (H2 : In "id"%string Browser.attributesToCheck) by (cbn; auto).
  assert (H3 : In ("id"%string,
                   AttributeStability.mk 3 3 2 "66.67" [Some "a"%string; Some "b"%string])
                  Examples.idsStability) by (left; reflexivity).
  split; [exact H1|]. split; [exact H2|]. split; [exact H3|].
  destruct (C3_stability_record Css.querySelectorAll _ _ _ _ H1 H2)
    as (bs & ys & r & _ & _ & _ & U & _ & _ & _ & Present & _).
  rewrite <- (U _ H3) in Present.
  destruct (Present ltac:(cbn; lia)) as (quotient & percent & _ & _ & S & E).
  exists percent. split; [now rewrite <- S | exact E].
Defined.

(** The ribbon landmark on the toolbar sample. *)
Lemma C4_change_kind_witness :
  In ("RIBBON"%string,
      [".ms-CommandBar"; Browser.roleSelector "toolbar"; ".commandBarWrapper"]%string)
     Browser.criticalElements /\
  emitted (Browser.identifyChangedSelectors Css.querySelectorAll Samples.toolbar Samples.empty)
          "RIBBON" removed.
Proof.
  assert (H : In ("RIBBON"%string,
                  [".ms-CommandBar"; Browser.roleSelector "toolbar"; ".commandBarWrapper"]%string)
                 Browser.criticalElements) by (cbn; auto 10).
  split; [exact H|].
  apply (proj1 (C4_change_kind Css.querySelectorAll Samples.toolbar Samples.empty _ _ H) removed).
  split; reflexivity.
Defined.


(** The record of [id] on the list sample. *)
Lemma C8_record_bounds_witness :
  Browser.findStableAttributes Css.querySelectorAll Samples.listBefore Samples.listAfter
    = Normal Samples.listStability /\
  In ("id"%string, AttributeStability.mk 1 1 1 "100.00" [Some "list"%string])
     Samples.listStability /\
  exists stabilityScorePercent,
    0 <= stabilityScorePercent <= 100 /\
    JS.toFixed2 stabilityScorePercent = "100.00"%string.
Proof.
  assert (H1 : Browser.findStableAttributes Css.querySelectorAll Samples.listBefore
                 Samples.listAfter = Normal Samples.listStability) by reflexivity.
  assert (H2 : In ("id"%string, AttributeStability.mk 1 1 1 "100.00" [Some "list"%string])
                  Samples.listStability) by (left; reflexivity).
  split; [exact H1|]. split; [exact H2|].
  destruct (C8_record_bounds Css.querySelectorAll _ _ _ _ _ H1 H2) as (_ & q & _ & B & _ & S).
  exists q. split; [exact B | now rewrite <- S].
Defined.

(** The score string of [id] on the list sample. *)
Lemma C10_score_is_formatted_string_witness :
  Browser.findStableAttributes Css.querySelectorAll Samples.listBefore Samples.listAfter
    = Normal Samples.listStability /\
  In ("id"%string, AttributeStability.mk 1 1 1 "100.00" [Some "list"%string])
     Samples.listStability /\
  twoFractionDigits "100.00".
Proof.
  assert (H1 : Browser.findStableAttributes Css.querySelectorAll Samples.listBefore
                 Samples.listAfter = Normal Samples.listStability) by reflexivity.
  assert (H2 : In ("id"%string, AttributeStability.mk 1 1 1 "100.00" [Some "list"%string])
                  Samples.listStability) by (left; reflexivity).
  split; [exact H1|]. split; [exact H2|].
  exact (proj2 (C10_score_is_formatted_string Css.querySelectorAll _ _ _ _ _ H1 H2)).
Defined.


(* ========================================================================= *)
(** * Further properties of the analyzer *)

(* ------------------------------------------------------------------------- *)
(** ** Sorting in descending order of a key *)

Section SortByKey.

Context {A : Type}.
Variable key : A -> Z.

(** The first element after sorting is the first element of greatest key:
    ties keep the order of the input. *)
Lemma sort_first_greatest (l : list A) (x : A) (r : list A) :
  JS.sort (fun a b => (key b - key a)%Z) l = x :: r ->
  exists pre post,
    l = pre ++ x :: post /\
    Forall (fun y => (key y < key x)%Z) pre /\
    Forall (fun y => (key y <= key x)%Z) post.
Proof.
  revert x r. induction l as [|a l IH]; intros x r E.
  - discriminate.
  - unfold JS.sort in E. cbn [fold_right] in E.
    fold (JS.sort (fun a b => (key b - key a)%Z) l) in E.
    destruct (JS.sort (fun a b => (key b - key a)%Z) l) as [|h s] eqn:S.
    + pose proof (sort_perm (fun a b => (key b - key a)%Z) l) as P. rewrite S in P.
      apply Permutation_nil in P. subst l. cbn in E. injection E as <- <-.
      exists [], []. repeat split; constructor.
    + destruct (IH h s eq_refl) as (pre & post & -> & Hpre & Hpost).
      cbn [JS.insertSorted] in E.
      destruct (key h - key a >? 0)%Z eqn:C.
      * apply Z.gtb_lt in C. injection E as <- <-.
        exists (a :: pre), post. repeat split; auto. constructor; [lia | assumption].
      * rewrite Z.gtb_ltb in C. apply Z.ltb_ge in C. injection E as <- <-.
        exists [], (pre ++ h :: post). repeat split; [constructor|].
        apply Forall_app. split.
        -- eapply Forall_impl; [|exact Hpre]. cbn. intros; lia.
        -- constructor; [lia|]. eapply Forall_impl; [|exact Hpost]. cbn. intros; lia.
Qed.

End SortByKey.

(* ------------------------------------------------------------------------- *)
(** ** More on the correspondence matcher *)

Lemma attribute_points_bound (beforeAttrs afterAttrs : JS.Obj) (names : list string) :
  (2 * count (sameValue beforeAttrs afterAttrs) names
   + count (extendedValue beforeAttrs afterAttrs) names
   <= 2 * Z.of_nat (List.length names))%Z.
Proof.
  induction names as [|n names IH].
  - rewrite !count_nil. cbn. lia.
  - rewrite !count_cons. cbn [List.length]. unfold extendedValue at 1.
    destruct (sameValue beforeAttrs afterAttrs n); cbn [negb andb]; [lia|].
    destruct (match JS.get afterAttrs n with
              | Some a => match JS.get beforeAttrs n with
                          | Some b => JS.truthy a && JS.truthy b && JS.includes a b
                          | None => false end
              | None => false end); lia.
Qed.

Lemma attribute_points_full (beforeAttrs afterAttrs : JS.Obj) (names : list string) :
  (2 * count (sameValue beforeAttrs afterAttrs) names
   + count (extendedValue beforeAttrs afterAttrs) names
   = 2 * Z.of_nat (List.length names))%Z <->
  Forall (fun n => sameValue beforeAttrs afterAttrs n = true) names.
Proof.
  induction names as [|n names IH].
  - rewrite !count_nil. cbn. split; [constructor | lia].
  - pose proof (attribute_points_bound beforeAttrs afterAttrs names) as B.
    rewrite !count_cons. cbn [List.length]. unfold extendedValue at 1.
    destruct (sameValue beforeAttrs afterAttrs n) eqn:S; cbn [negb andb].
    + split.
      * intros H. constructor; [assumption|]. apply IH. lia.
      * intros H. inversion H; subst. assert (E := proj2 IH H3). lia.
    + split.
      * intros H. exfalso.
        destruct (match JS.get afterAttrs n with
                  | Some a => match JS.get beforeAttrs n with
                              | Some b => JS.truthy a && JS.truthy b && JS.includes a b
                              | None => false end
                  | None => false end); lia.
      * intros H. inversion H; subst. congruence.
Qed.

Lemma match_score_ceiling (beforeEl afterEl : Element) :
  (matchPoints beforeEl afterEl
   <= 2 * Z.of_nat (List.length (JS.keys (_getAttributes beforeEl))) + 3)%Z /\
  ((matchPoints beforeEl afterEl
    = 2 * Z.of_nat (List.length (JS.keys (_getAttributes beforeEl))) + 3)%Z <->
   (forall n, In n (JS.keys (_getAttributes beforeEl)) ->
              JS.get (_getAttributes afterEl) n = JS.get (_getAttributes beforeEl) n) /\
   tagName beforeEl = tagName afterEl /\
   _getRelativePosition beforeEl = _getRelativePosition afterEl).
Proof.
  unfold matchPoints. rewrite !_getRelativePosition_count.
  pose proof (attribute_points_bound (_getAttributes beforeEl) (_getAttributes afterEl)
                (JS.keys (_getAttributes beforeEl))) as B.
  pose proof (attribute_points_full (_getAttributes beforeEl) (_getAttributes afterEl)
                (JS.keys (_getAttributes beforeEl))) as F.
  rewrite Forall_forall in F.
  assert (S : (forall n, In n (JS.keys (_getAttributes beforeEl)) ->
                         sameValue (_getAttributes beforeEl) (_getAttributes afterEl) n = true) <->
              (forall n, In n (JS.keys (_getAttributes beforeEl)) ->
                         JS.get (_getAttributes afterEl) n = JS.get (_getAttributes beforeEl) n)).
  { unfold sameValue. split; intros H n Hn; apply strictEq_true_iff; auto. }
  destruct (String.eqb_spec (tagName beforeEl) (tagName afterEl)) as [T|T];
    destruct (Nat.eqb_spec (countElementNodes (previousSiblings beforeEl))
                           (countElementNodes (previousSiblings afterEl))) as [P|P];
    (split; [lia|]); split.
  - intros H. repeat split; auto. refine (proj1 S (proj1 F _)). lia.
  - intros (H & _ & _). pose proof (proj2 F (proj2 S H)). lia.
  - intros H. exfalso. lia.
  - intros (_ & _ & H). contradiction.
  - intros H. exfalso. lia.
  - intros (_ & H & _). contradiction.
  - intros H. exfalso. lia.
  - intros (_ & H & _). contradiction.
Qed.

Lemma scored_without_clash (beforeEl afterEl : Element) (score : Z) :
  matchScoreOf beforeEl afterEl = Normal score ->
  clash beforeEl afterEl = false /\ score = matchPoints beforeEl afterEl.
Proof.
  rewrite matchScoreOf_closed. destruct (clash beforeEl afterEl); [discriminate|].
  intros E. injection E as <-. auto.
Qed.

(** X1.  A candidate that is scored does not get more than twice the
    number of attribute names of the before-element plus 3, and it reaches
    that score exactly when it carries every attribute of the
    before-element with the same value, has the same tag name and the same
    position among its element siblings. *)
Theorem X1_match_score_ceiling (beforeEl afterEl : Element) (score : Z) :
  matchScoreOf beforeEl afterEl = Normal score ->
  (score <= 2 * Z.of_nat (List.length (JS.keys (_getAttributes beforeEl))) + 3)%Z /\
  ((score = 2 * Z.of_nat (List.length (JS.keys (_getAttributes beforeEl))) + 3)%Z <->
   (forall n, In n (JS.keys (_getAttributes beforeEl)) ->
              JS.get (_getAttributes afterEl) n = JS.get (_getAttributes beforeEl) n) /\
   tagName beforeEl = tagName afterEl /\
   _getRelativePosition beforeEl = _getRelativePosition afterEl).
Proof.
  intros H. destruct (scored_without_clash _ _ _ H) as [_ ->].
  exact (match_score_ceiling beforeEl afterEl).
Qed.

Lemma self_match_agrees (el : Element) (pool : list Element) :
  In el pool ->
  existsb (clash el) pool = false ->
  exists best,
    _findMatchingElement el pool = Normal (Some best) /\
    In best pool /\
    (forall n, In n (JS.keys (_getAttributes el)) ->
               JS.get (_getAttributes best) n = JS.get (_getAttributes el) n) /\
    tagName el = tagName best /\
    _getRelativePosition el = _getRelativePosition best.
Proof.
  intros Hin C.
  assert (Self : (matchPoints el el
                  = 2 * Z.of_nat (List.length (JS.keys (_getAttributes el))) + 3)%Z).
  { apply (proj2 (match_score_ceiling el el)). auto. }
  destruct (self_match_found el pool Hin C) as (best & F).
  exists best. split; [exact F|].
  apply findMatchingElement_some in F as (_ & earlier & later & P & H & B & L).
  split; [subst pool; apply in_app_iff; right; now left|].
  apply (proj2 (match_score_ceiling el best)).
  pose proof (proj1 (match_score_ceiling el best)) as U.
  assert (matchPoints el el <= matchPoints el best)%Z.
  { subst pool. apply in_app_iff in Hin as [Hin|[<-|Hin]].
    - rewrite Forall_forall in B. specialize (B el Hin). lia.
    - lia.
    - rewrite Forall_forall in L. now apply L. }
  lia.
Qed.

(** X2.  When the pool contains the before-element itself (a document
    compared with itself) and no candidate that clashes with it, the
    matcher returns an element of the pool that agrees with it on every
    attribute value, on the tag name and on the position among the element
    siblings. *)
Theorem X2_self_match_agrees (el : Element) (pool : list Element) :
  In el pool ->
  existsb (clash el) pool = false ->
  exists best,
    _findMatchingElement el pool = Normal (Some best) /\
    In best pool /\
    (forall n, In n (JS.keys (_getAttributes el)) ->
               JS.get (_getAttributes best) n = JS.get (_getAttributes el) n) /\
    tagName el = tagName best /\
    _getRelativePosition el = _getRelativePosition best.
Proof. exact (self_match_agrees el pool). Qed.

(* ------------------------------------------------------------------------- *)
(** ** More on the term-match score *)

Lemma count_pos_iff {A} (p : A -> bool) (l : list A) :
  (0 < count p l)%Z <-> exists x, In x l /\ p x = true.
Proof.
  induction l as [|y l IH].
  - rewrite count_nil. split; [lia | intros (x & [] & _)].
  - rewrite count_cons. pose proof (count_nonneg p l) as N.
    destruct (p y) eqn:E.
    + split; [intros _; exists y; split; [now left | assumption] | lia].
    + rewrite Z.add_0_l, IH. split.
      * intros (x & Hx & Px). exists x. split; [now right | assumption].
      * intros (x & [<-|Hx] & Px); [congruence | eauto].
Qed.

Lemma sumZ_pos_iff (l : list Z) :
  Forall (fun z => (0 <= z)%Z) l ->
  ((0 < Claimed.sumZ l)%Z <-> exists z, In z l /\ (0 < z)%Z).
Proof.
  induction 1 as [|z l Hz Hl IH]; unfold Claimed.sumZ in *; cbn [fold_right].
  - split; [lia | intros (z & [] & _)].
  - pose proof (sumZ_nonneg l Hl) as N. unfold Claimed.sumZ in N. split.
    + intros H. destruct (Z.ltb_spec 0 z) as [P|P].
      * exists z. split; [now left | assumption].
      * assert (Q : (0 < fold_right Z.add 0 l)%Z) by lia.
        apply IH in Q as (z' & Hz' & Pz'). exists z'. split; [now right | assumption].
    + intros (z' & [<-|Hz'] & Pz'); [lia|].
      assert (0 < fold_right Z.add 0 l)%Z by (apply IH; eauto). lia.
Qed.

(** X3.  The term-match score is positive, which is what lets an element
    become a candidate, exactly when some key term occurs (letter case
    aside) in the text content or in the value of one of its attributes;
    with no key term it is 0. *)
Theorem X3_term_match_gate (element : Element) (keyTerms : list string) :
  (0 < _calculateTermMatchScore element keyTerms)%Z <->
  exists term,
    In term keyTerms /\
    (JS.includes (JS.toLowerCase (textContent element)) (JS.toLowerCase term) = true \/
     exists attrValue,
       In attrValue (JS.values (_getAttributes element)) /\
       JS.includes (JS.toLowerCase attrValue) (JS.toLowerCase term) = true).
Proof.
  unfold _calculateTermMatchScore. cbv zeta.
  rewrite fold_attributeValues, fold_textTermStep.
  set (text := count (fun term => JS.includes (JS.toLowerCase (textContent element))
                                              (JS.toLowerCase term)) keyTerms).
  set (pairs := Claimed.sumZ
                  (map (fun attrValue =>
                          count (fun term => JS.includes (JS.toLowerCase attrValue)
                                                         (JS.toLowerCase term)) keyTerms)
                       (JS.values (_getAttributes element)))).
  assert (Nt : (0 <= text)%Z) by apply count_nonneg.
  assert (Np : (0 <= pairs)%Z) by apply attributeTermPairs_nonneg.
  assert (Pt : (0 < text)%Z <->
               exists term, In term keyTerms /\
                 JS.includes (JS.toLowerCase (textContent element)) (JS.toLowerCase term) = true)
    by apply count_pos_iff.
  assert (Pp : (0 < pairs)%Z <->
               exists term, In term keyTerms /\
                 exists attrValue, In attrValue (JS.values (_getAttributes element)) /\
                   JS.includes (JS.toLowerCase attrValue) (JS.toLowerCase term) = true).
  { unfold pairs. rewrite sumZ_pos_iff.
    - split.
      + intros (z & Hz & Pz). apply in_map_iff in Hz as (v & <- & Hv).
        apply count_pos_iff in Pz as (t & Ht & It). exists t. split; [assumption|]. eauto.
      + intros (t & Ht & v & Hv & It).
        exists (count (fun term => JS.includes (JS.toLowerCase v) (JS.toLowerCase term)) keyTerms).
        split; [apply in_map_iff; eauto | apply count_pos_iff; eauto].
    - apply Forall_forall. intros z Hz. apply in_map_iff in Hz as (v & <- & _).
      apply count_nonneg. }
  split.
  - intros H. assert (D : (0 < text \/ 0 < pairs)%Z) by lia. destruct D as [D|D].
    + apply Pt in D as (t & Ht & It). exists t. auto.
    + apply Pp in D as (t & Ht & It). exists t. auto.
  - intros (t & Ht & [It|It]).
    + assert (0 < text)%Z by (apply Pt; eauto). lia.
    + assert (0 < pairs)%Z by (apply Pp; eauto). lia.
Qed.

(* ------------------------------------------------------------------------- *)
(** ** The selector written for a matched element *)









(** X6.  For the data strategy the selector names the first attribute, in
    source order, whose name starts with [data-], together with its
    value. *)
Theorem X6_data_selector_first (element : Element) :
  _hasDataAttribute element = true ->
  exists earlier name value later,
    attributes element = earlier ++ (name, value) :: later /\
    JS.startsWith name "data-" = true /\
    Forall (fun attr => JS.startsWith (fst attr) "data-" = false) earlier /\
    _getBestAttributeSelector element "data-"
      = Some ("[" ++ name ++ "=" ++ quoted value ++ "]")%string.
Proof.
  intros H.
  assert (F : exists earlier name value later,
            attributes element = earlier ++ (name, value) :: later /\
            JS.startsWith name "data-" = true /\
            Forall (fun attr => JS.startsWith (fst attr) "data-" = false) earlier /\
            exists rest, filter (fun attr => JS.startsWith (fst attr) "data-") (attributes element)
                         = (name, value) :: rest).
  { unfold _hasDataAttribute in H. induction (attributes element) as [|[n v] l IH].
    - discriminate.
    - cbn [existsb fst] in H. destruct (JS.startsWith n "data-") eqn:S.
      + exists [], n, v, l. repeat split; auto. eexists. cbn [filter fst]. rewrite S. reflexivity.
      + cbn in H. destruct (IH H) as (earlier & name & value & later & -> & Sn & Fe & rest & Fr).
        exists ((n, v) :: earlier), name, value, later. repeat split; auto.
        exists rest. cbn [filter fst app]. now rewrite S. }
  destruct F as (earlier & name & value & later & E & Sn & Fe & rest & Fr).
  exists earlier, name, value, later. do 3 (split; [assumption|]).
  unfold _getBestAttributeSelector, classSelector, dataSelector.
  cbn [String.eqb Ascii.eqb Bool.eqb andb]. now rewrite Fr.
Qed.

(* ------------------------------------------------------------------------- *)
(** ** The recommendation built from the candidates *)

(** X7.  With at least one candidate, the primary selector is that of the
    first candidate of greatest score in the order the strategies pushed
    them (role, id, data, class; document order inside a strategy): every
    earlier candidate scores strictly less and no later one scores more.
    The reported score and type are that candidate's, and the feature is
    reliable when that score exceeds 85. *)
Theorem X7_primary_is_first_best (candidates : list Candidate.t) :
  candidates <> [] ->
  exists earlier best later,
    candidates = earlier ++ best :: later /\
    Forall (fun c => (Candidate.stabilityScore c < Candidate.stabilityScore best)%Z) earlier /\
    Forall (fun c => (Candidate.stabilityScore c <= Candidate.stabilityScore best)%Z) later /\
    Recommendation.primarySelector (Browser.recommend candidates)
      = Some (Candidate.selector best) /\
    Recommendation.stabilityScore (Browser.recommend candidates)
      = Candidate.stabilityScore best /\
    Recommendation.selectorType (Browser.recommend candidates) = Some (Candidate.type best) /\
    Recommendation.isReliable (Browser.recommend candidates)
      = (85 <? Candidate.stabilityScore best)%Z.
Proof.
  intros N. unfold Browser.recommend.
  destruct (JS.sort Browser.byScoreDescending candidates) as [|best rest] eqn:S.
  - exfalso. apply N.
    pose proof (sort_perm Browser.byScoreDescending candidates) as P. rewrite S in P.
    now apply Permutation_nil in P.
  - destruct (sort_first_greatest Candidate.stabilityScore _ _ _ S)
      as (earlier & later & E & He & Hl).
    exists earlier, best, later. cbn. repeat split; auto. apply Z.gtb_ltb.
Qed.

Lemma in_firstn {A} (n : nat) (l : list A) (x : A) : In x (firstn n l) -> In x l.
Proof. intros H. rewrite <- (firstn_skipn n l). apply in_or_app. now left. Qed.

Lemma firstn_skipn_length {A} (l : list A) :
  List.length (JS.slice 1 4 l) = Nat.min 3 (List.length l - 1).
Proof.
  unfold JS.slice. cbn [Nat.sub]. rewrite length_firstn, length_skipn. reflexivity.
Qed.

(** X8.  There are never more than three alternative selectors: their
    number is the number of candidates beyond the first, up to 3.  Each is
    the selector of a candidate, none of which scores above the reported
    score. *)
Theorem X8_alternatives (candidates : list Candidate.t) :
  List.length (Recommendation.alternativeSelectors (Browser.recommend candidates))
    = Nat.min 3 (List.length candidates - 1) /\
  forall selector,
    In selector (Recommendation.alternativeSelectors (Browser.recommend candidates)) ->
    exists c, In c candidates /\ Candidate.selector c = selector /\
              (Candidate.stabilityScore c
               <= Recommendation.stabilityScore (Browser.recommend candidates))%Z.
Proof.
  unfold Browser.recommend.
  pose proof (sort_perm Browser.byScoreDescending candidates) as P.
  destruct (JS.sort Browser.byScoreDescending candidates) as [|best rest] eqn:S.
  - apply Permutation_nil in P. subst candidates. cbn. split; [reflexivity | intros ? []].
  - cbn [Recommendation.alternativeSelectors Recommendation.stabilityScore]. split.
    + rewrite length_map, firstn_skipn_length, <- (Permutation_length P). reflexivity.
    + intros selector Hs. apply in_map_iff in Hs as (c & <- & Hc).
      unfold JS.slice in Hc. cbn [Nat.sub skipn] in Hc. apply in_firstn in Hc.
      exists c. split; [apply (Permutation_in _ P); now right|]. split; [reflexivity|].
      destruct (sort_head _ _ _ S) as [_ M]. apply M.
      apply (Permutation_in _ P). now right.
Qed.

(* ------------------------------------------------------------------------- *)
(** ** The selectors written by the role strategy *)

Lemma append_empty_r (s : string) : (s ++ "")%string = s.
Proof. induction s as [|c s IH]; cbn; [reflexivity | now rewrite IH]. Qed.

Lemma string_app_assoc (a b c : string) : ((a ++ b) ++ c)%string = (a ++ b ++ c)%string.
Proof. induction a as [|x a IH]; cbn; [reflexivity | now rewrite IH]. Qed.

Lemma join_app (xs ys : list string) : JS.join (xs ++ ys) = (JS.join xs ++ JS.join ys)%string.
Proof.
  unfold JS.join. induction xs as [|x xs IH]; cbn [app fold_right]; [reflexivity|].
  now rewrite IH, string_app_assoc.
Qed.

Lemma additional_selectors_closed (element : Element) :
  _generateAdditionalSelectors element =
  (JS.toLowerCase (tagName element)
   ++ match classTokens (reflected element "class") with
      | first :: _ => "." ++ first
      | [] => ""
      end
   ++ if hasParentElement element
         && existsb (fun n => String.eqb (nodeTag n) (tagName element))
                    (elementSiblingsBefore element ++ elementSiblingsAfter element)
      then ":nth-child("
           ++ JS.numberToString (S (countElementNodes (previousSiblings element))) ++ ")"
      else "")%string.
Proof.
  unfold _generateAdditionalSelectors. cbv zeta.
  set (others := elementSiblingsBefore element ++ elementSiblingsAfter element).
  assert (P : List.length (elementSiblingsBefore element)
              = countElementNodes (previousSiblings element)).
  { unfold elementSiblingsBefore. rewrite length_rev.
    induction (previousSiblings element) as [|[d|t a k] l IH]; cbn; auto. }
  assert (C : (if JS.truthy (reflected element "class")
               then match classTokens (reflected element "class") with
                    | first :: _ => [JS.toLowerCase (tagName element)] ++ [("." ++ first)%string]
                    | [] => [JS.toLowerCase (tagName element)]
                    end
               else [JS.toLowerCase (tagName element)])
              = [JS.toLowerCase (tagName element)]
                ++ match classTokens (reflected element "class") with
                   | first :: _ => [("." ++ first)%string]
                   | [] => []
                   end).
  { destruct (reflected element "class") as [|c s] eqn:R; [reflexivity|].
    cbn [JS.truthy String.eqb negb]. now destruct (classTokens (String c s)). }
  rewrite C. clear C.
  assert (Hs : (1 <? S (List.length (filter (fun n => String.eqb (nodeTag n) (tagName element))
                                           others)))%nat
              = existsb (fun n => String.eqb (nodeTag n) (tagName element)) others).
  { induction others as [|n l IH]; [reflexivity|]. cbn [filter existsb].
    destruct (String.eqb (nodeTag n) (tagName element)); [reflexivity | exact IH]. }
  assert (K : (hasParentElement element && (1 <? S (List.length others))%nat
               && existsb (fun n => String.eqb (nodeTag n) (tagName element)) others)
              = hasParentElement element
                && existsb (fun n => String.eqb (nodeTag n) (tagName element)) others).
  { destruct (hasParentElement element); [|reflexivity]. cbn [andb].
    destruct others as [|n l]; [reflexivity|]. reflexivity. }
  rewrite <- K, Hs, P.
  destruct (hasParentElement element && (1 <? S (List.length others))%nat); cbn [andb].
  - destruct (existsb _ others);
      rewrite ?join_app; destruct (classTokens (reflected element "class"));
      cbn [JS.join fold_right app];
      rewrite ?append_empty_r, ?string_app_assoc, ?append_empty_r; reflexivity.
  - rewrite ?join_app; destruct (classTokens (reflected element "class"));
      cbn [JS.join fold_right app];
      rewrite ?append_empty_r, ?string_app_assoc, ?append_empty_r; reflexivity.
Qed.


(* ------------------------------------------------------------------------- *)
(** ** More on the strategies and on the whole analysis *)

Lemma findMatchingElement_in_pool (beforeEl best : Element) (pool : list Element) :
  _findMatchingElement beforeEl pool = Normal (Some best) -> In best pool.
Proof.
  intros H. apply findMatchingElement_some in H as (_ & earlier & later & -> & _).
  apply in_app_iff. right. now left.
Qed.

Section StrategyProperties.

Context {Document : Type}.
Variable querySelectorAll : Document -> string -> Completion (list Element).

(** X9.  Every retained candidate carries one of four type strings, which
    for the data strategy is ["data--based"] with two hyphens, and a score
    in the range of its strategy: 90 to 110 for role, 93 to 105 for id, 88
    to 100 for data and 78 to 90 for class. *)
Theorem X9_candidate_types_and_ranges (beforeDOM afterDOM : Document) (role : string)
  (keyTerms : list string) (candidates : list Candidate.t) (c : Candidate.t) :
  Browser._findStableElementsMatchingFeature querySelectorAll beforeDOM afterDOM role keyTerms
    = Normal candidates ->
  In c candidates ->
  (Candidate.type c = "role-based"%string /\ (90 <= Candidate.stabilityScore c <= 110)%Z) \/
  (Candidate.type c = "id-based"%string /\ (93 <= Candidate.stabilityScore c <= 105)%Z) \/
  (Candidate.type c = "data--based"%string /\ (88 <= Candidate.stabilityScore c <= 100)%Z) \/
  (Candidate.type c = "class-based"%string /\ (78 <= Candidate.stabilityScore c <= 90)%Z).
Proof.
  intros H Hc.
  destruct (candidate_score_formula querySelectorAll _ _ _ _ _ _ H Hc)
    as [[T S]|[[T S]|[[T S]|[T S]]]]; apply scoredAs_bounds in S; try lia;
    [left | right; left | right; right; left | right; right; right]; split; auto; lia.
Qed.

Lemma roleStep_selectors (role : string) (keyTerms : list string)
  (afterElements beforeElements : list Element) (candidates result : list Candidate.t)
  (c : Candidate.t) :
  forEachM (Browser.roleStep role keyTerms afterElements) beforeElements candidates
    = Normal result ->
  In c result ->
  In c candidates \/
  exists matched,
    In matched afterElements /\
    Candidate.selector c
      = (Browser.roleSelector role ++ _generateAdditionalSelectors matched)%string.
Proof.
  revert candidates. induction beforeElements as [|b bs IH]; intros candidates; cbn [forEachM].
  - intros E. injection E as <-. auto.
  - unfold Browser.roleStep at 1.
    destruct (_calculateTermMatchScore b keyTerms >? 0)%Z; cbn [bind]; [|apply IH].
    destruct (_findMatchingElement b afterElements) as [[m|]|e] eqn:M; cbn [bind];
      [|apply IH|discriminate].
    intros F Hc. destruct (IH _ F Hc) as [I|I]; [|auto].
    apply in_app_iff in I as [I|[<-|[]]]; [auto|]. right.
    exists m. split; [now apply (findMatchingElement_in_pool b)|reflexivity].
Qed.

(** X11.  The selector of a role candidate is [[role="..."]] followed
    directly by the qualifier of the element matched in the after-tree,
    which begins with its lower-cased tag name. *)
Theorem X11_role_candidate_selector (beforeDOM afterDOM : Document) (role : string)
  (keyTerms : list string) (result : list Candidate.t) (c : Candidate.t) :
  Browser._addCandidatesWithRole querySelectorAll beforeDOM afterDOM role keyTerms [] = Normal result ->
  In c result ->
  exists afterElements matched rest,
    querySelectorAll afterDOM (Browser.roleSelector role) = Normal afterElements /\
    In matched afterElements /\
    _generateAdditionalSelectors matched = (JS.toLowerCase (tagName matched) ++ rest)%string /\
    Candidate.selector c
      = (Browser.roleSelector role ++ JS.toLowerCase (tagName matched) ++ rest)%string.
Proof.
  unfold Browser._addCandidatesWithRole.
  destruct (querySelectorAll beforeDOM _) as [bs|]; [|discriminate].
  destruct (querySelectorAll afterDOM _) as [ys|] eqn:A; [|discriminate].
  cbn [bind]. intros F Hc.
  destruct (roleStep_selectors _ _ _ _ _ _ _ F Hc) as [[]|(m & Hm & S)].
  exists ys, m. eexists. split; [reflexivity|]. split; [assumption|].
  rewrite S. split; [|f_equal]; apply additional_selectors_closed.
Qed.

End StrategyProperties.

(* ------------------------------------------------------------------------- *)
(** ** When the analysis completes and what its report contains *)


Lemma Forall2_map_fst {A B C} (f : A -> C) (R : A -> C * B -> Prop) (xs : list A)
  (ys : list (C * B)) :
  (forall x y, R x y -> fst y = f x) -> Forall2 R xs ys -> map fst ys = map f xs.
Proof.
  intros H. induction 1 as [|x y xs ys Hxy F IH]; cbn; [reflexivity|].
  now rewrite IH, (H _ _ Hxy).
Qed.

Section ReportProperties.

Context {Document : Type}.
Variable querySelectorAll : Document -> string -> Completion (list Element).

(** The role strategy after its two queries: it throws a [TypeError] when
    a before-element that matches a key term clashes with a candidate, and
    returns otherwise. *)
Lemma role_strategy_outcome (beforeDOM afterDOM : Document) (role : string)
  (keyTerms : list string) (candidates : list Candidate.t)
  (beforePool afterPool : list Element) :
  querySelectorAll beforeDOM (Browser.roleSelector role) = Normal beforePool ->
  querySelectorAll afterDOM (Browser.roleSelector role) = Normal afterPool ->
  ((exists b a, In b beforePool /\ (0 < _calculateTermMatchScore b keyTerms)%Z /\
                In a afterPool /\ clash b a = true) /\
   Browser._addCandidatesWithRole querySelectorAll beforeDOM afterDOM role keyTerms candidates
     = Throw TypeError)
  \/ ((forall b a, In b beforePool -> (0 < _calculateTermMatchScore b keyTerms)%Z ->
                    In a afterPool -> clash b a = false) /\
       exists result,
         Browser._addCandidatesWithRole querySelectorAll beforeDOM afterDOM role keyTerms
           candidates = Normal result).
Proof.
  intros B A. unfold Browser._addCandidatesWithRole. rewrite B, A. cbn [bind].
  destruct (roleLoop_outcome role keyTerms afterPool beforePool candidates)
    as [[(b & I & T & C) F]|[N F]].
  - left. split; [|exact F]. apply existsb_exists in C as (a & Ia & Ca). now exists b, a.
  - right. split; [|exact F]. intros b a Ib T Ia.
    destruct (clash b a) eqn:C; [|reflexivity].
    assert (X : existsb (clash b) afterPool = true) by (apply existsb_exists; eauto).
    rewrite (N b Ib T) in X. discriminate.
Qed.


(** When its role queries return, a feature ends with its candidates or
    with a [TypeError], never with the error of a selector. *)
Lemma feature_outcome (beforeDOM afterDOM : Document) (role : string)
  (keyTerms : list string) (beforePool afterPool : list Element) :
  querySelectorAll beforeDOM (Browser.roleSelector role) = Normal beforePool ->
  querySelectorAll afterDOM (Browser.roleSelector role) = Normal afterPool ->
  Browser._findStableElementsMatchingFeature querySelectorAll beforeDOM afterDOM role keyTerms
    = Throw TypeError
  \/ exists candidates,
       Browser._findStableElementsMatchingFeature querySelectorAll beforeDOM afterDOM role
         keyTerms = Normal candidates.
Proof.
  intros B A. unfold Browser._findStableElementsMatchingFeature. cbv zeta.
  destruct (JS.truthy role); cbn [bind]; [|right; eauto].
  destruct (role_strategy_outcome beforeDOM afterDOM role keyTerms [] _ _ B A)
    as [[_ F]|[_ (result & F)]]; rewrite F; cbn [bind]; [now left | right; eauto].
Qed.





(** X13.  A report holds one stability record for each of the six attribute
    names and one recommendation for each of the five features, both in
    the order of their catalogs, whether or not anything was found. *)
Theorem X13_report_is_complete (beforeDOM afterDOM : Document) (report : Report.t) :
  Browser.analyzeChanges querySelectorAll beforeDOM afterDOM = Normal report ->
  map fst (Report.stableAttributes report)
    = ["id"; "class"; "data-testid"; "role"; "aria-label"; "name"]%string /\
  map fst (Report.recommendedAnchors report)
    = ["MessageList"; "ComposeButton"; "FolderPane"; "ReadingPane"; "CommandBar"]%string.
Proof.
  unfold Browser.analyzeChanges.
  destruct (Browser.findStableAttributes querySelectorAll beforeDOM afterDOM) as [sa|] eqn:SA;
    cbn [bind]; [|discriminate].
  destruct (Browser.generateAnchorRecommendations querySelectorAll beforeDOM afterDOM)
    as [ra|] eqn:RA; cbn [bind]; [|discriminate].
  intros [= <-]. cbn [Report.stableAttributes Report.recommendedAnchors].
  apply findStableAttributes_spec in SA. apply generateAnchorRecommendations_spec in RA.
  split.
  - assert (E : map fst sa = map (fun x => x) Browser.attributesToCheck).
    { eapply Forall2_map_fst; [|exact SA]. cbn beta.
      intros x y (bs & ys & _ & _ & ->). reflexivity. }
    rewrite E, map_id. reflexivity.
  - assert (E : map fst ra = map Browser.name Browser.criticalFeatures).
    { eapply Forall2_map_fst; [|exact RA]. cbn beta.
      intros x y (cs & _ & ->). reflexivity. }
    rewrite E. reflexivity.
Qed.





End ReportProperties.

(* ------------------------------------------------------------------------- *)
(** ** More on attribute stability and on the landmark lookup *)

Lemma NoDup_same_length {A} (l1 l2 : list A) :
  NoDup l1 -> NoDup l2 -> (forall x, In x l1 <-> In x l2) ->
  List.length l1 = List.length l2.
Proof.
  intros N1 N2 H. apply Nat.le_antisymm; apply NoDup_incl_length; auto;
    intros x Hx; now apply H.
Qed.

Section SwapProperties.

Context {Document : Type}.
Variable querySelectorAll : Document -> string -> Completion (list Element).

(** X14.  Exchanging the two documents exchanges the two totals of every
    attribute and keeps the number of common values and the set of stable
    values (their order may differ, and so may the score, whose divisor is
    the before-total). *)
Theorem X14_swap_documents (domA domB : Document)
  (forward backward : list (string * AttributeStability.t)) (attrType : string)
  (r r' : AttributeStability.t) :
  Browser.findStableAttributes querySelectorAll domA domB = Normal forward ->
  Browser.findStableAttributes querySelectorAll domB domA = Normal backward ->
  In (attrType, r) forward ->
  In (attrType, r') backward ->
  AttributeStability.totalBefore r = AttributeStability.totalAfter r' /\
  AttributeStability.totalAfter r = AttributeStability.totalBefore r' /\
  AttributeStability.commonCount r = AttributeStability.commonCount r' /\
  (forall v, In v (AttributeStability.stableValues r) <->
             In v (AttributeStability.stableValues r')).
Proof.
  intros F B Hr Hr'.
  destruct (stableAttributes_entry querySelectorAll _ _ _ _ _ F Hr)
    as (_ & bs & ys & Qa & Qb & ->).
  destruct (stableAttributes_entry querySelectorAll _ _ _ _ _ B Hr')
    as (_ & bs' & ys' & Qb' & Qa' & ->).
  rewrite Qb in Qb'. injection Qb' as <-. rewrite Qa in Qa'. injection Qa' as <-.
  destruct (attributeStability_counts attrType bs ys) as (Tb & Ta & Cc & Nd & Sv & _).
  destruct (attributeStability_counts attrType ys bs) as (Tb' & Ta' & Cc' & Nd' & Sv' & _).
  cbv zeta in *.
  assert (S : forall v,
            In v (AttributeStability.stableValues (Browser.attributeStability attrType bs ys)) <->
            In v (AttributeStability.stableValues (Browser.attributeStability attrType ys bs))).
  { intros v. rewrite Sv, Sv'. intuition. }
  split; [congruence|]. split; [congruence|]. split; [|exact S].
  rewrite Cc, Cc'. now apply NoDup_same_length.
Qed.

(** X15.  The change records follow the order of the landmark catalog, with
    at most one record per landmark: never more than five, and no name
    twice. *)
Theorem X15_change_records_follow_catalog (beforeDOM afterDOM : Document) :
  map Change.elementName (Browser.identifyChangedSelectors querySelectorAll beforeDOM afterDOM)
    = map fst
        (filter (fun element =>
                   Browser.hasChanged
                     (Browser._findElementMatchingSelectors querySelectorAll beforeDOM (snd element))
                     (Browser._findElementMatchingSelectors querySelectorAll afterDOM (snd element)))
                Browser.criticalElements) /\
  (List.length (Browser.identifyChangedSelectors querySelectorAll beforeDOM afterDOM) <= 5)%nat /\
  NoDup (map Change.elementName
           (Browser.identifyChangedSelectors querySelectorAll beforeDOM afterDOM)).
Proof.
  assert (E : map Change.elementName
                (Browser.identifyChangedSelectors querySelectorAll beforeDOM afterDOM)
              = map fst
                  (filter (fun element =>
                     Browser.hasChanged
                       (Browser._findElementMatchingSelectors querySelectorAll beforeDOM (snd element))
                       (Browser._findElementMatchingSelectors querySelectorAll afterDOM (snd element)))
                     Browser.criticalElements)).
  { unfold Browser.identifyChangedSelectors. rewrite identify_flat_map. cbn [app].
    induction Browser.criticalElements as [|e l IH]; [reflexivity|].
    cbn [flat_map filter]. rewrite map_app, IH. unfold Browser.changeStep.
    destruct (Browser.hasChanged _ _); reflexivity. }
  split; [exact E|]. split.
  - rewrite <- (length_map Change.elementName), E, length_map.
    pose proof (filter_length_le
                  (fun element =>
                     Browser.hasChanged
                       (Browser._findElementMatchingSelectors querySelectorAll beforeDOM (snd element))
                       (Browser._findElementMatchingSelectors querySelectorAll afterDOM (snd element)))
                  Browser.criticalElements) as L.
    cbn [List.length Browser.criticalElements] in L. exact L.
  - rewrite E.
    assert (N : NoDup (map fst Browser.criticalElements)).
    { cbn. repeat constructor; cbn; intuition discriminate. }
    revert N. generalize Browser.criticalElements as l.
    induction l as [|e l IH]; intros N; [constructor|].
    cbn [map] in N. inversion N as [|? ? Hn N']; subst. cbn [filter].
    destruct (Browser.hasChanged _ _); [|now apply IH].
    cbn [map]. constructor; [|now apply IH].
    intros H. apply Hn. apply in_map_iff in H as (x & Hx & Hin).
    apply filter_In in Hin as [Hin _]. apply in_map_iff. eauto.
Qed.

(** X16.  The lookup of a landmark stops at the first selector of its list
    that finds an element: the earlier ones found nothing or threw, and the
    outcome names that selector and describes the first element it selects.
    When no selector finds anything the outcome is [{ found: false }]. *)
Theorem X16_first_matching_selector (dom : Document) (selectors : list string) :
  (exists earlier selector later element others,
     selectors = earlier ++ selector :: later /\
     Forall (fun s => matchesIn querySelectorAll dom s = false) earlier /\
     querySelectorAll dom selector = Normal (element :: others) /\
     Browser._findElementMatchingSelectors querySelectorAll dom selectors
       = {| MatchOutcome.found := true;
            MatchOutcome.selector := Some selector;
            MatchOutcome.element := Some (_getElementMetadata element) |}) \/
  (Forall (fun s => matchesIn querySelectorAll dom s = false) selectors /\
   Browser._findElementMatchingSelectors querySelectorAll dom selectors = Browser.notFound).
Proof.
  induction selectors as [|s rest IH].
  - right. split; [constructor | reflexivity].
  - cbn [Browser._findElementMatchingSelectors].
    assert (M : matchesIn querySelectorAll dom s
                = match Browser.querySelector querySelectorAll dom s with
                  | Normal (Some _) => true | _ => false end) by reflexivity.
    unfold Browser.querySelector in *.
    destruct (querySelectorAll dom s) as [[|el others]|e] eqn:Q; cbn [bind hd_error] in *.
    + destruct IH as [(earlier & sel & later & element & os & -> & F & Qs & ->)|[F ->]].
      * left. exists (s :: earlier), sel, later, element, os. repeat split; auto.
      * right. split; [constructor; assumption | reflexivity].
    + left. exists [], s, rest, el, others. repeat split; auto.
    + destruct IH as [(earlier & sel & later & element & os & -> & F & Qs & ->)|[F ->]].
      * left. exists (s :: earlier), sel, later, element, os. repeat split; auto.
      * right. split; [constructor; assumption | reflexivity].
Qed.

End SwapProperties.

(** *** The order of the keys of the attributes object *)

Lemma create_other (o : JS.Obj) (k v : string) :
  JS.arrayIndex k = None -> JS.create o k v = o ++ [(k, v)].
Proof.
  intros K. induction o as [|[k' v'] o IH]; cbn [JS.create app]; [reflexivity|].
  unfold JS.keyPrecedes. rewrite K. now rewrite IH.
Qed.

Lemma precedes_other (k y : string) :
  JS.arrayIndex k <> None -> JS.arrayIndex y = None -> JS.keyPrecedes k y = true.
Proof.
  intros K Y. unfold JS.keyPrecedes. rewrite Y. now destruct (JS.arrayIndex k).
Qed.

(** A new array index goes between the indices that it does not precede
    and the first one that it precedes. *)
Lemma keys_create_index (o : JS.Obj) (k v : string) (indices others : list string) :
  JS.arrayIndex k <> None ->
  JS.keys o = indices ++ others ->
  Forall (fun y => JS.arrayIndex y = None) others ->
  exists lower upper,
    indices = lower ++ upper /\
    JS.keys (JS.create o k v) = lower ++ k :: upper ++ others /\
    Forall (fun y => JS.keyPrecedes k y = false) lower /\
    match upper with [] => True | y :: _ => JS.keyPrecedes k y = true end.
Proof.
  intros K. revert indices. unfold JS.keys.
  induction o as [|[k' v'] o IH]; intros indices E O; cbn [map fst] in E.
  - symmetry in E. apply app_eq_nil in E as [-> ->]. exists [], []. cbn. auto.
  - destruct indices as [|y indices]; cbn [app] in E.
    + exists [], []. cbn [JS.create app].
      assert (P : JS.keyPrecedes k k' = true).
      { apply precedes_other; [exact K|]. subst others. now inversion O. }
      rewrite P. cbn [map fst]. rewrite E. auto.
    + injection E as <- E. cbn [JS.create].
      destruct (JS.keyPrecedes k k') eqn:P.
      * exists [], (k' :: indices). cbn [app map fst]. rewrite E. auto.
      * destruct (IH indices E O) as (lower & upper & -> & C & L & U).
        exists (k' :: lower), upper. cbn [app map fst]. rewrite C.
        split; [reflexivity|]. split; [reflexivity|]. split; [|exact U].
        constructor; assumption.
Qed.

Lemma sorted_insert (lower upper : list string) (k : string) :
  Forall (fun y => JS.arrayIndex y <> None) (lower ++ upper) ->
  JS.arrayIndex k <> None ->
  StronglySorted (fun a b => JS.keyPrecedes b a = false) (lower ++ upper) ->
  Forall (fun y => JS.keyPrecedes k y = false) lower ->
  match upper with [] => True | y :: _ => JS.keyPrecedes k y = true end ->
  StronglySorted (fun a b => JS.keyPrecedes b a = false) (lower ++ k :: upper).
Proof.
  intros I K. induction lower as [|y lower IH]; cbn [app] in *; intros S L U.
  - constructor; [exact S|].
    destruct upper as [|y0 upper]; [constructor|].
    inversion S as [|? ? S' F0]; subst.
    assert (F : Forall (fun z => JS.keyPrecedes z y0 = false) (y0 :: upper)).
    { constructor; [|exact F0]. unfold JS.keyPrecedes.
      destruct (JS.arrayIndex y0); [apply N.ltb_irrefl | reflexivity]. }
    apply Forall_forall. intros z Hz.
    pose proof (proj1 (Forall_forall _ _) F z Hz) as Rz.
    pose proof (proj1 (Forall_forall _ _) I z Hz) as Iz. cbv beta in Rz, Iz.
    pose proof (Forall_inv I) as I0. cbv beta in I0.
    unfold JS.keyPrecedes in *.
    destruct (JS.arrayIndex k) as [i|]; [|contradiction].
    destruct (JS.arrayIndex y0) as [j0|]; [|contradiction].
    destruct (JS.arrayIndex z) as [j|]; [|contradiction].
    apply N.ltb_lt in U. apply N.ltb_ge in Rz. apply N.ltb_ge. lia.
  - inversion S as [|? ? S' F0]; subst. inversion L as [|? ? L0 L']; subst.
    inversion I as [|? ? I0 I']; subst.
    constructor; [now apply IH|].
    apply Forall_app in F0 as [F1 F2]. apply Forall_app. split; [exact F1|].
    constructor; [exact L0 | exact F2].
Qed.

Lemma attributes_in_order (attrs : list (string * string)) :
  forall (o : JS.Obj) (indices others : list string),
    JS.keys o = indices ++ others ->
    Forall (fun y => JS.arrayIndex y <> None) indices ->
    Forall (fun y => JS.arrayIndex y = None) others ->
    StronglySorted (fun a b => JS.keyPrecedes b a = false) indices ->
    NoDup (map fst attrs) ->
    (forall k, In k (map fst attrs) -> ~ In k (JS.keys o)) ->
    exists indices',
      JS.keys (fold_left (fun a attr => JS.set a (fst attr) (snd attr)) attrs o)
      = indices'
        ++ others
        ++ filter (fun name => match JS.arrayIndex name with
                               | Some _ => false
                               | None => negb (name =? "__proto__")
                               end) (map fst attrs) /\
      Forall (fun y => JS.arrayIndex y <> None) indices' /\
      StronglySorted (fun a b => JS.keyPrecedes b a = false) indices' /\
      forall n, In n indices' <->
                In n indices \/ (In n (map fst attrs) /\ JS.arrayIndex n <> None).
Proof.
  induction attrs as [|[k v] attrs IH]; intros o indices others E I O S D Fresh;
    cbn [fold_left map fst snd filter].
  - exists indices. rewrite app_nil_r. repeat split; auto. intros [H|[[] _]]; exact H.
  - inversion D as [|? ? Dk D']; subst.
    assert (Nk : ~ In k (JS.keys o)) by (apply Fresh; now left).
    assert (H : JS.hasOwn o k = false).
    { destruct (JS.hasOwn o k) eqn:H; [|reflexivity]. now apply hasOwn_true_iff in H. }
    unfold JS.set at 2. rewrite H.
    assert (Fresh' : forall o', (forall n, In n (JS.keys o') -> n = k \/ In n (JS.keys o)) ->
                     forall k0, In k0 (map fst attrs) -> ~ In k0 (JS.keys o')).
    { intros o' Ho' k0 Hk0 Hin. destruct (Ho' _ Hin) as [->|Hin']; [contradiction|].
      apply (Fresh k0); [now right | exact Hin']. }
    destruct (String.eqb_spec k "__proto__") as [->|Np].
    + (* no property is created *)
      destruct (IH o indices others E I O S D') as (indices' & K & I' & S' & M).
      { intros k0 Hk0. apply Fresh. now right. }
      exists indices'. change (JS.arrayIndex "__proto__") with (@None N). cbn [negb].
      split; [exact K|]. split; [exact I'|]. split; [exact S'|].
      intros n. rewrite M. cbn [In]. split; [tauto|].
      intros [Hn|[Hm Ix]]; auto. destruct Hm as [Hm|Hm]; auto. subst n.
      exfalso. now apply Ix.
    + destruct (JS.arrayIndex k) as [i|] eqn:Ak.
      * (* a new array index *)
        assert (Ik : JS.arrayIndex k <> None) by congruence.
        destruct (keys_create_index o k v indices others Ik E O)
          as (lower & upper & -> & C & L & U).
        destruct (IH (JS.create o k v) (lower ++ k :: upper) others) as (indices' & K & I' & S' & M).
        { rewrite C, <- app_assoc. reflexivity. }
        { apply Forall_app in I as [I1 I2]. apply Forall_app. split; [exact I1|].
          constructor; assumption. }
        { exact O. }
        { now apply sorted_insert. }
        { exact D'. }
        { apply Fresh'. intros n Hn. now apply in_keys_create in Hn. }
        exists indices'. split; [exact K|]. split; [exact I'|]. split; [exact S'|].
        intros n. rewrite M, !in_app_iff. cbn [In].
        intuition (subst; auto).
      * (* another name goes last *)
        rewrite (create_other o k v Ak).
        destruct (IH (o ++ [(k, v)]) indices (others ++ [k])) as (indices' & K & I' & S' & M).
        { unfold JS.keys in *. rewrite map_app, E, <- app_assoc. reflexivity. }
        { exact I. }
        { apply Forall_app. split; [exact O|]. constructor; [exact Ak | constructor]. }
        { exact S. }
        { exact D'. }
        { apply Fresh'. intros n. unfold JS.keys. rewrite map_app, in_app_iff. cbn.
          intuition. }
        exists indices'. cbn [negb].
        split; [rewrite K, <- app_assoc; reflexivity|]. split; [exact I'|].
        split; [exact S'|].
        intros n. rewrite M. cbn [In]. split; [tauto|].
        intros [Hn|[Hm Ix]]; auto. destruct Hm as [Hm|Hm]; auto. subst n.
        exfalso. now apply Ix.
Qed.

(** The keys of [<div id="x" 2="b" __proto__="p" 1="a">]. *)
Example attributes_object_keys :
  JS.keys (_getAttributes Examples.numbered) = ["1"; "2"; "id"]%string /\
  JS.read (_getAttributes Examples.numbered) "__proto__" = JS.member.
Proof. split; reflexivity. Qed.

(** X17.  For an element whose attribute names are distinct, as the DOM
    keeps them, the object built by [_getAttributes] has an own property
    for every attribute but one named [__proto__], and each reads back the
    attribute's value.  Its keys are the attribute names that are array
    indices, in ascending order, followed by the other names in source
    order. *)
Theorem X17_attributes_object (element : Element) :
  NoDup (map fst (attributes element)) ->
  (forall name,
     JS.get (_getAttributes element) name
     = if name =? "__proto__" then None else getAttribute element name) /\
  exists indices,
    JS.keys (_getAttributes element)
    = indices
      ++ filter (fun name => match JS.arrayIndex name with
                             | Some _ => false
                             | None => negb (name =? "__proto__")
                             end) (map fst (attributes element)) /\
    (forall name, In name indices <->
                  In name (map fst (attributes element)) /\ JS.arrayIndex name <> None) /\
    StronglySorted (fun a b => JS.keyPrecedes b a = false) indices.
Proof.
  intros D. split; [intros name; now apply get_getAttributes|].
  destruct (attributes_in_order (attributes element) [] [] [] eq_refl
              (Forall_nil _) (Forall_nil _) (SSorted_nil _) D (fun _ _ H => H))
    as (indices & K & _ & S & M).
  exists indices. split; [exact K|]. split; [|exact S].
  intros name. rewrite M. cbn [In]. intuition.
Qed.

(* ------------------------------------------------------------------------- *)
(** ** What a document compared with itself retains *)





Section SelfComparison.

Context {Document : Type}.
Variable querySelectorAll : Document -> string -> Completion (list Element).



End SelfComparison.

(* ------------------------------------------------------------------------- *)
(** ** The command-line variant *)

Section CliProperties.

Context {Document : Type}.
Variable querySelectorAll : Document -> string -> Completion (list Element).

Lemma countStep_append (beforeDOM afterDOM : Document) (acc : list Cli.CountChange.t)
  (selector : string) :
  Cli.countStep querySelectorAll beforeDOM afterDOM acc selector =
  acc ++ Cli.countStep querySelectorAll beforeDOM afterDOM [] selector.
Proof.
  unfold Cli.countStep.
  destruct (querySelectorAll beforeDOM selector) as [bs|]; [|now rewrite app_nil_r].
  destruct (querySelectorAll afterDOM selector) as [ys|]; [|now rewrite app_nil_r].
  destruct (negb _); [reflexivity | now rewrite app_nil_r].
Qed.

Lemma count_changes_flat_map (beforeDOM afterDOM : Document) (selectors : list string)
  (acc : list Cli.CountChange.t) :
  fold_left (Cli.countStep querySelectorAll beforeDOM afterDOM) selectors acc =
  acc ++ flat_map (Cli.countStep querySelectorAll beforeDOM afterDOM []) selectors.
Proof.
  revert acc. induction selectors as [|s l IH]; intros acc; cbn [fold_left flat_map].
  - now rewrite app_nil_r.
  - rewrite IH, countStep_append, app_assoc. reflexivity.
Qed.

Lemma count_change_records (beforeDOM afterDOM : Document) (record : Cli.CountChange.t) :
  In record (Cli.identifyChangedSelectors querySelectorAll beforeDOM afterDOM) <->
  exists selector beforeElements afterElements,
    In selector Cli.selectorsToCheck /\
    querySelectorAll beforeDOM selector = Normal beforeElements /\
    querySelectorAll afterDOM selector = Normal afterElements /\
    List.length beforeElements <> List.length afterElements /\
    record = {| Cli.CountChange.selector := selector;
                Cli.CountChange.beforeCount := List.length beforeElements;
                Cli.CountChange.afterCount := List.length afterElements;
                Cli.CountChange.change :=
                  if (List.length beforeElements <? List.length afterElements)%nat
                  then Cli.increased else Cli.decreased |}.
Proof.
  unfold Cli.identifyChangedSelectors. rewrite count_changes_flat_map. cbn [app].
  rewrite in_flat_map. split.
  - intros (s & Hs & Hr). unfold Cli.countStep in Hr.
    destruct (querySelectorAll beforeDOM s) as [bs|] eqn:B; [|destruct Hr].
    destruct (querySelectorAll afterDOM s) as [ys|] eqn:A; [|destruct Hr].
    destruct (Nat.eqb_spec (List.length bs) (List.length ys)) as [E|N]; cbn [negb] in Hr;
      [destruct Hr|].
    destruct Hr as [<-|[]]. exists s, bs, ys. auto.
  - intros (s & bs & ys & Hs & B & A & N & ->). exists s. split; [assumption|].
    unfold Cli.countStep. rewrite B, A.
    destruct (Nat.eqb_spec (List.length bs) (List.length ys)) as [E|_]; [contradiction|].
    now left.
Qed.

(** X20.  The command-line variant reports a selector of its list exactly
    when both count queries succeed and the two counts differ; the record
    carries the two counts and says [increased] when the after-count is the
    larger, [decreased] otherwise.  A selector whose query throws on either
    document is left out. *)
Theorem X20_count_change_records (beforeDOM afterDOM : Document) (record : Cli.CountChange.t) :
  In record (Cli.identifyChangedSelectors querySelectorAll beforeDOM afterDOM) <->
  exists selector beforeElements afterElements,
    In selector Cli.selectorsToCheck /\
    querySelectorAll beforeDOM selector = Normal beforeElements /\
    querySelectorAll afterDOM selector = Normal afterElements /\
    List.length beforeElements <> List.length afterElements /\
    record = {| Cli.CountChange.selector := selector;
                Cli.CountChange.beforeCount := List.length beforeElements;
                Cli.CountChange.afterCount := List.length afterElements;
                Cli.CountChange.change :=
                  if (List.length beforeElements <? List.length afterElements)%nat
                  then Cli.increased else Cli.decreased |}.
Proof. exact (count_change_records beforeDOM afterDOM record). Qed.

(** X21.  Read in the other direction, every count change is the same
    selector with the two counts exchanged and the trend reversed; and a
    document compared with itself has no count change. *)
Theorem X21_count_changes_reverse (domA domB : Document) (selector : string) (n m : nat) :
  (In (Cli.CountChange.mk selector n m Cli.increased)
      (Cli.identifyChangedSelectors querySelectorAll domA domB) <->
   In (Cli.CountChange.mk selector m n Cli.decreased)
      (Cli.identifyChangedSelectors querySelectorAll domB domA)) /\
  Cli.identifyChangedSelectors querySelectorAll domA domA = [].
Proof.
  split.
  - rewrite !count_change_records. split.
    + intros (s & bs & ys & Hs & B & A & N & E). exists s, ys, bs.
      injection E as -> -> -> T. repeat split; auto.
      destruct (Nat.ltb_spec (List.length bs) (List.length ys)) as [L|L]; [|discriminate].
      destruct (Nat.ltb_spec (List.length ys) (List.length bs)) as [L'|L']; [lia|reflexivity].
    + intros (s & bs & ys & Hs & B & A & N & E). exists s, ys, bs.
      injection E as -> -> -> T. repeat split; auto.
      destruct (Nat.ltb_spec (List.length bs) (List.length ys)) as [L|L]; [discriminate|].
      destruct (Nat.ltb_spec (List.length ys) (List.length bs)) as [L'|L']; [reflexivity|lia].
  - destruct (Cli.identifyChangedSelectors querySelectorAll domA domA) as [|r l] eqn:E;
      [reflexivity|].
    assert (H : In r (Cli.identifyChangedSelectors querySelectorAll domA domA))
      by (rewrite E; now left).
    apply count_change_records in H as (s & bs & ys & _ & B & A & N & _).
    rewrite B in A. injection A as <-. contradiction.
Qed.

Lemma existsInBoth_matchesIn (beforeDOM afterDOM : Document) (selector : string) :
  Cli.existsInBoth querySelectorAll beforeDOM afterDOM selector =
  matchesIn querySelectorAll beforeDOM selector && matchesIn querySelectorAll afterDOM selector.
Proof.
  unfold Cli.existsInBoth, matchesIn.
  destruct (Browser.querySelector querySelectorAll beforeDOM selector) as [[b|]|];
    [|reflexivity|reflexivity].
  destruct (Browser.querySelector querySelectorAll afterDOM selector) as [[a|]|]; reflexivity.
Qed.

Lemma cli_recommendations_map (beforeDOM afterDOM : Document) :
  Cli.generateAnchorRecommendations querySelectorAll beforeDOM afterDOM =
  map (fun feature => (Cli.name feature,
                       Cli.recommendFeature querySelectorAll beforeDOM afterDOM feature))
      Cli.features.
Proof.
  unfold Cli.generateAnchorRecommendations.
  assert (G : forall fs acc,
            fold_left (fun recommendations feature =>
                         recommendations
                           ++ [(Cli.name feature,
                                Cli.recommendFeature querySelectorAll beforeDOM afterDOM feature)])
                      fs acc
            = acc ++ map (fun feature =>
                            (Cli.name feature,
                             Cli.recommendFeature querySelectorAll beforeDOM afterDOM feature))
                         fs).
  { induction fs as [|f fs IH]; intros acc; cbn [fold_left map].
    - now rewrite app_nil_r.
    - rewrite IH, <- app_assoc. reflexivity. }
  now rewrite G.
Qed.

(** X22.  The command-line variant gives one record to each of its four
    features, in the order of the catalog.  For a feature it recommends
    the primary selector with score 90 when it finds an element in both
    documents; otherwise the alternative selector with score 70 when that
    one does, in which case the single entry of [alternativeSelectors]
    repeats the recommended selector; otherwise nothing, with score 0.  A
    selector whose query throws counts as not found, and the feature is
    reliable exactly when something is recommended. *)
Theorem X22_cli_recommendation (beforeDOM afterDOM : Document) :
  map fst (Cli.generateAnchorRecommendations querySelectorAll beforeDOM afterDOM)
  = ["MessageList"; "ComposeButton"; "FolderTree"; "ReadingPane"]%string /\
  forall (name : string) (r : Recommendation.t),
    In (name, r) (Cli.generateAnchorRecommendations querySelectorAll beforeDOM afterDOM) ->
    exists feature,
      In feature Cli.features /\ name = Cli.name feature /\
      Recommendation.alternativeSelectors r = [Cli.alternativeSelector feature] /\
      let primary := matchesIn querySelectorAll beforeDOM (Cli.selector feature)
                     && matchesIn querySelectorAll afterDOM (Cli.selector feature) in
      let alternative := matchesIn querySelectorAll beforeDOM (Cli.alternativeSelector feature)
                         && matchesIn querySelectorAll afterDOM (Cli.alternativeSelector feature) in
      (primary = true /\
       Recommendation.primarySelector r = Some (Cli.selector feature) /\
       Recommendation.stabilityScore r = 90%Z /\ Recommendation.isReliable r = true) \/
      (primary = false /\ alternative = true /\
       Recommendation.primarySelector r = Some (Cli.alternativeSelector feature) /\
       Recommendation.stabilityScore r = 70%Z /\ Recommendation.isReliable r = true) \/
      (primary = false /\ alternative = false /\
       Recommendation.primarySelector r = None /\
       Recommendation.stabilityScore r = 0%Z /\ Recommendation.isReliable r = false).
Proof.
  rewrite cli_recommendations_map. split; [reflexivity|]. intros name r H.
  apply in_map_iff in H as (feature & E & Hf). injection E as <- <-.
  exists feature. split; [assumption|]. split; [reflexivity|]. split; [reflexivity|].
  cbv zeta. rewrite <- !existsInBoth_matchesIn. unfold Cli.recommendFeature. cbn.
  destruct (Cli.existsInBoth querySelectorAll beforeDOM afterDOM (Cli.selector feature));
    [left; auto|].
  destruct (Cli.existsInBoth querySelectorAll beforeDOM afterDOM
              (Cli.alternativeSelector feature)); [right; left; auto | right; right; auto].
Qed.

End CliProperties.

(* ------------------------------------------------------------------------- *)
(** ** The structural path *)

Lemma toLowerCase_nonempty (s : string) : s <> ""%string -> JS.toLowerCase s <> ""%string.
Proof. destruct s; [congruence | discriminate]. Qed.

Lemma app_nonempty (a b : string) : a <> ""%string -> (a ++ b)%string <> ""%string.
Proof. destruct a; [congruence | discriminate]. Qed.

Lemma truthy_nonempty (s : string) : s <> ""%string -> JS.truthy s = true.
Proof. destruct s; [congruence | reflexivity]. Qed.

Lemma pathSelector_nonempty (element : Element) :
  tagName element <> ""%string -> PathModel.pathSelector element <> ""%string.
Proof.
  intros T. unfold PathModel.pathSelector. cbv zeta.
  pose proof (toLowerCase_nonempty _ T) as L.
  destruct (JS.truthy (reflected element "id")); [now apply app_nonempty|].
  destruct (existsb isElementNode (previousSiblings element)
            || existsb isElementNode (nextSiblings element));
    [now apply app_nonempty | assumption].
Qed.

Lemma joinWith_snoc (separator : string) (segments : list string) (a b : string) :
  PathModel.joinWith separator (segments ++ [(a ++ separator ++ b)%string])
  = PathModel.joinWith separator (segments ++ [a; b]).
Proof.
  induction segments as [|s l IH]; [reflexivity|].
  destruct l as [|s' l']; [reflexivity|].
  cbn [app PathModel.joinWith] in *. now rewrite IH.
Qed.

Lemma siblingIndex_count (selector : string) (siblings : list Node) (start : nat) :
  PathModel.siblingIndex_loop selector siblings start
  = (start + List.length
               (filter (fun n => isElementNode n
                                 && String.eqb (JS.toLowerCase (nodeTag n)) selector)
                       siblings))%nat.
Proof.
  revert start. induction siblings as [|[d|t a k] l IH]; intros start;
    cbn [PathModel.siblingIndex_loop filter isElementNode nodeTag andb].
  - cbn. lia.
  - apply IH.
  - rewrite IH. destruct (JS.toLowerCase t =? selector); cbn [List.length]; lia.
Qed.

Lemma path_loop_closed (chain : list Element) (path : string) :
  Forall (fun element => tagName element <> ""%string) chain ->
  PathModel._getElementPath_loop chain path
  = PathModel.joinWith " > "
      (rev (map PathModel.pathSelector chain) ++ (if JS.truthy path then [path] else [])).
Proof.
  intros F. revert path. induction F as [|element ancestors T F IH]; intros path.
  - cbn. destruct (JS.truthy path) eqn:E; [reflexivity|].
    destruct path; [reflexivity | discriminate].
  - cbn [PathModel._getElementPath_loop map rev]. rewrite IH.
    pose proof (pathSelector_nonempty element T) as N.
    rewrite (truthy_nonempty _ (app_nonempty _ _ N)).
    destruct (JS.truthy path).
    + rewrite joinWith_snoc, <- app_assoc. reflexivity.
    + rewrite append_empty_r, <- app_assoc. reflexivity.
Qed.

(** X23.  The path of an element is its own selector preceded by those of
    its ancestors, outermost first, separated by [" > "]; node names are
    never empty.  A selector is the lower-cased node name followed by [#]
    and the id when the element has a non-empty id; otherwise by
    [:nth-of-type(k)] when it has an element sibling, [k] being one more
    than the number of its previous element siblings of the same name; and
    by nothing for an only child. *)
Theorem X23_element_path (chain : list Element) :
  Forall (fun element => tagName element <> ""%string) chain ->
  PathModel._getElementPath chain
    = PathModel.joinWith " > " (map PathModel.pathSelector (rev chain)) /\
  forall element, In element chain ->
    PathModel.pathSelector element =
    if JS.truthy (reflected element "id")
    then (JS.toLowerCase (tagName element) ++ "#" ++ reflected element "id")%string
    else if existsb isElementNode (previousSiblings element ++ nextSiblings element)
    then (JS.toLowerCase (tagName element) ++ ":nth-of-type("
          ++ JS.numberToString
               (S (List.length
                     (filter (fun n => isElementNode n
                                       && String.eqb (JS.toLowerCase (nodeTag n))
                                                     (JS.toLowerCase (tagName element)))
                             (previousSiblings element))))
          ++ ")")%string
    else JS.toLowerCase (tagName element).
Proof.
  intros F. split.
  - unfold PathModel._getElementPath. rewrite (path_loop_closed chain "" F).
    cbn [JS.truthy String.eqb negb]. now rewrite app_nil_r, map_rev.
  - intros element _. unfold PathModel.pathSelector. cbv zeta.
    rewrite existsb_app, siblingIndex_count. reflexivity.
Qed.

(* ------------------------------------------------------------------------- *)
(** ** Reading the printed scores back *)

Lemma spanDigits_app (digits rest : string) :
  allDigits digits = true ->
  match rest with EmptyString => True | String c _ => isDigit c = false end ->
  Display.spanDigits (digits ++ rest) = (digits, rest).
Proof.
  intros D R. induction digits as [|c digits IH]; cbn [append Display.spanDigits].
  - destruct rest as [|c r]; [reflexivity|]. cbn [Display.spanDigits]. now rewrite R.
  - cbn [allDigits] in D. apply andb_true_iff in D as [Dc D]. rewrite Dc, (IH D). reflexivity.
Qed.

Lemma spanDigits_all (digits : string) :
  allDigits digits = true -> Display.spanDigits digits = (digits, ""%string).
Proof.
  intros D. rewrite <- (append_empty_r digits) at 1. now apply spanDigits_app.
Qed.

Lemma digitsValue_uint (d : Decimal.uint) (acc : nat) :
  Display.digitsValue_acc (NilEmpty.string_of_uint d) acc = Nat.of_uint_acc d acc.
Proof.
  revert acc. induction d; intros acc; cbn [NilEmpty.string_of_uint Display.digitsValue_acc
                                             Nat.of_uint_acc];
    [reflexivity | rewrite IHd, Nat.tail_mul_spec; f_equal; cbn; lia ..].
Qed.

Lemma digitsValue_numberToString (n : nat) : Display.digitsValue (JS.numberToString n) = n.
Proof.
  unfold Display.digitsValue, JS.numberToString, NilZero.string_of_uint.
  pose proof (Unsigned.of_to n) as E. unfold Nat.of_uint in E.
  destruct (Nat.to_uint n) eqn:U; try (rewrite digitsValue_uint; exact E).
  cbn in E. subst n. reflexivity.
Qed.

Lemma digit_value (d : nat) : (d < 10)%nat -> (nat_of_ascii (JS.digit d) - 48 = d)%nat.
Proof. intros H. do 10 (destruct d as [|d]; [reflexivity|]). lia. Qed.

(** A string that starts with a digit is read as it stands. *)
Lemma parseFloat_digit_first (c : ascii) (s : string) :
  isDigit c = true ->
  Display.parseFloat (String c s) = Display.parseUnsigned (String c s) /\
  prefix "Infinity" (String c s) = false.
Proof.
  destruct c as [[] [] [] [] [] [] [] []]; intros D; try discriminate D;
    split; reflexivity.
Qed.

Lemma parseFloat_fixed (whole fraction : string) :
  whole <> ""%string -> allDigits whole = true -> allDigits fraction = true ->
  Display.parseFloat (whole ++ "." ++ fraction)
  = Display.number (Display.mantissa whole fraction * 10 ^ 0).
Proof.
  intros N W F. destruct whole as [|c w]; [congruence|].
  assert (Dc : isDigit c = true) by (cbn [allDigits] in W; now apply andb_true_iff in W).
  destruct (parseFloat_digit_first c (w ++ "." ++ fraction) Dc) as [P I].
  change (String c w ++ "." ++ fraction)%string with (String c (w ++ "." ++ fraction)).
  rewrite P. unfold Display.parseUnsigned. rewrite I.
  change (String c (w ++ "." ++ fraction)) with (String c w ++ String "." fraction)%string.
  rewrite (spanDigits_app (String c w) (String "." fraction) W) by reflexivity.
  cbn iota. rewrite (spanDigits_all fraction F). cbn iota.
  cbn [String.eqb Ascii.eqb andb Display.exponentOf]. reflexivity.
Qed.

Lemma parseFloat_integer (n : nat) :
  Display.parseFloat (JS.numberToString n)
  = Display.number (Display.mantissa (JS.numberToString n) "" * 10 ^ 0).
Proof.
  destruct (numberToString_digits n) as [N D].
  destruct (JS.numberToString n) as [|c w] eqn:E; [congruence|].
  assert (Dc : isDigit c = true) by (cbn [allDigits] in D; now apply andb_true_iff in D).
  destruct (parseFloat_digit_first c w Dc) as [P I].
  rewrite P. unfold Display.parseUnsigned. rewrite I, (spanDigits_all _ D). cbn iota.
  reflexivity.
Qed.

Lemma parseFloat_formatHundredths (n : nat) :
  exists q, Display.parseFloat (JS.formatHundredths n) = Display.number q /\
            q == inject_Z (Z.of_nat n) / 100.
Proof.
  unfold JS.formatHundredths.
  destruct (numberToString_digits (n / 100)) as [N D].
  set (d1 := ((n mod 100) / 10)%nat). set (d2 := (n mod 10)%nat).
  assert (B1 : (d1 < 10)%nat).
  { apply Nat.Div0.div_lt_upper_bound. pose proof (Nat.mod_upper_bound n 100). lia. }
  assert (B2 : (d2 < 10)%nat) by (apply Nat.mod_upper_bound; lia).
  rewrite parseFloat_fixed; auto.
  2:{ cbn [allDigits]. now rewrite !isDigit_digit. }
  eexists. split; [reflexivity|].
  unfold Display.mantissa. rewrite digitsValue_numberToString.
  unfold Display.digitsValue. cbn [Display.digitsValue_acc String.length].
  rewrite !digit_value by assumption.
  assert (E : n = (100 * (n / 100) + (10 * d1 + d2))%nat).
  { subst d1 d2. pose proof (Nat.div_mod_eq n 100). pose proof (Nat.div_mod_eq (n mod 100) 10).
    assert ((n mod 100) mod 10 = n mod 10)%nat.
    { replace 100%nat with (10 * 10)%nat by reflexivity.
      rewrite Nat.Div0.mod_mul_r. rewrite Nat.mul_comm, Nat.Div0.mod_add.
      now rewrite Nat.Div0.mod_mod. }
    lia. }
  set (k := (n / 100)%nat) in *. clearbody k d1 d2. subst n.
  replace (10 * 0 + d1)%nat with d1 by lia.
  rewrite !Nat2Z.inj_add, !Nat2Z.inj_mul, !inject_Z_plus, !inject_Z_mult.
  change (inject_Z (Z.of_nat 100)) with 100. change (inject_Z (Z.of_nat 10)) with 10.
  change (10 ^ Z.of_nat 2) with (10 * 10). change (10 ^ 0) with 1. field.
Qed.

Lemma hundredths_nonneg (x : Q) : 0 <= x -> (0 <= JS.hundredths x)%Z.
Proof.
  intros H. unfold JS.hundredths. change 0%Z with (Qfloor (1 # 2)).
  apply Qfloor_resp_le. lra.
Qed.

Lemma printed_score_value (x : Q) :
  0 <= x ->
  exists q, Display.parseFloat (JS.toFixed2 x) = Display.number q /\
            q == inject_Z (JS.hundredths x) / 100.
Proof.
  intros H. unfold JS.toFixed2.
  destruct (parseFloat_formatHundredths (Z.to_nat (JS.hundredths x))) as (q & P & E).
  exists q. split; [exact P|]. rewrite E, Z2Nat.id by now apply hundredths_nonneg.
  reflexivity.
Qed.

Lemma floor_at_least (y : Q) (bound : Z) : (bound <= Qfloor y)%Z <-> inject_Z bound <= y.
Proof.
  split.
  - intros H. apply Qle_trans with (inject_Z (Qfloor y)); [|apply Qfloor_le].
    rewrite <- Zle_Qle. exact H.
  - intros H. rewrite <- (Qfloor_Z bound). now apply Qfloor_resp_le.
Qed.

(** Rounding to binary64 does not take a number below an integer under
    2^53 that it reaches. *)
Lemma round_ge_small (q : Q) (m : Z) :
  (1 <= m)%Z -> (Z.log2 m <= 52)%Z -> inject_Z m <= q -> inject_Z m <= Binary64.round q.
Proof.
  intros M J H.
  destruct (Z_le_gt_dec (Binary64.ulpExponent q) 0) as [E|E].
  - apply (round_ge q _ (m * 2 ^ (0 - Binary64.ulpExponent q)) H).
    rewrite <- (dyadic_multiple m 0 _ E). change (2 ^ 0) with 1. ring.
  - assert (One : Qle_bool 1 q = true).
    { apply Qle_bool_iff. apply Qle_trans with (inject_Z m); [|exact H].
      change 1 with (inject_Z 1). now rewrite <- Zle_Qle. }
    assert (L : Binary64.ilog2 q = Z.log2 (Qfloor q)).
    { unfold Binary64.ilog2. now rewrite One. }
    unfold Binary64.ulpExponent in E. rewrite L in E.
    assert (F : (0 < Qfloor q)%Z).
    { destruct (Z_lt_le_dec 0 (Qfloor q)) as [F|F]; [exact F|].
      rewrite (Z.log2_nonpos _ F) in E. lia. }
    pose proof (Z.log2_spec _ F) as [Lo _].
    set (l := Z.log2 (Qfloor q)) in *.
    assert (R : inject_Z (2 ^ l) <= q).
    { apply Qle_trans with (inject_Z (Qfloor q)); [|apply Qfloor_le].
      now rewrite <- Zle_Qle. }
    apply Qle_trans with (inject_Z (2 ^ l)).
    + rewrite <- Zle_Qle.
      assert (m < 2 ^ 53)%Z by (apply Z.log2_lt_pow2; lia).
      assert (2 ^ 53 <= 2 ^ l)%Z by (apply Z.pow_le_mono_r; lia).
      lia.
    + apply (round_ge q _ (1 * 2 ^ (l - Binary64.ulpExponent q)) R).
      rewrite <- (dyadic_multiple 1 l).
      * rewrite Zpower_Qpower by lia. change (inject_Z 2) with 2. change (inject_Z 1) with 1.
        ring.
      * unfold Binary64.ulpExponent. rewrite L. fold l. lia.
Qed.

(** Reading back a number of hundredths and comparing it with a whole
    bound is comparing the number of hundredths with a hundred times the
    bound: no binary64 number lies between the two sides. *)
Lemma atLeast_number (q : Q) (bound h : Z) :
  (1 <= bound)%Z -> (Z.log2 bound <= 45)%Z ->
  q == inject_Z h / 100 ->
  Display.atLeast (Display.number q) (inject_Z bound) = (bound * 100 <=? h)%Z.
Proof.
  intros B J E.
  assert (H100 : q * 100 == inject_Z h) by (rewrite E; field).
  assert (Big : inject_Z bound < 2 ^ 1024).
  { apply Qlt_le_trans with (inject_Z (2 ^ 46)).
    - rewrite <- Zlt_Qlt. apply Z.log2_lt_pow2; lia.
    - unfold Qle. vm_compute. discriminate. }
  unfold Display.number. cbv zeta.
  destruct (Z.leb_spec (bound * 100) h) as [L|L].
  - assert (G : inject_Z bound <= Binary64.round q).
    { apply round_ge_small; [exact B | lia |].
      rewrite Zle_Qle, inject_Z_mult in L. change (inject_Z 100) with 100 in L. lra. }
    destruct (Qle_bool (2 ^ 1024) (Binary64.round q)); cbn [Display.atLeast negb];
      [reflexivity | now apply Qle_bool_iff].
  - assert (Q0 : q <= inject_Z (128 * bound - 1) * 2 ^ (-7)).
    { change (2 ^ (-7)) with (1 # 128).
      assert (L' : (h + 1 <= bound * 100)%Z) by lia.
      rewrite Zle_Qle, inject_Z_plus, inject_Z_mult in L'.
      replace (128 * bound - 1)%Z with (128 * bound + -1)%Z by lia.
      rewrite inject_Z_plus, inject_Z_mult.
      change (inject_Z 100) with 100 in L'. change (inject_Z 128) with 128.
      change (inject_Z 1) with 1 in L'. change (inject_Z (-1)) with (- (1)). lra. }
    assert (U : (Binary64.ulpExponent q <= -7)%Z).
    { unfold Binary64.ulpExponent.
      assert (Qb : q <= inject_Z bound).
      { rewrite Zlt_Qlt, inject_Z_mult in L. change (inject_Z 100) with 100 in L. lra. }
      pose proof (ilog2_le q bound B Qb). lia. }
    assert (R : Binary64.round q <= inject_Z (128 * bound - 1) * 2 ^ (-7)).
    { apply (round_le q _ ((128 * bound - 1) * 2 ^ (-7 - Binary64.ulpExponent q)) Q0).
      now apply dyadic_multiple. }
    assert (S : Binary64.round q < inject_Z bound).
    { apply Qle_lt_trans with (inject_Z (128 * bound - 1) * 2 ^ (-7)); [exact R|].
      change (2 ^ (-7)) with (1 # 128).
      replace (128 * bound - 1)%Z with (128 * bound + -1)%Z by lia.
      rewrite inject_Z_plus, inject_Z_mult.
      change (inject_Z 128) with 128. change (inject_Z (-1)) with (- (1)). lra. }
    assert (O : Qle_bool (2 ^ 1024) (Binary64.round q) = false).
    { destruct (Qle_bool _ _) eqn:O; [|reflexivity]. apply Qle_bool_iff in O. lra. }
    rewrite O. cbn [Display.atLeast].
    destruct (Qle_bool (inject_Z bound) (Binary64.round q)) eqn:A; [|reflexivity].
    apply Qle_bool_iff in A. lra.
Qed.

(** The class of a printed non-negative score, by its number of
    hundredths. *)
Lemma scoreClass_printed (x : Q) :
  0 <= x ->
  Display.getScoreClass (JS.toFixed2 x) =
  if (8000 <=? JS.hundredths x)%Z then "score-high"%string
  else if (5000 <=? JS.hundredths x)%Z then "score-medium"%string
  else "score-low"%string.
Proof.
  intros H. destruct (printed_score_value x H) as (q & P & E).
  unfold Display.getScoreClass. cbv zeta. rewrite P.
  change (Display.atLeast (Display.number q) 80)
    with (Display.atLeast (Display.number q) (inject_Z 80)).
  change (Display.atLeast (Display.number q) 50)
    with (Display.atLeast (Display.number q) (inject_Z 50)).
  rewrite (atLeast_number q 80 _ ltac:(lia) ltac:(now cbv) E).
  rewrite (atLeast_number q 50 _ ltac:(lia) ltac:(now cbv) E).
  reflexivity.
Qed.

(** The exact percentage is at a distance from a threshold of [t] two
    hundredths that the two roundings do not cover, when [t] times the
    before-count differs from 20000 times the common count. *)
Lemma percent_above (c b t : Z) :
  (0 < b)%Z -> (200 * b < 2 ^ 45)%Z -> (t * b < 20000 * c)%Z ->
  inject_Z t / 200 + (1 # 35184372088832) <= inject_Z c / inject_Z b * 100.
Proof.
  intros Pb S H.
  assert (Pq : 0 < inject_Z b) by (change 0 with (inject_Z 0); now rewrite <- Zlt_Qlt).
  assert (Z0 : ~ inject_Z b == 0) by (intros Z0; rewrite Z0 in Pq; discriminate).
  change (2 ^ 45)%Z with 35184372088832%Z in S.
  assert (HZ : (t * b * 35184372088832 + 200 * b <= 20000 * c * 35184372088832)%Z) by lia.
  rewrite Zle_Qle, inject_Z_plus, !inject_Z_mult in HZ.
  change (inject_Z 35184372088832) with 35184372088832 in HZ.
  change (inject_Z 200) with 200 in HZ. change (inject_Z 20000) with 20000 in HZ.
  apply (Qmult_le_r _ _ (inject_Z b) Pq).
  assert (R : inject_Z c / inject_Z b * 100 * inject_Z b == inject_Z c * 100)
    by (field; exact Z0).
  assert (R' : (inject_Z t / 200 + (1 # 35184372088832)) * inject_Z b
               == inject_Z t * inject_Z b * (1 # 200) + (1 # 35184372088832) * inject_Z b)
    by field.
  rewrite R, R'. set (tb := inject_Z t * inject_Z b) in *. lra.
Qed.

Lemma percent_below (c b t : Z) :
  (0 < b)%Z -> (200 * b < 2 ^ 45)%Z -> (20000 * c < t * b)%Z ->
  inject_Z c / inject_Z b * 100 + (1 # 35184372088832) < inject_Z t / 200.
Proof.
  intros Pb S H.
  assert (Pq : 0 < inject_Z b) by (change 0 with (inject_Z 0); now rewrite <- Zlt_Qlt).
  assert (Z0 : ~ inject_Z b == 0) by (intros Z0; rewrite Z0 in Pq; discriminate).
  change (2 ^ 45)%Z with 35184372088832%Z in S.
  assert (HZ : (20000 * c * 35184372088832 + 200 * b < t * b * 35184372088832)%Z) by lia.
  rewrite Zlt_Qlt, inject_Z_plus, !inject_Z_mult in HZ.
  change (inject_Z 35184372088832) with 35184372088832 in HZ.
  change (inject_Z 200) with 200 in HZ. change (inject_Z 20000) with 20000 in HZ.
  apply (Qmult_lt_r _ _ (inject_Z b) Pq).
  assert (R : (inject_Z c / inject_Z b * 100 + (1 # 35184372088832)) * inject_Z b
              == inject_Z c * 100 + (1 # 35184372088832) * inject_Z b)
    by (field; exact Z0).
  assert (R' : inject_Z t / 200 * inject_Z b == inject_Z t * inject_Z b * (1 # 200))
    by field.
  rewrite R, R'. set (tb := inject_Z t * inject_Z b) in *. lra.
Qed.

(** The number of hundredths of the stability percentage, away from the
    ties. *)
Lemma hundredths_of_percent (common before : nat) (k : Z) :
  (0 < before)%nat -> (common <= before)%nat -> (200 * Z.of_nat before < 2 ^ 45)%Z ->
  (((2 * k - 1) * Z.of_nat before < 20000 * Z.of_nat common)%Z ->
   (k <= JS.hundredths (Browser.stabilityPercent common before))%Z) /\
  ((20000 * Z.of_nat common < (2 * k - 1) * Z.of_nat before)%Z ->
   (JS.hundredths (Browser.stabilityPercent common before) < k)%Z).
Proof.
  intros P C S.
  pose proof (stabilityPercent_error common before P C) as [Lo Hi].
  set (p := Browser.stabilityPercent common before) in *.
  set (x := inject_Z (Z.of_nat common) / inject_Z (Z.of_nat before) * 100) in *.
  assert (Pb : (0 < Z.of_nat before)%Z) by lia.
  assert (T : inject_Z (2 * k - 1) / 200 * 100 == inject_Z k - (1 # 2)).
  { replace (2 * k - 1)%Z with (2 * k + -1)%Z by lia.
    rewrite inject_Z_plus, inject_Z_mult.
    change (inject_Z 2) with 2. change (inject_Z (-1)) with (- (1)). field. }
  unfold JS.hundredths. split; intros H.
  - apply floor_at_least. pose proof (percent_above _ _ _ Pb S H) as A. fold x in A. lra.
  - assert (N : ~ (k <= Qfloor (p * 100 + (1 # 2)))%Z); [|lia].
    intros F. apply floor_at_least in F.
    pose proof (percent_below _ _ _ Pb S H) as A. fold x in A. lra.
Qed.

(** X25.  The class shown for an attribute's printed score follows the
    number of hundredths the score is printed with: [score-high] from
    80.00 on, [score-medium] from 50.00 on, [score-low] below, which
    includes every attribute absent from the before-tree.  In counts, for
    before-counts under 2^45 / 200: [score-high] when 20000 times the
    common count exceeds 15999 times the before-count (the percentage
    exceeds 79.995), [score-medium] when it is below that and exceeds 9999
    times the before-count, [score-low] when it is below that.  At the
    two ties the rounding of the binary64 division and multiplication
    decides. *)
Theorem X25_score_class_of_attribute (common before : nat) :
  (common <= before)%nat ->
  let score := Browser.stabilityPercent common before in
  let class := Display.getScoreClass (JS.toFixed2 score) in
  class = (if (8000 <=? JS.hundredths score)%Z then "score-high"%string
           else if (5000 <=? JS.hundredths score)%Z then "score-medium"%string
           else "score-low"%string) /\
  (before = 0%nat -> class = "score-low"%string) /\
  ((200 * Z.of_nat before < 2 ^ 45)%Z ->
   ((15999 * Z.of_nat before < 20000 * Z.of_nat common)%Z -> class = "score-high"%string) /\
   ((9999 * Z.of_nat before < 20000 * Z.of_nat common)%Z ->
    (20000 * Z.of_nat common < 15999 * Z.of_nat before)%Z -> class = "score-medium"%string) /\
   ((20000 * Z.of_nat common < 9999 * Z.of_nat before)%Z -> class = "score-low"%string)).
Proof.
  intros C score class.
  assert (E : class = (if (8000 <=? JS.hundredths score)%Z then "score-high"%string
                       else if (5000 <=? JS.hundredths score)%Z then "score-medium"%string
                       else "score-low"%string)).
  { apply scoreClass_printed. apply (stabilityPercent_bounds common before C). }
  split; [exact E|]. split.
  - intros ->. reflexivity.
  - intros Small.
    destruct (Nat.eq_dec before 0) as [->|N]; [repeat split; intros; lia|].
    assert (P : (0 < before)%nat) by lia.
    pose proof (hundredths_of_percent common before 8000 P C Small) as [H1 H2].
    pose proof (hundredths_of_percent common before 5000 P C Small) as [M1 M2].
    fold score in H1, H2, M1, M2.
    change (2 * 8000 - 1)%Z with 15999%Z in *. change (2 * 5000 - 1)%Z with 9999%Z in *.
    rewrite E. repeat split.
    + intros H. apply H1 in H. apply Z.leb_le in H. now rewrite H.
    + intros M H. apply H2 in H. apply M1 in M.
      apply Z.leb_le in M. apply Z.leb_gt in H. now rewrite H, M.
    + intros M. apply M2 in M.
      assert (JS.hundredths score < 8000)%Z by lia.
      destruct (Z.leb_spec 8000 (JS.hundredths score)); [lia|].
      destruct (Z.leb_spec 5000 (JS.hundredths score)); [lia|]. reflexivity.
Qed.

(** X26.  For the whole-number scores of the recommendations, which reach
    the function as numbers and are converted to their decimal numerals,
    the class is [score-high] from 80, [score-medium] from 50 to 79 and
    [score-low] below. *)
Theorem X26_score_class_of_integer (score : nat) :
  Display.getScoreClass (JS.numberToString score) =
  if (80 <=? score)%nat then "score-high"%string
  else if (50 <=? score)%nat then "score-medium"%string
  else "score-low"%string.
Proof.
  unfold Display.getScoreClass. cbv zeta. rewrite parseFloat_integer.
  set (q := Display.mantissa (JS.numberToString score) "" * 10 ^ 0).
  assert (E : q == inject_Z (Z.of_nat score * 100) / 100).
  { unfold q, Display.mantissa. rewrite digitsValue_numberToString, inject_Z_mult.
    change (inject_Z 100) with 100. cbn. field. }
  change (Display.atLeast (Display.number q) 80)
    with (Display.atLeast (Display.number q) (inject_Z 80)).
  change (Display.atLeast (Display.number q) 50)
    with (Display.atLeast (Display.number q) (inject_Z 50)).
  rewrite (atLeast_number q 80 _ ltac:(lia) ltac:(now cbv) E).
  rewrite (atLeast_number q 50 _ ltac:(lia) ltac:(now cbv) E).
  destruct (Z.leb_spec (80 * 100) (Z.of_nat score * 100));
    destruct (Nat.leb_spec 80 score); try lia; try reflexivity.
  destruct (Z.leb_spec (50 * 100) (Z.of_nat score * 100));
    destruct (Nat.leb_spec 50 score); try lia; reflexivity.
Qed.

(* ------------------------------------------------------------------------- *)
(** ** The command line *)

Lemma flagOf_flagName (flag : Args.Flag) : Args.flagOf (Args.flagName flag) = Some flag.
Proof. destruct flag; reflexivity. Qed.

Lemma flagOf_positional (arg : string) :
  JS.startsWith arg "--" = false ->
  Args.flagOf arg = None /\ (arg =? "--help")%string = false.
Proof.
  intros H. unfold Args.flagOf.
  repeat match goal with
         | |- context [(arg =? ?s)%string] =>
             destruct (String.eqb_spec arg s) as [->|_]; [discriminate H|]
         end.
  split; reflexivity.
Qed.

Lemma field_setFlag (flag flag' : Args.Flag) (paths : Args.Paths) (v : option string) :
  Args.field flag (Args.setFlag flag' paths v) =
  if Args.sameFlag flag' flag then v else Args.field flag paths.
Proof. destruct flag, flag'; reflexivity. Qed.

Lemma find_last {A : Type} (p : A -> bool) (l : list A) (x : A) :
  find p (l ++ [x]) =
  match find p l with
  | Some y => Some y
  | None => if p x then Some x else None
  end.
Proof.
  induction l as [|y l IH]; cbn [app find].
  - reflexivity.
  - destruct (p y); [reflexivity | exact IH].
Qed.

Lemma field_assign (flag : Args.Flag) (pairs : list (Args.Flag * string)) (paths : Args.Paths) :
  Args.field flag (Args.assign pairs paths) =
  match find (fun entry => Args.sameFlag (fst entry) flag) (rev pairs) with
  | Some entry => Some (snd entry)
  | None => Args.field flag paths
  end.
Proof.
  unfold Args.assign. revert paths.
  induction pairs as [|[flag' v] pairs IH]; intros paths; cbn [fold_left rev].
  - reflexivity.
  - rewrite IH, find_last. cbn [fst snd].
    destruct (find _ (rev pairs)); [reflexivity|].
    rewrite field_setFlag. now destruct (Args.sameFlag flag' flag).
Qed.

Section CommandLine.

Variable resolve : list string -> string.
Variable __dirname : string.

Local Abbreviation parseLoop := (Args.parseLoop).
Local Abbreviation parseArgs := (Args.parseArgs resolve __dirname).
Local Abbreviation defaults := (Args.defaults resolve __dirname).

Lemma parseLoop_flags (pairs : list (Args.Flag * string)) (rest : list string) :
  forall (i : nat) (paths : Args.Paths),
    exists j, parseLoop i (Args.flatten pairs ++ rest) paths
              = parseLoop j rest (Args.assign pairs paths).
Proof.
  induction pairs as [|[flag v] pairs IH]; intros i paths.
  - exists i. reflexivity.
  - cbn [Args.flatten flat_map fst snd app Args.parseLoop].
    rewrite flagOf_flagName. exact (IH (i + 2)%nat _).
Qed.

(** The state after the leading arguments that are not flags. *)
Lemma parseLoop_positional (positional rest : list string) :
  Args.positionalOk positional ->
  exists i, parseLoop 0 (positional ++ rest) defaults
            = parseLoop i rest
                {| Args.beforePath :=
                     Some (nth 0 positional (resolve [__dirname; "html/inboxA.html"]));
                   Args.afterPath :=
                     Some (nth 1 positional (resolve [__dirname; "html/inboxB.html"]));
                   Args.outputJsonPath :=
                     Some (resolve [__dirname; "output/analysis-results.json"]);
                   Args.outputHtmlPath :=
                     Some (resolve [__dirname; "output/analysis-report.html"]) |}.
Proof.
  intros [L F].
  destruct positional as [|b [|a [|c positional]]]; cbn [List.length] in L; [| | |lia].
  - exists 0%nat. reflexivity.
  - apply Forall_inv in F. destruct (flagOf_positional b F) as [N H].
    exists 1%nat. cbn [app Args.parseLoop nth]. rewrite N, H, F. reflexivity.
  - pose proof (Forall_inv F) as Fb. pose proof (Forall_inv (Forall_inv_tail F)) as Fa.
    destruct (flagOf_positional b Fb) as [Nb Hb], (flagOf_positional a Fa) as [Na Ha].
    exists 2%nat. cbn [app Args.parseLoop nth]. rewrite Nb, Hb, Fb. cbn [Args.parseLoop].
    rewrite Na, Ha, Fa. reflexivity.
Qed.

(** X27.  Up to two leading arguments that do not start with two hyphens,
    followed by any run of value flags each with its value: [parseArgs]
    returns, and each path is the resolution of the value of the last
    occurrence of its flag, whatever that value is ([--help] and flag names
    included), or else of the positional argument for the before and after
    paths, or else of the default under [__dirname]. *)
Theorem X27_flags_and_positionals (positional : list string)
        (pairs : list (Args.Flag * string)) :
  Args.positionalOk positional ->
  parseArgs (positional ++ Args.flatten pairs) =
  Args.Returned
    {| Args.Resolved.beforePath :=
         resolve [Args.lastValue Args.Before pairs
                    (nth 0 positional (resolve [__dirname; "html/inboxA.html"]))];
       Args.Resolved.afterPath :=
         resolve [Args.lastValue Args.After pairs
                    (nth 1 positional (resolve [__dirname; "html/inboxB.html"]))];
       Args.Resolved.outputJsonPath :=
         resolve [Args.lastValue Args.OutputJson pairs
                    (resolve [__dirname; "output/analysis-results.json"])];
       Args.Resolved.outputHtmlPath :=
         resolve [Args.lastValue Args.OutputHtml pairs
                    (resolve [__dirname; "output/analysis-report.html"])] |}.
Proof.
  intros OK. unfold Args.parseArgs.
  destruct (parseLoop_positional positional (Args.flatten pairs) OK) as [i ->].
  destruct (parseLoop_flags pairs [] i
              {| Args.beforePath :=
                   Some (nth 0 positional (resolve [__dirname; "html/inboxA.html"]));
                 Args.afterPath :=
                   Some (nth 1 positional (resolve [__dirname; "html/inboxB.html"]));
                 Args.outputJsonPath :=
                   Some (resolve [__dirname; "output/analysis-results.json"]);
                 Args.outputHtmlPath :=
                   Some (resolve [__dirname; "output/analysis-report.html"]) |}) as [j E].
  rewrite app_nil_r in E. rewrite E. cbn [Args.parseLoop].
  change (Args.beforePath ?p) with (Args.field Args.Before p).
  change (Args.afterPath ?p) with (Args.field Args.After p).
  change (Args.outputJsonPath ?p) with (Args.field Args.OutputJson p).
  change (Args.outputHtmlPath ?p) with (Args.field Args.OutputHtml p).
  rewrite !field_assign. unfold Args.lastValue. cbn [Args.field].
  repeat match goal with
         | |- context [find ?f ?l] => destruct (find f l)
         end; reflexivity.
Qed.

(** X28.  When such a command line ends with a value flag that has no
    value, [parseArgs] throws the [TypeError] of [path.resolve]: the
    default is not used for the missing value. *)
Theorem X28_missing_value_throws (positional : list string)
        (pairs : list (Args.Flag * string)) (flag : Args.Flag) :
  Args.positionalOk positional ->
  parseArgs (positional ++ Args.flatten pairs ++ [Args.flagName flag]) = Args.ThrownTypeError.
Proof.
  intros OK. unfold Args.parseArgs.
  destruct (parseLoop_positional positional (Args.flatten pairs ++ [Args.flagName flag]) OK) as [i ->].
  destruct (parseLoop_flags pairs [Args.flagName flag] i
              {| Args.beforePath :=
                   Some (nth 0 positional (resolve [__dirname; "html/inboxA.html"]));
                 Args.afterPath :=
                   Some (nth 1 positional (resolve [__dirname; "html/inboxB.html"]));
                 Args.outputJsonPath :=
                   Some (resolve [__dirname; "output/analysis-results.json"]);
                 Args.outputHtmlPath :=
                   Some (resolve [__dirname; "output/analysis-report.html"]) |}) as [j ->].
  cbn [Args.parseLoop]. rewrite flagOf_flagName.
  destruct (Args.assign pairs _) as [b a js h].
  destruct flag; cbn; destruct b, a, js, h; reflexivity.
Qed.

(** X29.  When [--help] stands where a flag is read, the process exits
    with status 0 whatever follows it, and no path is returned. *)
Theorem X29_help_exits (positional : list string)
        (pairs : list (Args.Flag * string)) (rest : list string) :
  Args.positionalOk positional ->
  parseArgs (positional ++ Args.flatten pairs ++ "--help"%string :: rest) = Args.Exited 0.
Proof.
  intros OK. unfold Args.parseArgs.
  destruct (parseLoop_positional positional (Args.flatten pairs ++ "--help"%string :: rest) OK) as [i ->].
  destruct (parseLoop_flags pairs ("--help"%string :: rest) i
              {| Args.beforePath :=
                   Some (nth 0 positional (resolve [__dirname; "html/inboxA.html"]));
                 Args.afterPath :=
                   Some (nth 1 positional (resolve [__dirname; "html/inboxB.html"]));
                 Args.outputJsonPath :=
                   Some (resolve [__dirname; "output/analysis-results.json"]);
                 Args.outputHtmlPath :=
                   Some (resolve [__dirname; "output/analysis-report.html"]) |}) as [j ->].
  reflexivity.
Qed.

End CommandLine.

(* ------------------------------------------------------------------------- *)
(** ** The further properties on the sample data *)


(** The score of an element against itself. *)
Lemma X1_match_score_ceiling_witness :
  matchScoreOf Samples.mailTwice Samples.mailTwice = Normal 7%Z /\
  (7 <= 2 * Z.of_nat (List.length (JS.keys (_getAttributes Samples.mailTwice))) + 3)%Z.
Proof.
  assert (H : matchScoreOf Samples.mailTwice Samples.mailTwice = Normal 7%Z) by reflexivity.
  split; [exact H|].
  exact (proj1 (X1_match_score_ceiling Samples.mailTwice Samples.mailTwice 7 H)).
Defined.

(** The matcher on a pool that holds the element itself. *)
Lemma X2_self_match_agrees_witness :
  In Samples.mailTwice Examples.pool /\
  existsb (clash Samples.mailTwice) Examples.pool = false /\
  exists best,
    _findMatchingElement Samples.mailTwice Examples.pool = Normal (Some best) /\
    tagName Samples.mailTwice = tagName best.
Proof.
  assert (H : In Samples.mailTwice Examples.pool) by (right; left; reflexivity).
  assert (C : existsb (clash Samples.mailTwice) Examples.pool = false) by reflexivity.
  split; [exact H|]. split; [exact C|].
  destruct (X2_self_match_agrees Samples.mailTwice Examples.pool H C)
    as (best & F & _ & _ & T & _).
  exists best. split; [exact F | exact T].
Defined.


(** The data selector of an element with two data attributes. *)
Lemma X6_data_selector_first_witness :
  _hasDataAttribute Examples.tagged = true /\
  exists name value,
    In (name, value) (attributes Examples.tagged) /\
    _getBestAttributeSelector Examples.tagged "data-"
      = Some ("[" ++ name ++ "=" ++ quoted value ++ "]")%string.
Proof.
  assert (H : _hasDataAttribute Examples.tagged = true) by reflexivity.
  split; [exact H|].
  destruct (X6_data_selector_first Examples.tagged H)
    as (earlier & name & value & later & E & _ & _ & S).
  exists name, value. split; [|exact S].
  rewrite E. apply in_or_app. right. left. reflexivity.
Defined.

(** Three candidates, two of which share the greatest score. *)
Lemma X7_primary_is_first_best_witness :
  Examples.candidates <> [] /\
  exists best,
    In best Examples.candidates /\
    Recommendation.primarySelector (Browser.recommend Examples.candidates)
      = Some (Candidate.selector best) /\
    Recommendation.isReliable (Browser.recommend Examples.candidates)
      = (85 <? Candidate.stabilityScore best)%Z.
Proof.
  assert (H : Examples.candidates <> []) by discriminate.
  split; [exact H|].
  destruct (X7_primary_is_first_best Examples.candidates H)
    as (earlier & best & later & E & _ & _ & P & _ & _ & R).
  exists best. split; [|split; [exact P | exact R]].
  rewrite E. apply in_or_app. right. left. reflexivity.
Defined.

(** The candidates of the message list on the list sample. *)
Lemma X9_candidate_types_and_ranges_witness :
  Browser._findStableElementsMatchingFeature Css.querySelectorAll Samples.listBefore
    Samples.listBefore "list" Examples.listTerms = Normal Examples.listCandidates /\
  In (Candidate.mk "#list" 93 "id-based") Examples.listCandidates /\
  (93 <= 93 <= 105)%Z.
Proof.
  assert (H1 : Browser._findStableElementsMatchingFeature Css.querySelectorAll
                 Samples.listBefore Samples.listBefore "list" Examples.listTerms
               = Normal Examples.listCandidates) by reflexivity.
  assert (H2 : In (Candidate.mk "#list" 93 "id-based") Examples.listCandidates)
    by (right; left; reflexivity).
  split; [exact H1|]. split; [exact H2|].
  destruct (X9_candidate_types_and_ranges Css.querySelectorAll _ _ _ _ _ _ H1 H2)
    as [[T _]|[[_ R]|[[T _]|[T _]]]]; [discriminate T | exact R | discriminate T | discriminate T].
Defined.

(** The role candidate of the labelled list sample. *)
Lemma X11_role_candidate_selector_witness :
  Browser._addCandidatesWithRole Css.querySelectorAll Samples.labelledList
    Samples.labelledList "list" Examples.listTerms [] = Normal Examples.roleCandidates /\
  In (Candidate.mk (Browser.roleSelector "list" ++ "div") 110 "role-based")
     Examples.roleCandidates /\
  exists matched rest,
    (Browser.roleSelector "list" ++ "div")%string
    = (Browser.roleSelector "list" ++ JS.toLowerCase (tagName matched) ++ rest)%string.
Proof.
  assert (H1 : Browser._addCandidatesWithRole Css.querySelectorAll Samples.labelledList
                 Samples.labelledList "list" Examples.listTerms []
               = Normal Examples.roleCandidates) by reflexivity.
  assert (H2 : In (Candidate.mk (Browser.roleSelector "list" ++ "div") 110 "role-based")
                  Examples.roleCandidates) by (left; reflexivity).
  split; [exact H1|]. split; [exact H2|].
  destruct (X11_role_candidate_selector Css.querySelectorAll _ _ _ _ _ _ H1 H2)
    as (afterElements & matched & rest & _ & _ & _ & S).
  exists matched, rest. exact S.
Defined.

(** The report of the list sample compared with itself. *)
Lemma X13_report_is_complete_witness :
  Browser.analyzeChanges Css.querySelectorAll Samples.listBefore Samples.listBefore
    = Normal Samples.listSelfReport /\
  map fst (Report.stableAttributes Samples.listSelfReport)
    = ["id"; "class"; "data-testid"; "role"; "aria-label"; "name"]%string /\
  map fst (Report.recommendedAnchors Samples.listSelfReport)
    = ["MessageList"; "ComposeButton"; "FolderPane"; "ReadingPane"; "CommandBar"]%string.
Proof.
  assert (H : Browser.analyzeChanges Css.querySelectorAll Samples.listBefore Samples.listBefore
              = Normal Samples.listSelfReport) by reflexivity.
  split; [exact H|].
  exact (X13_report_is_complete Css.querySelectorAll _ _ _ H).
Defined.

(** The records of [data-testid] in the two directions of the list
    sample. *)
Lemma X14_swap_documents_witness :
  Browser.findStableAttributes Css.querySelectorAll Samples.listBefore Samples.listAfter
    = Normal Samples.listStability /\
  Browser.findStableAttributes Css.querySelectorAll Samples.listAfter Samples.listBefore
    = Normal Examples.listStabilityBackward /\
  In ("data-testid"%string, AttributeStability.mk 0 1 0 "0.00" []) Samples.listStability /\
  In ("data-testid"%string, AttributeStability.mk 1 0 0 "0.00" [])
     Examples.listStabilityBackward /\
  AttributeStability.totalBefore (AttributeStability.mk 0 1 0 "0.00" [])
  = AttributeStability.totalAfter (AttributeStability.mk 1 0 0 "0.00" []).
Proof.
  assert (H1 : Browser.findStableAttributes Css.querySelectorAll Samples.listBefore
                 Samples.listAfter = Normal Samples.listStability) by reflexivity.
  assert (H2 : Browser.findStableAttributes Css.querySelectorAll Samples.listAfter
                 Samples.listBefore = Normal Examples.listStabilityBackward) by reflexivity.
  assert (H3 : In ("data-testid"%string, AttributeStability.mk 0 1 0 "0.00" [])
                  Samples.listStability) by (right; right; left; reflexivity).
  assert (H4 : In ("data-testid"%string, AttributeStability.mk 1 0 0 "0.00" [])
                  Examples.listStabilityBackward) by (right; right; left; reflexivity).
  split; [exact H1|]. split; [exact H2|]. split; [exact H3|]. split; [exact H4|].
  exact (proj1 (X14_swap_documents Css.querySelectorAll _ _ _ _ _ _ _ H1 H2 H3 H4)).
Defined.

(** The attributes object of an element whose attribute names include
    two array indices and [__proto__]. *)
Lemma X17_attributes_object_witness :
  NoDup (map fst (attributes Examples.numbered)) /\
  JS.get (_getAttributes Examples.numbered) "__proto__" = None /\
  exists indices,
    JS.keys (_getAttributes Examples.numbered) = indices ++ ["id"]%string.
Proof.
  assert (H : NoDup (map fst (attributes Examples.numbered))).
  { cbn. repeat constructor; cbn; intuition discriminate. }
  split; [exact H|].
  destruct (X17_attributes_object Examples.numbered H) as (G & indices & K & _).
  split; [exact (G "__proto__"%string)|].
  exists indices. exact K.
Defined.



(** The message list of the command-line variant on the labelled list
    sample. *)
Lemma X22_cli_recommendation_witness :
  In ("MessageList"%string,
      Recommendation.mk (Some (Browser.roleSelector "list")) [".ms-List"%string] 90
                        (Some "primary"%string) true)
     Examples.cliRecommendations /\
  exists feature, In feature Cli.features /\ "MessageList"%string = Cli.name feature.
Proof.
  assert (H : In ("MessageList"%string,
                  Recommendation.mk (Some (Browser.roleSelector "list")) [".ms-List"%string] 90
                                    (Some "primary"%string) true)
                 (Cli.generateAnchorRecommendations Css.querySelectorAll Samples.labelledList
                    Samples.labelledList)) by (left; reflexivity).
  split; [exact H|].
  destruct (proj2 (X22_cli_recommendation Css.querySelectorAll Samples.labelledList
                     Samples.labelledList) _ _ H) as (feature & F & N & _).
  exists feature. split; [exact F | exact N].
Defined.

(** The path of the second paragraph of the sample page. *)
Lemma X23_element_path_witness :
  Forall (fun element => tagName element <> ""%string) PathModel.secondParagraph /\
  PathModel._getElementPath PathModel.secondParagraph
  = PathModel.joinWith " > " (map PathModel.pathSelector (rev PathModel.secondParagraph)).
Proof.
  assert (H : Forall (fun element => tagName element <> ""%string) PathModel.secondParagraph)
    by (repeat constructor; discriminate).
  split; [exact H|].
  exact (proj1 (X23_element_path PathModel.secondParagraph H)).
Defined.

(** Two of three values kept: 66.67 percent. *)
Lemma X25_score_class_of_attribute_witness :
  (2 <= 3)%nat /\
  Display.getScoreClass (JS.toFixed2 (Browser.stabilityPercent 2 3)) = "score-medium"%string.
Proof.
  assert (H : (2 <= 3)%nat) by lia.
  split; [exact H|].
  pose proof (X25_score_class_of_attribute 2 3 H) as K. cbv zeta in K.
  destruct K as (_ & _ & K).
  assert (S : (200 * Z.of_nat 3 < 2 ^ 45)%Z) by reflexivity.
  destruct (K S) as (_ & M & _).
  apply M; reflexivity.
Defined.

(** Two positional arguments, then flags that override the first of
    them. *)
Lemma X27_flags_and_positionals_witness :
  Args.positionalOk ["a.html"; "b.html"]%string /\
  Args.parseArgs Examples.resolve "/repo"
    (["a.html"; "b.html"]%string ++ Args.flatten Examples.commandLine)
  = Args.Returned
      (Args.Resolved.mk "new.html" "b.html" "--help" "/repo/output/analysis-report.html").
Proof.
  assert (H : Args.positionalOk ["a.html"; "b.html"]%string).
  { split; [cbn; lia | repeat constructor]. }
  split; [exact H|].
  exact (X27_flags_and_positionals Examples.resolve "/repo" _ Examples.commandLine H).
Defined.

(** The same command line with [--after] left without a value. *)
Lemma X28_missing_value_throws_witness :
  Args.positionalOk ["a.html"; "b.html"]%string /\
  Args.parseArgs Examples.resolve "/repo"
    (["a.html"; "b.html"]%string ++ Args.flatten Examples.commandLine ++ ["--after"%string])
  = Args.ThrownTypeError.
Proof.
  assert (H : Args.positionalOk ["a.html"; "b.html"]%string).
  { split; [cbn; lia | repeat constructor]. }
  split; [exact H|].
  exact (X28_missing_value_throws Examples.resolve "/repo" _ Examples.commandLine Args.After H).
Defined.

(** The same command line followed by [--help]. *)
Lemma X29_help_exits_witness :
  Args.positionalOk ["a.html"; "b.html"]%string /\
  Args.parseArgs Examples.resolve "/repo"
    (["a.html"; "b.html"]%string ++ Args.flatten Examples.commandLine
     ++ ["--help"; "--before"]%string)
  = Args.Exited 0.
Proof.
  assert (H : Args.positionalOk ["a.html"; "b.html"]%string).
  { split; [cbn; lia | repeat constructor]. }
  split; [exact H|].
  exact (X29_help_exits Examples.resolve "/repo" _ Examples.commandLine ["--before"%string] H).
Defined.
